(** * MobX core: dependency tracking, staleness propagation, batches and
      observable values

    A shallow embedding of [core/observable.ts], [core/derivation.ts],
    [types/observablevalue.ts], [types/listen-utils.ts] and
    [types/intercept-utils.ts].

    JavaScript objects live in a store indexed by object identifiers; every
    function of the sources becomes a function on that store.  Code that the
    sources only call (methods of derivations and observables, reactions,
    user callbacks) is collected in one record of externals; those act on the
    heap, and every call made to them is written to a trace the callee cannot
    reach. *)

From stdpp Require Import base decidable option list gmap strings.
From Stdlib Require Import ZArith Lia.

(** ** Data model *)

(** [IDerivationState] of [core/derivation.ts], with its numeric values. *)
Inductive IDerivationState :=
  | NOT_TRACKING
  | UP_TO_DATE
  | POSSIBLY_STALE
  | STALE.

Global Instance IDerivationState_eq_dec : EqDecision IDerivationState.
Proof. solve_decision. Defined.

Definition state_num (s : IDerivationState) : Z :=
  match s with
  | NOT_TRACKING => -1
  | UP_TO_DATE => 0
  | POSSIBLY_STALE => 1
  | STALE => 2
  end%Z.

(** Object identities.  A derivation's [__mapid] is its identifier. *)
Definition obsId := nat.
Definition derivId := nat.
Definition handler := nat.

(** [IObservable].  [observers] is a dense array; [observersIndexes] is the
    JavaScript object used as a map from [__mapid] to an index. *)
Record IObservable := mkObservable {
  diffValue : nat;
  lastAccessedBy : nat;
  lowestObserverState : IDerivationState;
  isPendingUnobservation : bool;
  observers : list derivId;
  observersIndexes : gmap derivId nat
}.

(** [IDerivation].  [newObserving] is [null] or an array that may have holes
    ([new Array(n)] allocates [n] of them). *)
Record IDerivation := mkDerivation {
  observing : list obsId;
  newObserving : option (list (option obsId));
  dependenciesState : IDerivationState;
  runId : nat;
  unboundDepsCount : nat
}.

(** Values held by an [ObservableValue]: references compared with [===].
    [UNCHANGED] is the sentinel object of [observablevalue.ts]. *)
Inductive JsValue :=
  | UNCHANGED
  | Val (n : nat).

Global Instance JsValue_eq_dec : EqDecision JsValue.
Proof. solve_decision. Defined.

(** The fields [ObservableValue] adds to an atom. *)
Record ObservableValue := mkObservableValue {
  value : JsValue;
  interceptors : option (list handler);
  changeListeners : option (list handler)
}.

(** Modelled from the spec: [globalState] (the module [core/globalstate] is
    imported by the sources but not part of them); the fields are those of
    section 4.1 that the sources read or write. *)
Record GlobalState := mkGlobalState {
  trackingDerivation : option derivId;
  g_runId : nat;
  inBatch : Z;
  pendingUnobservations : list obsId;
  allowStateChanges : bool;
  strictMode : bool
}.

(** The store.  [pendingUnobservations] of [glob] holds the contents of the
    array that [globalState.pendingUnobservations] points to at the moment.
    [endBatch] puts a new array in that field while a loop further out may
    still walk the old one, so the identity of the array counts:
    [queueEpoch] numbers the array now in the field, and [retiredQueues]
    keeps the contents of the arrays that were in it before, as they were
    when they were replaced (only a loop that captured such an array can
    still reach it, and that loop only reads it). *)
Record Heap := mkHeap {
  obsS : obsId → IObservable;
  derS : derivId → IDerivation;
  ovS : obsId → ObservableValue;
  glob : GlobalState;
  queueEpoch : nat;
  retiredQueues : nat → list obsId
}.

(** *** Store updates *)

Definition upd {A} (f : nat → A) (k : nat) (v : A) : nat → A :=
  λ x, if decide (x = k) then v else f x.

Definition set_obs (o : obsId) (x : IObservable) (h : Heap) : Heap :=
  mkHeap (upd (obsS h) o x) (derS h) (ovS h) (glob h)
    (queueEpoch h) (retiredQueues h).
Definition set_der (d : derivId) (x : IDerivation) (h : Heap) : Heap :=
  mkHeap (obsS h) (upd (derS h) d x) (ovS h) (glob h)
    (queueEpoch h) (retiredQueues h).
Definition set_ov (o : obsId) (x : ObservableValue) (h : Heap) : Heap :=
  mkHeap (obsS h) (derS h) (upd (ovS h) o x) (glob h)
    (queueEpoch h) (retiredQueues h).
Definition set_glob (g : GlobalState) (h : Heap) : Heap :=
  mkHeap (obsS h) (derS h) (ovS h) g (queueEpoch h) (retiredQueues h).

Definition with_diffValue (v : nat) (x : IObservable) : IObservable :=
  mkObservable v (lastAccessedBy x) (lowestObserverState x)
    (isPendingUnobservation x) (observers x) (observersIndexes x).
Definition with_lastAccessedBy (v : nat) (x : IObservable) : IObservable :=
  mkObservable (diffValue x) v (lowestObserverState x)
    (isPendingUnobservation x) (observers x) (observersIndexes x).
Definition with_lowestObserverState (v : IDerivationState) (x : IObservable)
    : IObservable :=
  mkObservable (diffValue x) (lastAccessedBy x) v
    (isPendingUnobservation x) (observers x) (observersIndexes x).
Definition with_isPendingUnobservation (v : bool) (x : IObservable)
    : IObservable :=
  mkObservable (diffValue x) (lastAccessedBy x) (lowestObserverState x)
    v (observers x) (observersIndexes x).
Definition with_observers (l : list derivId) (m : gmap derivId nat)
    (x : IObservable) : IObservable :=
  mkObservable (diffValue x) (lastAccessedBy x) (lowestObserverState x)
    (isPendingUnobservation x) l m.

Definition with_observing (l : list obsId) (x : IDerivation) : IDerivation :=
  mkDerivation l (newObserving x) (dependenciesState x) (runId x)
    (unboundDepsCount x).
Definition with_newObserving (a : option (list (option obsId)))
    (x : IDerivation) : IDerivation :=
  mkDerivation (observing x) a (dependenciesState x) (runId x)
    (unboundDepsCount x).
Definition with_dependenciesState (s : IDerivationState) (x : IDerivation)
    : IDerivation :=
  mkDerivation (observing x) (newObserving x) s (runId x)
    (unboundDepsCount x).
Definition with_runId (n : nat) (x : IDerivation) : IDerivation :=
  mkDerivation (observing x) (newObserving x) (dependenciesState x) n
    (unboundDepsCount x).
Definition with_unboundDepsCount (n : nat) (x : IDerivation) : IDerivation :=
  mkDerivation (observing x) (newObserving x) (dependenciesState x) (runId x)
    n.

Definition with_trackingDerivation (t : option derivId) (g : GlobalState)
    : GlobalState :=
  mkGlobalState t (g_runId g) (inBatch g) (pendingUnobservations g)
    (allowStateChanges g) (strictMode g).
Definition with_g_runId (n : nat) (g : GlobalState) : GlobalState :=
  mkGlobalState (trackingDerivation g) n (inBatch g)
    (pendingUnobservations g) (allowStateChanges g) (strictMode g).
Definition with_inBatch (n : Z) (g : GlobalState) : GlobalState :=
  mkGlobalState (trackingDerivation g) (g_runId g) n
    (pendingUnobservations g) (allowStateChanges g) (strictMode g).
Definition with_pendingUnobservations (l : list obsId) (g : GlobalState)
    : GlobalState :=
  mkGlobalState (trackingDerivation g) (g_runId g) (inBatch g) l
    (allowStateChanges g) (strictMode g).

(** Field-wise updates of one stored object. *)
Definition on_obs (o : obsId) (f : IObservable → IObservable) (h : Heap) :=
  set_obs o (f (obsS h o)) h.
Definition on_der (d : derivId) (f : IDerivation → IDerivation) (h : Heap) :=
  set_der d (f (derS h d)) h.
Definition on_glob (f : GlobalState → GlobalState) (h : Heap) :=
  set_glob (f (glob h)) h.

(** ** Exceptions and results *)

(** What a JavaScript call can throw here: a user exception, the [TypeError]
    of a property access on [undefined] or [null], and the error raised by
    [invariant].  [SparseArray] marks the one place where the JavaScript
    array would be left with holes that the dense [observers] list cannot
    hold; the model stops there instead of inventing a value. *)
Inductive Exn :=
  | UserExn (payload : nat)
  | TypeError
  | InvariantFailed (msg : string)
  | SparseArray.

Inductive outcome (A : Type) :=
  | Ret (a : A)
  | Raise (e : Exn).
Arguments Ret {A} a.
Arguments Raise {A} e.

(** Heap-passing computations that may throw; mutations made before a throw
    stay. *)
Definition M (A : Type) := Heap → outcome A * Heap.

Definition mret {A} (a : A) : M A := λ h, (Ret a, h).
Definition mraise {A} (e : Exn) : M A := λ h, (Raise e, h).
Definition mbind {A B} (m : M A) (k : A → M B) : M B :=
  λ h, match m h with
       | (Ret a, h1) => k a h1
       | (Raise e, h1) => (Raise e, h1)
       end.
Definition mlift (f : Heap → Heap) : M unit := λ h, (Ret tt, f h).

Notation "'run!' m 'in' k" := (mbind m (λ _, k))
  (at level 10, m at level 100, k at level 200).

(** ** Calls into code outside the sources *)

(** The change records handed to interceptors and listeners.  [c_type] is
    [None] when the record carries no [type] field. *)
Record Change := mkChange {
  c_object : obsId;
  c_type : option string;
  c_newValue : JsValue;
  c_oldValue : option JsValue
}.

(** What an interceptor hands back: a falsy value or a change object. *)
Inductive intercepted :=
  | Falsy
  | Truthy (c : Change).

Inductive Event :=
  | EOnBecomeStale (d : derivId)
  | EOnBecomeUnobserved (o : obsId)
  | ERunReactions
  | EReportChanged (o : obsId)
  | EGet (o : obsId)
  | ECallDerivedFunction (d : derivId)
  | EInterceptor (k : handler) (c : Change)
  | EListener (k : handler) (c : Change)
  | EEnhancer (o : obsId) (v : JsValue)
  | ESpyReportStart (c : Change)
  | ESpyReportEnd.

Global Instance Change_eq_dec : EqDecision Change.
Proof. solve_decision. Defined.
Global Instance Event_eq_dec : EqDecision Event.
Proof. solve_decision. Defined.

(** The code the sources call but do not contain.  [onBecomeStale] and
    [onBecomeUnobserved] are the methods of [IDerivation] and [IObservable];
    [runReactions] is imported from [core/reaction]; [reportChanged] is the
    method [ObservableValue] inherits from [BaseAtom]; [computedGet] is
    [ComputedValue.get] and [isComputedValue] its instance test;
    [interceptorFn] and [listenerFn] are the registered callbacks;
    [enhancer] is the [IEnhancer] of an observable value; the spy functions
    come from [core/spy].  Hooks that the sources call outside any [try] are
    taken to return normally. *)
Record Externals := mkExternals {
  onBecomeStale : derivId → Heap → Heap;
  onBecomeUnobserved : obsId → Heap → Heap;
  runReactions : Heap → Heap;
  reportChanged : obsId → Heap → Heap;
  isComputedValue : obsId → bool;
  computedGet : obsId → M unit;
  interceptorFn : handler → Change → M intercepted;
  listenerFn : handler → Change → M unit;
  enhancer : obsId → JsValue → JsValue → M JsValue;
  isSpyEnabled : Heap → bool;
  spyReportStart : Change → Heap → Heap;
  spyReportEnd : Heap → Heap
}.

(** A heap together with the calls made so far to external code. *)
Record World := mkWorld {
  heap : Heap;
  trace : list Event
}.

Definition on_heap (f : Heap → Heap) (w : World) : World :=
  mkWorld (f (heap w)) (trace w).

(** Calling a hook: the call is logged, then the hook runs on the heap. *)
Definition call_hook (e : Event) (f : Heap → Heap) (w : World) : World :=
  mkWorld (f (heap w)) (trace w ++ [e]).

(** Calling a callback that may throw. *)
Definition call_ext {A} (e : Event) (m : M A) (w : World)
    : outcome A * World :=
  let '(r, h1) := m (heap w) in (r, mkWorld h1 (trace w ++ [e])).

(** ** [core/observable.ts] *)

Definition hasObservers (o : obsId) (h : Heap) : bool :=
  bool_decide (0 < length (observers (obsS h o))).

(** [observable.observers[l] = node] with [l] the length appends. *)
Definition addObserver (o : obsId) (node : derivId) (h : Heap) : Heap :=
  let x := obsS h o in
  let l := length (observers x) in
  let map := if decide (l = 0) then observersIndexes x
             else <[node := l]> (observersIndexes x) in
  let x1 := with_observers (observers x ++ [node]) map x in
  let s := dependenciesState (derS h node) in
  let x2 := if decide (state_num (lowestObserverState x1) > state_num s)%Z
            then with_lowestObserverState s x1 else x1 in
  set_obs o x2 h.

Definition queueForUnobservation (o : obsId) (h : Heap) : Heap :=
  if isPendingUnobservation (obsS h o) then h
  else
    let h1 := on_obs o (with_isPendingUnobservation true) h in
    on_glob (λ g, with_pendingUnobservations
                    (pendingUnobservations g ++ [o]) g) h1.

(** [list[index] = filler] on a dense array: inside the array the slot is
    overwritten, at its end the array grows by one; further out JavaScript
    would leave holes, which is [None] here. *)
Definition array_store {A} (l : list A) (i : nat) (v : A) : option (list A) :=
  if decide (i < length l) then Some (<[i := v]> l)
  else if decide (i = length l) then Some (l ++ [v])
  else None.

(** [removeObserver].  With an empty [observers] array [list.pop()] yields
    [undefined] and reading [filler.__mapid] throws.  With an index that
    points beyond the array, which no well-formed [observersIndexes] holds,
    the code stores past the end and leaves holes; the dense list cannot
    hold those, and the model stops there with [SparseArray]. *)
Definition removeObserver (o : obsId) (node : derivId) : M unit := λ h,
  let x := obsS h o in
  if decide (length (observers x) = 1) then
    let h1 := on_obs o (with_observers [] (observersIndexes x)) h in
    (Ret tt, queueForUnobservation o h1)
  else
    match last (observers x) with
    | None => (Raise TypeError, h)
    | Some filler =>
        let list := removelast (observers x) in
        let map := observersIndexes x in
        if decide (filler = node) then
          (Ret tt, on_obs o (with_observers list (delete node map)) h)
        else
          let index := default 0 (map !! node) in
          let map1 := if decide (index = 0) then delete filler map
                      else <[filler := index]> map in
          match array_store list index filler with
          | Some list1 =>
              (Ret tt, on_obs o (with_observers list1 (delete node map1)) h)
          | None => (Raise SparseArray, h)
          end
    end.

Definition startBatch (h : Heap) : Heap :=
  on_glob (λ g, with_inBatch (inBatch g + 1)%Z g) h.

(** One round of the loop of [endBatch], on the entry [o]. *)
Definition drain_visit (E : Externals) (o : obsId) (w : World) : World :=
  let w1 := on_heap (on_obs o (with_isPendingUnobservation false)) w in
  if decide (length (observers (obsS (heap w1) o)) = 0)
  then call_hook (EOnBecomeUnobserved o) (onBecomeUnobserved E o) w1
  else w1.

(** [globalState.pendingUnobservations = []]: a new, empty array goes into
    the field; the array that was there keeps its contents. *)
Definition replace_queue (h : Heap) : Heap :=
  mkHeap (obsS h) (derS h) (ovS h)
    (with_pendingUnobservations [] (glob h))
    (S (queueEpoch h))
    (upd (retiredQueues h) (queueEpoch h) (pendingUnobservations (glob h))).

(** The contents of the array numbered [k]: the one in the field, or one
    that was replaced. *)
Definition captured_queue (k : nat) (h : Heap) : list obsId :=
  if decide (queueEpoch h = k) then pendingUnobservations (glob h)
  else retiredQueues h k.

(** The loop of [endBatch] over [list], the array numbered [k] that was in
    [pendingUnobservations] when the loop began.  [list.length] is read
    again on every round, so entries that [onBecomeUnobserved] pushes on
    that array are visited too; when a hook has put another array in the
    field (by closing a batch of its own), the loop goes on over the array
    it captured.  The loop need not end, hence the fuel; the boolean tells
    whether it ran to its end. *)
Fixpoint drainUnobservations (E : Externals) (k fuel i : nat) (w : World)
    : World * bool :=
  match captured_queue k (heap w) !! i with
  | None => (w, true)
  | Some o =>
      match fuel with
      | O => (w, false)
      | S fuel' => drainUnobservations E k fuel' (S i) (drain_visit E o w)
      end
  end.

Definition endBatch (E : Externals) (fuel : nat) (w : World) : World * bool :=
  let w1 := on_heap (on_glob (λ g, with_inBatch (inBatch g - 1)%Z g)) w in
  if decide (inBatch (glob (heap w1)) = 0%Z) then
    let w2 := call_hook ERunReactions (runReactions E) w1 in
    let '(w3, finished) :=
      drainUnobservations E (queueEpoch (heap w2)) fuel 0 w2 in
    if finished then (on_heap replace_queue w3, true) else (w3, false)
  else (w1, true).

(** [arr[i] = v] on an array with holes; beyond the end JavaScript pads with
    holes. *)
Definition array_write {A} (arr : list (option A)) (i : nat) (v : A)
    : list (option A) :=
  if decide (i < length arr) then <[i := Some v]> arr
  else arr ++ replicate (i - length arr) None ++ [Some v].

(** [reportObserved].  When [newObserving] is [null] the index expression
    [unboundDepsCount++] has been evaluated before the store throws. *)
Definition reportObserved (o : obsId) : M unit := λ h,
  match trackingDerivation (glob h) with
  | Some d =>
      if decide (runId (derS h d) ≠ lastAccessedBy (obsS h o)) then
        let h1 := on_obs o (with_lastAccessedBy (runId (derS h d))) h in
        let n := unboundDepsCount (derS h1 d) in
        let h2 := on_der d (with_unboundDepsCount (S n)) h1 in
        match newObserving (derS h2 d) with
        | None => (Raise TypeError, h2)
        | Some arr =>
            (Ret tt,
             on_der d (with_newObserving (Some (array_write arr n o))) h2)
        end
      else (Ret tt, h)
  | None =>
      if decide (length (observers (obsS h o)) = 0)
      then (Ret tt, queueForUnobservation o h)
      else (Ret tt, h)
  end.

(** One round of the loop of [propagateChanged], on the observer [d]. *)
Definition propagateChanged_visit (E : Externals) (d : derivId) (w : World)
    : World :=
  let w1 := if decide (dependenciesState (derS (heap w) d) = UP_TO_DATE)
            then call_hook (EOnBecomeStale d) (onBecomeStale E d) w
            else w in
  on_heap (on_der d (with_dependenciesState STALE)) w1.

(** The loops of the propagation functions run [while (i--)] over the
    [observers] array, from its last entry to its first.  The array is
    captured before the loop but never copied or replaced, so [observers[i]]
    is read from the array as the hooks have left it; on a missing entry
    reading [d.dependenciesState] throws.  [i] is the index after the
    decrement still to come. *)
Fixpoint propagateChanged_loop (E : Externals) (o : obsId) (i : nat)
    (w : World) : outcome unit * World :=
  match i with
  | O => (Ret tt, w)
  | S i' =>
      match observers (obsS (heap w) o) !! i' with
      | None => (Raise TypeError, w)
      | Some d => propagateChanged_loop E o i' (propagateChanged_visit E d w)
      end
  end.

Definition propagateChanged (E : Externals) (o : obsId) (w : World)
    : outcome unit * World :=
  if decide (lowestObserverState (obsS (heap w) o) = STALE) then (Ret tt, w)
  else
    let w1 := on_heap (on_obs o (with_lowestObserverState STALE)) w in
    propagateChanged_loop E o (length (observers (obsS (heap w1) o))) w1.

(** [propagateChangeConfirmed] calls no hook: nothing can change the array
    during its loop, which visits the observers from the last to the
    first.  [ds] is the part still to visit, in visiting order. *)
Fixpoint propagateChangeConfirmed_loop (o : obsId) (ds : list derivId)
    (h : Heap) : Heap :=
  match ds with
  | [] => h
  | d :: rest =>
      let h1 :=
        if decide (dependenciesState (derS h d) = POSSIBLY_STALE)
        then on_der d (with_dependenciesState STALE) h
        else if decide (dependenciesState (derS h d) = UP_TO_DATE)
        then on_obs o (with_lowestObserverState UP_TO_DATE) h
        else h in
      propagateChangeConfirmed_loop o rest h1
  end.

Definition propagateChangeConfirmed (o : obsId) (h : Heap) : Heap :=
  if decide (lowestObserverState (obsS h o) = STALE) then h
  else
    let h1 := on_obs o (with_lowestObserverState STALE) h in
    propagateChangeConfirmed_loop o (reverse (observers (obsS h1 o))) h1.

Fixpoint propagateMaybeChanged_loop (E : Externals) (o : obsId) (i : nat)
    (w : World) : outcome unit * World :=
  match i with
  | O => (Ret tt, w)
  | S i' =>
      match observers (obsS (heap w) o) !! i' with
      | None => (Raise TypeError, w)
      | Some d =>
          let w1 :=
            if decide (dependenciesState (derS (heap w) d) = UP_TO_DATE)
            then call_hook (EOnBecomeStale d) (onBecomeStale E d)
                   (on_heap (on_der d (with_dependenciesState POSSIBLY_STALE))
                      w)
            else w in
          propagateMaybeChanged_loop E o i' w1
      end
  end.

Definition propagateMaybeChanged (E : Externals) (o : obsId) (w : World)
    : outcome unit * World :=
  if decide (lowestObserverState (obsS (heap w) o) = UP_TO_DATE) then
    let w1 := on_heap (on_obs o (with_lowestObserverState POSSIBLY_STALE)) w in
    propagateMaybeChanged_loop E o (length (observers (obsS (heap w1) o))) w1
  else (Ret tt, w).

(** ** [core/derivation.ts] *)

Definition changeDependenciesStateTo0 (d : derivId) (h : Heap) : Heap :=
  if decide (dependenciesState (derS h d) = UP_TO_DATE) then h
  else
    let h1 := on_der d (with_dependenciesState UP_TO_DATE) h in
    foldl (λ h' o, on_obs o (with_lowestObserverState UP_TO_DATE) h')
      h1 (reverse (observing (derS h1 d))).

Definition untrackedStart (h : Heap) : option derivId * Heap :=
  (trackingDerivation (glob h), on_glob (with_trackingDerivation None) h).

Definition untrackedEnd (prev : option derivId) (h : Heap) : Heap :=
  on_glob (with_trackingDerivation prev) h.

(** The [for] loop of [shouldCompute] over the array [obs] and its length
    [l], both captured before the loop.  [obs] is what is left to visit.  A
    run of the derivation would store a new array in [observing], not change
    this one; only [clearObserving] empties it in place, and [get] is taken
    not to do that to this derivation during the walk. *)
Fixpoint shouldCompute_loop (E : Externals) (d : derivId)
    (prevUntracked : option derivId) (obs : list obsId) (w : World)
    : bool * World :=
  match obs with
  | [] =>
      let w1 := on_heap (changeDependenciesStateTo0 d) w in
      (false, on_heap (untrackedEnd prevUntracked) w1)
  | obj :: rest =>
      if isComputedValue E obj then
        match call_ext (EGet obj) (computedGet E obj) w with
        | (Raise _, w1) => (true, on_heap (untrackedEnd prevUntracked) w1)
        | (Ret _, w1) =>
            if decide (dependenciesState (derS (heap w1) d) = STALE)
            then (true, on_heap (untrackedEnd prevUntracked) w1)
            else shouldCompute_loop E d prevUntracked rest w1
        end
      else shouldCompute_loop E d prevUntracked rest w
  end.

Definition shouldCompute (E : Externals) (d : derivId) (w : World)
    : bool * World :=
  match dependenciesState (derS (heap w) d) with
  | UP_TO_DATE => (false, w)
  | NOT_TRACKING | STALE => (true, w)
  | POSSIBLY_STALE =>
      let '(prevUntracked, h1) := untrackedStart (heap w) in
      shouldCompute_loop E d prevUntracked (observing (derS h1 d))
        (mkWorld h1 (trace w))
  end.

Definition isComputingDerivation (h : Heap) : bool :=
  bool_decide (trackingDerivation (glob h) ≠ None).

Definition strict_mode_message : string :=
  "It is not allowed to create or change state outside an `action` when MobX is in strict mode. Wrap the current method in `action` if this state change is intended".
Definition computed_message : string :=
  "It is not allowed to change the state when a computed value or transformer is being evaluated. Use 'autorun' to create reactive functions with side-effects.".

Definition checkIfStateModificationsAreAllowed : M unit := λ h,
  if allowStateChanges (glob h) then (Ret tt, h)
  else (Raise (InvariantFailed (if strictMode (glob h)
                                then strict_mode_message
                                else computed_message)), h).

(** First pass of [bindDependencies]: [n] rounds are left, [i] is the read
    index and [i0] the write index.  Reading [dep.diffValue] throws when
    [observing[i]] is a hole or lies beyond the array. *)
Fixpoint bindDependencies_dedup (n i i0 : nat) (arr : list (option obsId))
    : M (nat * list (option obsId)) := λ h,
  match n with
  | O => (Ret (i0, arr), h)
  | S n' =>
      match arr !! i with
      | Some (Some dep) =>
          if decide (diffValue (obsS h dep) = 0) then
            let h1 := on_obs dep (with_diffValue 1) h in
            let arr1 := if decide (i0 ≠ i) then array_write arr i0 dep
                        else arr in
            bindDependencies_dedup n' (S i) (S i0) arr1 h1
          else bindDependencies_dedup n' (S i) i0 arr h
      | _ => (Raise TypeError, h)
      end
  end.

(** [observing.length = n]. *)
Definition array_truncate {A} (arr : list (option A)) (n : nat)
    : list (option A) :=
  take n arr ++ replicate (n - length arr) None.

(** The array kept in [observing] after the first pass: its slots are all
    filled, and it is stored as a dense list. *)
Definition dense {A} (arr : list (option A)) : list A := omap id arr.

(** Second pass, over the previous [observing] from its last entry. *)
Fixpoint bindDependencies_unobserve (d : derivId) (deps : list obsId)
    : M unit :=
  match deps with
  | [] => mret tt
  | dep :: rest => λ h,
      (run! (if decide (diffValue (obsS h dep) = 0)
             then removeObserver dep d else mret tt) in
       run! mlift (on_obs dep (with_diffValue 0)) in
       bindDependencies_unobserve d rest) h
  end.

(** Third pass, over the new [observing] from its last entry. *)
Fixpoint bindDependencies_observe (d : derivId) (deps : list obsId)
    (h : Heap) : Heap :=
  match deps with
  | [] => h
  | dep :: rest =>
      let h1 := if decide (diffValue (obsS h dep) = 1)
                then addObserver dep d (on_obs dep (with_diffValue 0) h)
                else h in
      bindDependencies_observe d rest h1
  end.

(** [bindDependencies].  The code stores the array of [newObserving] in
    [observing] at once and compacts it in place; the dense list of the
    model takes it when the first pass has ended, and nothing reads the
    field in between.  With [newObserving] being [null] the first use of
    [observing] throws, and so does the first pass on a hole among the
    entries it reads: the code has then left [null] or an array with holes
    in [observing], which the dense list cannot hold, and the model keeps
    the previous list there. *)
Definition bindDependencies (d : derivId) : M unit := λ h,
  let prevObserving := observing (derS h d) in
  match newObserving (derS h d) with
  | None => (Raise TypeError, h)
  | Some arr =>
      let h1 := on_der d (with_newObserving None) h in
      let l := unboundDepsCount (derS h1 d) in
      match bindDependencies_dedup l 0 0 arr h1 with
      | (Raise e, h2) => (Raise e, h2)
      | (Ret (i0, arr1), h2) =>
          let new := dense (array_truncate arr1 i0) in
          let h3 := on_der d (with_observing new) h2 in
          match bindDependencies_unobserve d (reverse prevObserving) h3 with
          | (Raise e, h4) => (Raise e, h4)
          | (Ret _, h4) => (Ret tt, bindDependencies_observe d (reverse new) h4)
          end
      end
  end.

(** What [trackDerivedFunction] returns: the value of [f] or the exception
    it threw, wrapped. *)
Inductive tracked :=
  | Returned (v : JsValue)
  | CaughtException (cause : Exn).

(** [trackDerivedFunction(derivation, f, context)]; [f] stands for
    [f.call(context)]. *)
Definition trackDerivedFunction (d : derivId) (f : M JsValue) (w : World)
    : outcome tracked * World :=
  let h1 := changeDependenciesStateTo0 d (heap w) in
  let h2 := on_der d (with_newObserving
              (Some (replicate (length (observing (derS h1 d)) + 100) None)))
              h1 in
  let h3 := on_der d (with_unboundDepsCount 0) h2 in
  let h4 := on_glob (λ g, with_g_runId (S (g_runId g)) g) h3 in
  let h5 := on_der d (with_runId (g_runId (glob h4))) h4 in
  let prevTracking := trackingDerivation (glob h5) in
  let h6 := on_glob (with_trackingDerivation (Some d)) h5 in
  let '(r, w7) := call_ext (ECallDerivedFunction d) f (mkWorld h6 (trace w)) in
  let result := match r with
                | Ret v => Returned v
                | Raise e => CaughtException e
                end in
  let h8 := on_glob (with_trackingDerivation prevTracking) (heap w7) in
  match bindDependencies d h8 with
  | (Ret _, h9) => (Ret result, mkWorld h9 (trace w7))
  | (Raise e, h9) => (Raise e, mkWorld h9 (trace w7))
  end.

Fixpoint clearObserving_loop (d : derivId) (obs : list obsId) : M unit :=
  match obs with
  | [] => mret tt
  | o :: rest => run! removeObserver o d in clearObserving_loop d rest
  end.

Definition clearObserving (d : derivId) : M unit := λ h,
  (run! clearObserving_loop d (reverse (observing (derS h d))) in
   run! mlift (on_der d (with_dependenciesState NOT_TRACKING)) in
   mlift (on_der d (with_observing []))) h.

(** ** [types/listen-utils.ts] and [types/intercept-utils.ts] *)

Definition hasListeners (o : obsId) (h : Heap) : bool :=
  match changeListeners (ovS h o) with
  | Some ks => bool_decide (0 < length ks)
  | None => false
  end.

Definition registerListener (o : obsId) (k : handler) (h : Heap) : Heap :=
  let x := ovS h o in
  set_ov o (mkObservableValue (value x) (interceptors x)
              (Some (default [] (changeListeners x) ++ [k]))) h.

Fixpoint notifyListeners_loop (E : Externals) (ks : list handler)
    (change : Change) (w : World) : outcome unit * World :=
  match ks with
  | [] => (Ret tt, w)
  | k :: rest =>
      match call_ext (EListener k change) (listenerFn E k change) w with
      | (Ret _, w1) => notifyListeners_loop E rest change w1
      | (Raise e, w1) => (Raise e, w1)
      end
  end.

(** [notifyListeners].  The loop runs over a copy ([slice]) of the list. *)
Definition notifyListeners (E : Externals) (o : obsId) (change : Change)
    (w : World) : outcome unit * World :=
  let '(prevU, h1) := untrackedStart (heap w) in
  let w1 := mkWorld h1 (trace w) in
  match changeListeners (ovS h1 o) with
  | None => (Ret tt, w1)
  | Some ks =>
      match notifyListeners_loop E ks change w1 with
      | (Ret _, w2) => (Ret tt, on_heap (untrackedEnd prevU) w2)
      | (Raise e, w2) => (Raise e, w2)
      end
  end.

Definition hasInterceptors (o : obsId) (h : Heap) : bool :=
  match interceptors (ovS h o) with
  | Some ks => bool_decide (0 < length ks)
  | None => false
  end.

Definition registerInterceptor (o : obsId) (k : handler) (h : Heap) : Heap :=
  let x := ovS h o in
  set_ov o (mkObservableValue (value x)
              (Some (default [] (interceptors x) ++ [k]))
              (changeListeners x)) h.

(** [change.type] is truthy: the field is there and not the empty string. *)
Definition type_truthy (c : Change) : bool :=
  match c_type c with
  | Some s => bool_decide (s ≠ EmptyString)
  | None => false
  end.

Definition intercept_message : string :=
  "Intercept handlers should return nothing or a change object".

(** The loop of [interceptChange]: [n] rounds are left and [i] is the index.
    The array is not copied: [interceptors[i]] is read from the array as it
    is at that moment (the array is made once by [registerInterceptor] and
    then only changed in place); calling a missing entry throws. *)
Fixpoint interceptChange_loop (E : Externals) (o : obsId) (n i : nat)
    (change : Change) (w : World) : outcome intercepted * World :=
  match n with
  | O => (Ret (Truthy change), w)
  | S n' =>
      match interceptors (ovS (heap w) o) ≫= (λ ks, ks !! i) with
      | None => (Raise TypeError, w)
      | Some k =>
          match call_ext (EInterceptor k change) (interceptorFn E k change) w
          with
          | (Raise e, w1) => (Raise e, w1)
          | (Ret Falsy, w1) => (Ret Falsy, w1)
          | (Ret (Truthy c), w1) =>
              if type_truthy c
              then interceptChange_loop E o n' (S i) c w1
              else (Raise (InvariantFailed intercept_message), w1)
          end
      end
  end.

(** [interceptChange]; the [finally] block runs on every way out. *)
Definition interceptChange (E : Externals) (o : obsId) (change : Change)
    (w : World) : outcome intercepted * World :=
  let '(prevU, h1) := untrackedStart (heap w) in
  let w1 := mkWorld h1 (trace w) in
  let '(r, w2) :=
    match interceptors (ovS h1 o) with
    | Some ks => interceptChange_loop E o (length ks) 0 change w1
    | None => (Ret (Truthy change), w1)
    end in
  (r, on_heap (untrackedEnd prevU) w2).

(** ** [types/observablevalue.ts] *)

Definition update_type : string := "update".

(** The end of [prepareNewValue]: the enhancer is applied and its result is
    compared with the stored value. *)
Definition prepareNewValue_enhance (E : Externals) (o : obsId)
    (newValue : JsValue) (w : World) : outcome JsValue * World :=
  match call_ext (EEnhancer o newValue)
          (enhancer E o newValue (value (ovS (heap w) o))) w with
  | (Raise e, w1) => (Raise e, w1)
  | (Ret newValue', w1) =>
      (Ret (if decide (value (ovS (heap w1) o) ≠ newValue') then newValue'
            else UNCHANGED), w1)
  end.

Definition prepareNewValue (E : Externals) (o : obsId) (newValue : JsValue)
    (w : World) : outcome JsValue * World :=
  match checkIfStateModificationsAreAllowed (heap w) with
  | (Raise e, h1) => (Raise e, mkWorld h1 (trace w))
  | (Ret _, h1) =>
      let w1 := mkWorld h1 (trace w) in
      if hasInterceptors o h1 then
        match interceptChange E o
                (mkChange o (Some update_type) newValue None) w1 with
        | (Raise e, w2) => (Raise e, w2)
        | (Ret Falsy, w2) => (Ret UNCHANGED, w2)
        | (Ret (Truthy change), w2) =>
            prepareNewValue_enhance E o (c_newValue change) w2
        end
      else prepareNewValue_enhance E o newValue w1
  end.

Definition setNewValue (E : Externals) (o : obsId) (newValue : JsValue)
    (w : World) : outcome unit * World :=
  let x := ovS (heap w) o in
  let oldValue := value x in
  let w1 := on_heap (set_ov o (mkObservableValue newValue (interceptors x)
                                 (changeListeners x))) w in
  let w2 := call_hook (EReportChanged o) (reportChanged E o) w1 in
  if hasListeners o (heap w2) then
    notifyListeners E o
      (mkChange o (Some update_type) newValue (Some oldValue)) w2
  else (Ret tt, w2).

(** [ObservableValue.set]. *)
Definition set (E : Externals) (o : obsId) (newValue : JsValue) (w : World)
    : outcome unit * World :=
  let oldValue := value (ovS (heap w) o) in
  match prepareNewValue E o newValue w with
  | (Raise e, w1) => (Raise e, w1)
  | (Ret newValue', w1) =>
      if decide (newValue' ≠ UNCHANGED) then
        let notifySpy := isSpyEnabled E (heap w1) in
        let change := mkChange o (Some update_type) newValue'
                        (Some oldValue) in
        let w2 := if notifySpy
                  then call_hook (ESpyReportStart change)
                         (spyReportStart E change) w1
                  else w1 in
        match setNewValue E o newValue' w2 with
        | (Raise e, w3) => (Raise e, w3)
        | (Ret _, w3) =>
            (Ret tt, if notifySpy
                     then call_hook ESpyReportEnd (spyReportEnd E) w3
                     else w3)
        end
      else (Ret tt, w1)
  end.

Definition get (o : obsId) : M JsValue := λ h,
  match reportObserved o h with
  | (Ret _, h1) => (Ret (value (ovS h1 o)), h1)
  | (Raise e, h1) => (Raise e, h1)
  end.

(** ** Conditions on the external code *)

(** The [onBecomeStale] hooks never take a derivation out of [STALE]. *)
Definition hooks_keep_stale (E : Externals) : Prop :=
  ∀ d' d h, dependenciesState (derS h d) = STALE →
            dependenciesState (derS (onBecomeStale E d' h) d) = STALE.

(** The [onBecomeStale] hooks leave the [observers] array of [o] alone. *)
Definition hooks_keep_observers (E : Externals) (o : obsId) : Prop :=
  ∀ d h, observers (obsS (onBecomeStale E d h) o) = observers (obsS h o).

(** The visit of [propagateChanged] as the specification words it: the
    observers [ds] are taken in turn. *)
Fixpoint visit_observers (E : Externals) (ds : list derivId) (w : World)
    : World :=
  match ds with
  | [] => w
  | d :: rest => visit_observers E rest (propagateChanged_visit E d w)
  end.

(** The [onBecomeStale] hooks leave [lowestObserverState] of [o] alone. *)
Definition hooks_keep_lowest (E : Externals) (o : obsId) : Prop :=
  ∀ d h, lowestObserverState (obsS (onBecomeStale E d h) o) =
         lowestObserverState (obsS h o).

(** The drain of the outermost [endBatch] as the specification words it:
    the entries of the queue numbered [k] are taken in turn from index [i]
    on, those pushed in the meantime included; each has its pending flag
    cleared, and [onBecomeUnobserved] is called on those that have no
    observer.  [calls] lists the observables whose hook was called. *)
Inductive drain_walk (E : Externals) (k : nat)
    : nat → World → list obsId → World → Prop :=
  | drain_end i w :
      captured_queue k (heap w) !! i = None →
      drain_walk E k i w [] w
  | drain_unobserved i o w calls w' :
      captured_queue k (heap w) !! i = Some o →
      observers (obsS (heap w) o) = [] →
      drain_walk E k (S i)
        (call_hook (EOnBecomeUnobserved o) (onBecomeUnobserved E o)
           (on_heap (on_obs o (with_isPendingUnobservation false)) w))
        calls w' →
      drain_walk E k i w (o :: calls) w'
  | drain_observed i o w calls w' :
      captured_queue k (heap w) !! i = Some o →
      observers (obsS (heap w) o) ≠ [] →
      drain_walk E k (S i)
        (on_heap (on_obs o (with_isPendingUnobservation false)) w)
        calls w' →
      drain_walk E k i w calls w'.

(** The queue at the end of the drain of the outermost [endBatch], before
    it is replaced by an empty one: since the batch began with an empty
    queue, it lists the pushes of the batch. *)
Definition queue_after_drain (E : Externals) (fuel : nat) (w : World)
    : list obsId :=
  let closed := on_heap (on_glob (λ g, with_inBatch (inBatch g - 1)%Z g)) w in
  let reacted := call_hook ERunReactions (runReactions E) closed in
  let k := queueEpoch (heap reacted) in
  captured_queue k (heap (drainUnobservations E k fuel 0 reacted).1).

(** How often [onBecomeUnobserved] was called on [o]. *)
Definition unobserved_calls (o : obsId) (t : list Event) : nat :=
  length (filter (λ e, e = EOnBecomeUnobserved o) t).



(** The interceptor chain as the specification words it: the handlers run in
    the order of the list, each on the change the one before handed back;
    the chain ends at the first falsy result; a truthy result whose [type]
    is missing is an invariant violation.  [calls] lists the handlers called
    with the change each received. *)
Inductive intercept_chain (E : Externals)
    : list handler → Change → World → outcome intercepted
      → list (handler * Change) → World → Prop :=
  | chain_end c w :
      intercept_chain E [] c w (Ret (Truthy c)) [] w
  | chain_falsy k rest c w w1 :
      call_ext (EInterceptor k c) (interceptorFn E k c) w = (Ret Falsy, w1) →
      intercept_chain E (k :: rest) c w (Ret Falsy) [(k, c)] w1
  | chain_invalid k rest c w c1 w1 :
      call_ext (EInterceptor k c) (interceptorFn E k c) w
        = (Ret (Truthy c1), w1) →
      type_truthy c1 = false →
      intercept_chain E (k :: rest) c w
        (Raise (InvariantFailed intercept_message)) [(k, c)] w1
  | chain_throw k rest c w e w1 :
      call_ext (EInterceptor k c) (interceptorFn E k c) w = (Raise e, w1) →
      intercept_chain E (k :: rest) c w (Raise e) [(k, c)] w1
  | chain_next k rest c w c1 w1 r calls w' :
      call_ext (EInterceptor k c) (interceptorFn E k c) w
        = (Ret (Truthy c1), w1) →
      type_truthy c1 = true →
      intercept_chain E rest c1 w1 r calls w' →
      intercept_chain E (k :: rest) c w r ((k, c) :: calls) w'.

(** No interceptor changes the list of interceptors of [o]. *)
Definition interceptors_stable (E : Externals) (o : obsId) : Prop :=
  ∀ k c h, interceptors (ovS (interceptorFn E k c h).2 o) =
           interceptors (ovS h o).

(** The calls [prepareNewValue] makes: interceptors and the enhancer. *)
Definition preparing_event (e : Event) : Prop :=
  match e with
  | EInterceptor _ _ | EEnhancer _ _ => True
  | _ => False
  end.

(** *** Derived functions

    What a derived function does to the tracking state, step by step: it
    reads an observable ([reportObserved], through [get] or an atom), or it
    runs other code: a nested computation, an untracked block, a [throw]. *)
Inductive step :=
  | Read (o : obsId)
  | Effect (m : M unit).

Fixpoint run_steps (body : list step) : M unit :=
  match body with
  | [] => mret tt
  | Read o :: rest => run! reportObserved o in run_steps rest
  | Effect m :: rest => run! m in run_steps rest
  end.

(** The function [f] that runs [body] and returns [result]. *)
Definition derived_function (body : list step) (result : JsValue)
    : M JsValue :=
  run! run_steps body in mret result.

(** The observables on which [body], started in [h], calls
    [reportObserved], in the order of the calls, up to the end of [body] or
    to the step that throws. *)
Fixpoint reads_done (body : list step) (h : Heap) : list obsId :=
  match body with
  | [] => []
  | Read o :: rest =>
      o :: match reportObserved o h with
           | (Ret _, h1) => reads_done rest h1
           | (Raise _, _) => []
           end
  | Effect m :: rest =>
      match m h with
      | (Ret _, h1) => reads_done rest h1
      | (Raise _, _) => []
      end
  end.

(** Each element once, in the order of the first occurrences. *)
Fixpoint first_occurrences (l : list obsId) : list obsId :=
  match l with
  | [] => []
  | x :: l' => x :: filter (λ y, y ≠ x) (first_occurrences l')
  end.

(** The heap in which [trackDerivedFunction] calls [f]. *)
Definition tracking_started (d : derivId) (h : Heap) : Heap :=
  let h1 := changeDependenciesStateTo0 d h in
  let h2 := on_der d (with_newObserving
              (Some (replicate (length (observing (derS h1 d)) + 100) None)))
              h1 in
  let h3 := on_der d (with_unboundDepsCount 0) h2 in
  let h4 := on_glob (λ g, with_g_runId (S (g_runId g)) g) h3 in
  let h5 := on_der d (with_runId (g_runId (glob h4))) h4 in
  on_glob (with_trackingDerivation (Some d)) h5.

(** [observersIndexes] records the index of every observer but the first
    (invariant I4). *)
Definition indexes_agree (x : IObservable) : Prop :=
  ∀ i d, observers x !! i = Some d →
         observersIndexes x !! d = if decide (i = 0) then None else Some i.

(** What [bindDependencies] relies on for derivation [d]: no observable is
    marked by [diffValue] (I6), [d.observing] has no duplicates (I2), and
    [d] is recorded as an observer of each of its entries (I1, I4). *)
Definition bind_ready (d : derivId) (h : Heap) : Prop :=
  (∀ o, diffValue (obsS h o) = 0) ∧
  NoDup (observing (derS h d)) ∧
  ∀ o, o ∈ observing (derS h d) →
       d ∈ observers (obsS h o) ∧ indexes_agree (obsS h o).

(** Run identifiers come from the global counter. *)
Definition run_ids_bounded (h : Heap) : Prop :=
  ∀ o, lastAccessedBy (obsS h o) ≤ g_runId (glob h).

(** Code run inside the derived function of [d] that is not a read of [d]:
    it leaves the tracking fields of [d] and the tracking derivation as they
    are, keeps what [bindDependencies] relies on, and takes its run
    identifiers from the global counter, so it never stamps an observable
    with the run of [d]. *)
Definition effect_respects (d : derivId) (m : M unit) : Prop :=
  ∀ h, bind_ready d h → runId (derS h d) ≤ g_runId (glob h) →
    let h1 := (m h).2 in
    bind_ready d h1 ∧
    runId (derS h1 d) ≤ g_runId (glob h1) ∧
    observing (derS h1 d) = observing (derS h d) ∧
    newObserving (derS h1 d) = newObserving (derS h d) ∧
    unboundDepsCount (derS h1 d) = unboundDepsCount (derS h d) ∧
    runId (derS h1 d) = runId (derS h d) ∧
    trackingDerivation (glob h1) = trackingDerivation (glob h) ∧
    ∀ o, lastAccessedBy (obsS h1 o) = runId (derS h d) →
         lastAccessedBy (obsS h o) = runId (derS h d).

Definition step_respects (d : derivId) (s : step) : Prop :=
  match s with
  | Read _ => True
  | Effect m => effect_respects d m
  end.

(** The state of a run of [d] with run identifier [rid] after the reads
    [reads]: [kept] are the entries written to [newObserving]. *)
Definition run_inv (d : derivId) (rid : nat) (prevObserving : list obsId)
    (h : Heap) (reads : list obsId) : Prop :=
  trackingDerivation (glob h) = Some d ∧
  runId (derS h d) = rid ∧
  rid ≤ g_runId (glob h) ∧
  observing (derS h d) = prevObserving ∧
  bind_ready d h ∧
  ∃ arr kept,
    newObserving (derS h d) = Some arr ∧
    unboundDepsCount (derS h d) = length kept ∧
    take (length kept) arr = Some <$> kept ∧
    first_occurrences kept = first_occurrences reads ∧
    ∀ o, lastAccessedBy (obsS h o) = rid → o ∈ kept.

(** ** Sample objects and states *)

Definition fresh_observable : IObservable :=
  mkObservable 0 0 UP_TO_DATE false [] ∅.
Definition fresh_derivation : IDerivation :=
  mkDerivation [] None NOT_TRACKING 0 0.
Definition fresh_value : ObservableValue :=
  mkObservableValue (Val 0) None None.
Definition fresh_globalState : GlobalState :=
  mkGlobalState None 0 0%Z [] true false.
Definition fresh_heap : Heap :=
  mkHeap (λ _, fresh_observable) (λ _, fresh_derivation) (λ _, fresh_value)
    fresh_globalState 0 (λ _, []).

(** Externals that do nothing and return normally. *)
Definition idle : Externals :=
  mkExternals (λ _ h, h) (λ _ h, h) (λ h, h) (λ _ h, h)
    (λ _, false) (λ _, mret tt)
    (λ _ c, mret (Truthy c)) (λ _ _, mret tt)
    (λ _ v _, mret v) (λ _, false) (λ _ h, h) (λ h, h).

(** A computed value as derivation [d] passes staleness on: here its one
    observer, derivation [d + 1], goes from [UP_TO_DATE] to
    [POSSIBLY_STALE]. *)
Definition pass_on_stale (d : derivId) (h : Heap) : Heap :=
  if decide (dependenciesState (derS h (S d)) = UP_TO_DATE)
  then on_der (S d) (with_dependenciesState POSSIBLY_STALE) h
  else h.

Definition with_onBecomeStale (f : derivId → Heap → Heap) (E : Externals)
    : Externals :=
  mkExternals f (onBecomeUnobserved E) (runReactions E) (reportChanged E)
    (isComputedValue E) (computedGet E) (interceptorFn E) (listenerFn E)
    (enhancer E) (isSpyEnabled E) (spyReportStart E) (spyReportEnd E).

(** Observable 0 observed by derivations 2 and 1, both up to date. *)
Definition two_observers : World :=
  mkWorld
    (on_der 1 (with_dependenciesState UP_TO_DATE)
       (on_der 2 (with_dependenciesState UP_TO_DATE)
          (on_obs 0 (with_observers [2; 1] {[1 := 1]})
             fresh_heap)))
    [].

Definition with_onBecomeUnobserved (f : obsId → Heap → Heap) (E : Externals)
    : Externals :=
  mkExternals (onBecomeStale E) f (runReactions E) (reportChanged E)
    (isComputedValue E) (computedGet E) (interceptorFn E) (listenerFn E)
    (enhancer E) (isSpyEnabled E) (spyReportStart E) (spyReportEnd E).

(** In a batch, observables 0 and 1 are read outside any derivation; neither
    has an observer. *)
Definition two_pending : World :=
  mkWorld
    (reportObserved 1 (reportObserved 0 (startBatch fresh_heap)).2).2 [].

(** The hook of observable 1 reads observable 0. *)
Definition reads_observable_0 (o : obsId) (h : Heap) : Heap :=
  if decide (o = 1) then (reportObserved 0 h).2 else h.

(** A computed value (observable 1, derivation 1) observes observable 2 and
    has just lost its last observer, in a batch. *)
Definition self_unobservation : World :=
  mkWorld
    (queueForUnobservation 1
       (addObserver 2 1
          (on_der 1 (with_observing [2]) (startBatch fresh_heap))))
    [].

(** In a batch, observable 2 is read outside any derivation while it has no
    observer; then the computed value (observable 1, derivation 1) starts to
    observe it and loses its own last observer. *)
Definition requeued_dependency : World :=
  mkWorld
    (queueForUnobservation 1
       (addObserver 2 1
          (on_der 1 (with_observing [2])
             (reportObserved 2 (startBatch fresh_heap)).2)))
    [].

(** The hook of a computed value: [clearObserving] on its derivation. *)
Definition clears_observing (o : obsId) (h : Heap) : Heap :=
  if decide (o = 1) then (clearObserving 1 h).2 else h.


(** Derivation 5 read observables 0, 1 and 2 in that order, is possibly
    stale, and is checked while derivation 9 is tracking. *)
Definition possibly_stale : World :=
  mkWorld
    (on_glob (with_trackingDerivation (Some 9))
       (on_der 5 (λ x, with_dependenciesState POSSIBLY_STALE
                         (with_observing [0; 1; 2] x))
          fresh_heap))
    [].

Definition requeueing : Externals :=
  with_onBecomeUnobserved reads_observable_0 idle.
Definition clearing : Externals :=
  with_onBecomeUnobserved clears_observing idle.
Definition passing_on : Externals :=
  with_onBecomeStale pass_on_stale idle.
Definition nested_batches : World :=
  on_heap (λ h, startBatch (startBatch h)) (mkWorld fresh_heap []).

(** Nested batches: observable 0 is read in the outer batch and observable
    1 in the inner one, both outside any derivation and without an
    observer. *)
Definition batched_reads : World :=
  mkWorld
    (reportObserved 1
       (startBatch (reportObserved 0 (startBatch fresh_heap)).2)).2 [].

(** Interceptor 1 doubles the new value, interceptor 2 rejects the change,
    interceptor 3 hands back an object without [type], interceptor 4
    throws.  Listener 7 throws. *)
Definition intercepting : Externals :=
  mkExternals (λ _ h, h) (λ _ h, h) (λ h, h) (λ _ h, h)
    (λ _, false) (λ _, mret tt)
    (λ k c,
       if decide (k = 1) then
         mret (Truthy (mkChange (c_object c) (c_type c)
                         (match c_newValue c with
                          | Val n => Val (2 * n)
                          | UNCHANGED => UNCHANGED
                          end) (c_oldValue c)))
       else if decide (k = 2) then mret Falsy
       else if decide (k = 3) then
         mret (Truthy (mkChange (c_object c) None (c_newValue c)
                         (c_oldValue c)))
       else if decide (k = 4) then mraise (UserExn 4)
       else mret (Truthy c))
    (λ k _, if decide (k = 7) then mraise (UserExn 7) else mret tt)
    (λ _ v _, mret v) (λ _, false) (λ _ h, h) (λ h, h).

(** Observable 0 holds 5, has interceptors 1 and 2 and listener 6;
    derivation 9 is tracking. *)
Definition intercepted_value : World :=
  mkWorld
    (on_glob (with_trackingDerivation (Some 9))
       (registerListener 0 6
          (registerInterceptor 0 2
             (registerInterceptor 0 1
                (set_ov 0 (mkObservableValue (Val 5) None None)
                   fresh_heap)))))
    [].

(** Observable 0 has no list of listeners; derivation 9 is tracking. *)
Definition no_listeners : World :=
  mkWorld (on_glob (with_trackingDerivation (Some 9)) fresh_heap) [].

(** Observable 0 has listener 7, which throws; derivation 9 is tracking. *)
Definition throwing_listener : World :=
  mkWorld
    (on_glob (with_trackingDerivation (Some 9))
       (registerListener 0 7 fresh_heap))
    [].

Definition update_change (o : obsId) (newValue oldValue : JsValue) : Change :=
  mkChange o (Some update_type) newValue (Some oldValue).

(** A nested computation takes the next run identifier and reads
    observable 0. *)
Definition nested_read : M unit :=
  mlift (λ h,
    let h1 := on_glob (λ g, with_g_runId (S (g_runId g)) g) h in
    on_obs 0 (with_lastAccessedBy (g_runId (glob h1))) h1).

(** Reads 1, 0, a nested computation, reads 0, 1, 2. *)
Definition sample_body : list step :=
  [Read 1; Read 0; Effect nested_read; Read 0; Read 1; Read 2].

(** Derivation 5 observes observable 3 and is stale; derivation 9 is
    tracking. *)
Definition stale_derivation : World :=
  mkWorld
    (on_glob (with_trackingDerivation (Some 9))
       (addObserver 3 5
          (on_der 5 (λ x, with_dependenciesState STALE
                            (with_observing [3] x))
             fresh_heap)))
    [].

(** Observable 0, a computed value, is observed by derivation 2, which is
    reading it and up to date, and by derivation 1, which is possibly
    stale. *)
Definition confirming : Heap :=
  on_der 1 (with_dependenciesState POSSIBLY_STALE)
    (on_der 2 (with_dependenciesState UP_TO_DATE)
       (on_obs 0 (with_observers [2; 1] {[1 := 1]}) fresh_heap)).

(** ** Further functions of the sources *)

Definition getObservers (o : obsId) (h : Heap) : list derivId :=
  observers (obsS h o).

Definition index0_message : string :=
  "INTERNAL ERROR observer on index 0 shouldnt be held in map.".
Definition index_message : string :=
  "INTERNAL ERROR maps derivation.__mapid to index in list".
Definition junk_message : string :=
  "INTERNAL ERROR there is no junk in map".

(** The loop of [invariantObservers]: [i] is the index of the head of
    [list]. *)
Fixpoint invariantObservers_loop (map : gmap derivId nat) (i : nat)
    (list : list derivId) : outcome unit :=
  match list with
  | [] => Ret tt
  | id :: rest =>
      if decide (i = 0) then
        if decide (map !! id = None)
        then invariantObservers_loop map (S i) rest
        else Raise (InvariantFailed index0_message)
      else
        if decide (map !! id = Some i)
        then invariantObservers_loop map (S i) rest
        else Raise (InvariantFailed index_message)
  end.

(** [invariantObservers], on the fields of the observable it reads. *)
Definition invariantObservers_check (x : IObservable) : outcome unit :=
  match invariantObservers_loop (observersIndexes x) 0 (observers x) with
  | Raise e => Raise e
  | Ret _ =>
      if decide (length (observers x) = 0 ∨
                 size (observersIndexes x) = length (observers x) - 1)
      then Ret tt
      else Raise (InvariantFailed junk_message)
  end.

Definition invariantObservers (o : obsId) : M unit := λ h,
  (invariantObservers_check (obsS h o), h).

(** [invariantLOS]: [true] when it returns, [false] when it throws its
    error. *)
Definition invariantLOS (o : obsId) (h : Heap) : bool :=
  let min := foldl (λ a b, Z.min a (state_num (dependenciesState (derS h b))))
               2%Z (getObservers o h) in
  bool_decide (min >= state_num (lowestObserverState (obsS h o)))%Z.

(** [untracked(action)]. *)
Definition untracked {A} (action : M A) : M A := λ h,
  let '(prev, h1) := untrackedStart h in
  match action h1 with
  | (Ret res, h2) => (Ret res, untrackedEnd prev h2)
  | (Raise e, h2) => (Raise e, h2)
  end.

(** [idx = list.indexOf(handler); if (idx !== -1) list.splice(idx, 1)]. *)
Fixpoint remove_first (k : handler) (l : list handler) : list handler :=
  match l with
  | [] => []
  | x :: rest => if decide (x = k) then rest else x :: remove_first k rest
  end.

(** The function [registerListener] hands back, without its [once]
    wrapper.  It works on the array it captured, which is the one in the
    field. *)
Definition unregisterListener (o : obsId) (k : handler) (h : Heap) : Heap :=
  let x := ovS h o in
  match changeListeners x with
  | Some ks =>
      set_ov o (mkObservableValue (value x) (interceptors x)
                  (Some (remove_first k ks))) h
  | None => h
  end.

(** The function [registerInterceptor] hands back, without [once]. *)
Definition unregisterInterceptor (o : obsId) (k : handler) (h : Heap)
    : Heap :=
  let x := ovS h o in
  match interceptors x with
  | Some ks =>
      set_ov o (mkObservableValue (value x) (Some (remove_first k ks))
                  (changeListeners x)) h
  | None => h
  end.

(** [ObservableValue.observe(listener, fireImmediately)]; the disposer it
    returns is [unregisterListener]. *)
Definition observe (E : Externals) (o : obsId) (k : handler)
    (fireImmediately : bool) (w : World) : outcome unit * World :=
  if fireImmediately then
    match call_ext
            (EListener k (mkChange o (Some update_type)
                            (value (ovS (heap w) o)) None))
            (listenerFn E k (mkChange o (Some update_type)
                               (value (ovS (heap w) o)) None)) w with
    | (Raise e, w1) => (Raise e, w1)
    | (Ret _, w1) => (Ret tt, on_heap (registerListener o k) w1)
    end
  else (Ret tt, on_heap (registerListener o k) w).

(** [ObservableValue.intercept(handler)]. *)
Definition intercept (o : obsId) (k : handler) (h : Heap) : Heap :=
  registerInterceptor o k h.

(** ** Further conditions *)

(** [observersIndexes] holds the index of every observer but the first and
    nothing else: what [invariantObservers] checks, also for an empty
    list. *)
Definition observers_wf (x : IObservable) : Prop :=
  indexes_agree x ∧
  ∀ d, d ∉ observers x → observersIndexes x !! d = None.

(** The part of the dependency graph around derivation [d] is consistent:
    no observable is marked (I6), [d.observing] has no duplicates (I2), [d]
    observes exactly the observables that list it as an observer (I1), and
    the observer lists are well formed (I4). *)
Definition graph_consistent (d : derivId) (h : Heap) : Prop :=
  (∀ o, diffValue (obsS h o) = 0) ∧
  NoDup (observing (derS h d)) ∧
  (∀ o, d ∈ observers (obsS h o) ↔ o ∈ observing (derS h d)) ∧
  (∀ o, observers_wf (obsS h o)).

(** Code run inside the derived function of [d] keeps that consistency. *)
Definition effect_keeps_graph (d : derivId) (m : M unit) : Prop :=
  ∀ h, graph_consistent d h → graph_consistent d (m h).2.

Definition step_keeps_graph (d : derivId) (s : step) : Prop :=
  match s with
  | Read _ => True
  | Effect m => effect_keeps_graph d m
  end.

(** No observer of [o] is [NOT_TRACKING] (the assertion at the head of
    [addObserver]). *)
Definition observers_tracking (o : obsId) (h : Heap) : Prop :=
  ∀ d, d ∈ observers (obsS h o) →
       dependenciesState (derS h d) ≠ NOT_TRACKING.

(** Derivation 5, which observes observable 3, has finished a run in which
    it reported observables 1, 0, 0 and 2. *)
Definition run_finished : Heap :=
  on_der 5 (λ x, with_unboundDepsCount 4
                   (with_newObserving
                      (Some [Some 1; Some 0; Some 0; Some 2; None; None]) x))
    (heap stale_derivation).

(** Invariant I5 as the specification words it: [lowestObserverState] is
    at most the state of every observer. *)
Definition lowest_is_lower_bound (o : obsId) (h : Heap) : Prop :=
  ∀ d, d ∈ observers (obsS h o) →
       (state_num (lowestObserverState (obsS h o))
          ≤ state_num (dependenciesState (derS h d)))%Z.

(** Observable 1 is a computed value whose [get] throws. *)
Definition throwing_get : Externals :=
  mkExternals (λ _ h, h) (λ _ h, h) (λ h, h) (λ _ h, h)
    (λ o, bool_decide (o = 1))
    (λ _, mraise (UserExn 1))
    (λ _ c, mret (Truthy c)) (λ _ _, mret tt)
    (λ _ v _, mret v) (λ _, false) (λ _ h, h) (λ h, h).

(** One round of the loop of [propagateMaybeChanged], on the observer [d]:
    the state is written before the hook is called. *)
Definition propagateMaybeChanged_visit (E : Externals) (d : derivId)
    (w : World) : World :=
  if decide (dependenciesState (derS (heap w) d) = UP_TO_DATE)
  then call_hook (EOnBecomeStale d) (onBecomeStale E d)
         (on_heap (on_der d (with_dependenciesState POSSIBLY_STALE)) w)
  else w.

(** The visit of [propagateMaybeChanged], with the observers [ds] taken in
    turn. *)
Fixpoint visit_observers_maybe (E : Externals) (ds : list derivId) (w : World)
    : World :=
  match ds with
  | [] => w
  | d :: rest =>
      visit_observers_maybe E rest (propagateMaybeChanged_visit E d w)
  end.

(** The [onBecomeStale] hooks never make a derivation [UP_TO_DATE]. *)
Definition hooks_never_refresh (E : Externals) : Prop :=
  ∀ d' d h, dependenciesState (derS h d) ≠ UP_TO_DATE →
            dependenciesState (derS (onBecomeStale E d' h) d) ≠ UP_TO_DATE.

(** The [onBecomeUnobserved] hooks leave the queue of unobservations (the
    array and its contents), the pending flags and the observer lists
    alone. *)
Definition unobserved_hooks_quiet (E : Externals) : Prop :=
  ∀ o h,
    queueEpoch (onBecomeUnobserved E o h) = queueEpoch h ∧
    pendingUnobservations (glob (onBecomeUnobserved E o h)) =
      pendingUnobservations (glob h) ∧
    ∀ o', observers (obsS (onBecomeUnobserved E o h) o') =
            observers (obsS h o') ∧
          isPendingUnobservation (obsS (onBecomeUnobserved E o h) o') =
            isPendingUnobservation (obsS h o').

(** ** [types/modifiers.ts] *)

(** [referenceEnhancer]: the new value as it is, never made observable. *)
Definition referenceEnhancer (newValue oldValue : JsValue) : M JsValue :=
  mret newValue.

(** ** Conditions on the callbacks of an observable value *)

(** [reportChanged] leaves the listeners of [o] alone. *)
Definition reportChanged_keeps_listeners (E : Externals) (o : obsId) : Prop :=
  ∀ h, changeListeners (ovS (reportChanged E o h) o) =
       changeListeners (ovS h o).

(** Every listener returns normally. *)
Definition listeners_return (E : Externals) : Prop :=
  ∀ k c h, ∃ h', listenerFn E k c h = (Ret tt, h').

(** A computed value is being evaluated by derivation 9: state changes are
    not allowed. *)
Definition computing : World :=
  mkWorld (set_glob (mkGlobalState (Some 9) 0 0%Z [] false false) fresh_heap)
    [].

(** Observable 0 holds 0; listeners 6 and 8 observe it. *)
Definition observed_value : World :=
  (observe idle 0 8 false
     (observe idle 0 6 false (mkWorld fresh_heap [])).2).2.

(** From [h] to [h'] no derivation changes its state, and
    [lowestObserverState] stays a lower bound on every observable on which
    it was one. *)
Definition keeps_lower_bound (h h' : Heap) : Prop :=
  (∀ d, dependenciesState (derS h' d) = dependenciesState (derS h d)) ∧
  ∀ o, lowest_is_lower_bound o h → lowest_is_lower_bound o h'.

(** [refStructEnhancer]: the old value is kept when the new one is
    structurally equal to it.  [deepEqual] comes from [utils/utils], which
    is not part of the sources; it is taken as given. *)
Definition refStructEnhancer (deepEqual : JsValue → JsValue → bool)
    (v oldValue : JsValue) : M JsValue :=
  mret (if deepEqual v oldValue then oldValue else v).

(** The spy is off. *)
Definition spy_off (E : Externals) : Prop := ∀ h, isSpyEnabled E h = false.

(** A sample [deepEqual]: the references [n] and [n + 10] hold equal
    structures. *)
Definition same_structure (a b : JsValue) : bool :=
  match a, b with
  | Val n, Val m => bool_decide (n mod 10 = m mod 10)
  | _, _ => bool_decide (a = b)
  end.

(** Observable values compared by structure. *)
Definition structural : Externals :=
  mkExternals (λ _ h, h) (λ _ h, h) (λ h, h) (λ _ h, h)
    (λ _, false) (λ _, mret tt)
    (λ _ c, mret (Truthy c)) (λ _ _, mret tt)
    (λ _, refStructEnhancer same_structure) (λ _, false) (λ _ h, h) (λ h, h).

(** Interceptor 1 unregisters itself, by the disposer that [intercept]
    handed out for it, and passes the change on; listener 6 does the same
    with the disposer of [observe]. *)
Definition self_disposing : Externals :=
  mkExternals (λ _ h, h) (λ _ h, h) (λ h, h) (λ _ h, h)
    (λ _, false) (λ _, mret tt)
    (λ k c, if decide (k = 1)
            then λ h, (Ret (Truthy c), unregisterInterceptor (c_object c) 1 h)
            else mret (Truthy c))
    (λ k c, if decide (k = 6)
            then mlift (unregisterListener (c_object c) 6)
            else mret tt)
    (λ _ v _, mret v) (λ _, false) (λ _ h, h) (λ h, h).

(** ** Derived functions that run other code *)

(** The whole dependency graph is consistent (I1, I2, I4, I6 around every
    derivation), and the run identifiers in use come from the global
    counter. *)
Definition graph_ok (h : Heap) : Prop :=
  (∀ d, graph_consistent d h) ∧
  run_ids_bounded h ∧
  ∀ d, runId (derS h d) ≤ g_runId (glob h).

(** The fields of a derivation that belong to its run. *)
Definition same_run (x y : IDerivation) : Prop :=
  observing x = observing y ∧
  newObserving x = newObserving y ∧
  unboundDepsCount x = unboundDepsCount y ∧
  runId x = runId y.

(** From [h0] to [h] the runs of the derivations [ds] are left alone: their
    run fields are the same, the counter of run identifiers has not gone
    back, and every run identifier written since, on an observable or on a
    derivation, is above [n]. *)
Definition run_frame (ds : list derivId) (n : nat) (h0 h : Heap) : Prop :=
  (∀ d, d ∈ ds → same_run (derS h d) (derS h0 d)) ∧
  g_runId (glob h0) ≤ g_runId (glob h) ∧
  (∀ o, lastAccessedBy (obsS h o) = lastAccessedBy (obsS h0 o) ∨
        n < lastAccessedBy (obsS h o)) ∧
  (∀ d, runId (derS h d) = runId (derS h0 d) ∨ n < runId (derS h d)).

(** [globalState.trackingDerivation] is [null] or [cur]. *)
Definition tracking_within (cur : option derivId) (h : Heap) : Prop :=
  trackingDerivation (glob h) = None ∨ trackingDerivation (glob h) = cur.

(** Code that a derived function runs besides its reads, while [cur] is
    being tracked (or nothing is, inside an untracked block) and the runs
    of [ds] are in progress: on a consistent graph it leaves a consistent
    graph, whether it returns or throws; it leaves the runs of [ds] alone
    and takes its run identifiers from the global counter; and it makes no
    other derivation the tracking one.  It need not put the tracking
    derivation back. *)
Definition effect_safe (cur : option derivId) (ds : list derivId)
    (m : M unit) : Prop :=
  ∀ h, graph_ok h → tracking_within cur h →
    let h1 := (m h).2 in
    graph_ok h1 ∧ tracking_within cur h1 ∧
    run_frame ds (g_runId (glob h)) h h1.

Definition step_safe (cur : option derivId) (ds : list derivId) (s : step)
    : Prop :=
  match s with
  | Read _ => True
  | Effect m => effect_safe cur ds m
  end.

(** The observables that [body], started in [h], reports to [d]: those on
    which it calls [reportObserved] while [d] is the tracking derivation,
    in the order of the calls, up to the end of [body] or to the step that
    throws. *)
Fixpoint reads_tracked (d : derivId) (body : list step) (h : Heap)
    : list obsId :=
  match body with
  | [] => []
  | Read o :: rest =>
      (if decide (trackingDerivation (glob h) = Some d) then [o] else []) ++
      match reportObserved o h with
      | (Ret _, h1) => reads_tracked d rest h1
      | (Raise _, _) => []
      end
  | Effect m :: rest =>
      match m h with
      | (Ret _, h1) => reads_tracked d rest h1
      | (Raise _, _) => []
      end
  end.

(** The state of a run of [d] with run identifier [rid], started from
    [h0] when the counter of run identifiers was at [n], after the reads
    [reads] were reported to [d]: [kept] are the entries written to
    [newObserving]. *)
Definition run_state (ds : list derivId) (d : derivId) (rid n : nat)
    (h0 : Heap) (prevObserving : list obsId) (h : Heap)
    (reads : list obsId) : Prop :=
  graph_ok h ∧
  tracking_within (Some d) h ∧
  runId (derS h d) = rid ∧
  n < rid ∧
  observing (derS h d) = prevObserving ∧
  run_frame ds n h0 h ∧
  ∃ arr kept,
    newObserving (derS h d) = Some arr ∧
    unboundDepsCount (derS h d) = length kept ∧
    take (length kept) arr = Some <$> kept ∧
    first_occurrences kept = first_occurrences reads ∧
    ∀ o, lastAccessedBy (obsS h o) = rid → o ∈ kept.

(** [trackDerivedFunction(d, f)] called from inside another function, as a
    computed value does when it is read and has to recompute; the call of
    [f] it makes is not logged. *)
Definition tracked_run (d : derivId) (f : M JsValue) : M unit := λ h,
  match trackDerivedFunction d f (mkWorld h []) with
  | (Ret _, w) => (Ret tt, heap w)
  | (Raise e, w) => (Raise e, heap w)
  end.

(** [untrackedStart()] and [untrackedEnd(prev)] called by the function
    itself. *)
Definition untracked_start : M unit := mlift (λ h, (untrackedStart h).2).
Definition untracked_end (prev : option derivId) : M unit :=
  mlift (untrackedEnd prev).

(** [bindDependencies] and the functions it calls write no run identifier
    and leave the tracking derivation alone. *)
Definition same_stamps (h h' : Heap) : Prop :=
  (∀ o, lastAccessedBy (obsS h' o) = lastAccessedBy (obsS h o)) ∧
  g_runId (glob h') = g_runId (glob h) ∧
  trackingDerivation (glob h') = trackingDerivation (glob h) ∧
  ∀ d, runId (derS h' d) = runId (derS h d).

(** Derivation 5 reads observable 1, then observable 2 between
    [untrackedStart] and [untrackedEnd], which is what [untracked] does
    around a read. *)
Definition untracked_read_body : list step :=
  [Read 1; Effect untracked_start; Read 2; Effect (untracked_end (Some 5))].

(** Derivation 5 reads observables 1 and 0; a computed value (derivation
    6) recomputes, reading observables 0 and 2; derivation 5 reads
    observable 0 again, reads observable 4 inside [untracked], and then
    reads observables 1 and 2. *)
Definition nested_body : list step :=
  [Read 1; Read 0;
   Effect (tracked_run 6 (derived_function [Read 0; Read 2] (Val 0)));
   Read 0;
   Effect (untracked (run_steps [Read 4]));
   Read 1; Read 2].


(** The hook of observable 0 opens a batch and closes it again; the hooks
    called by that inner [endBatch] do nothing (the hook of observable 0 is
    taken to act once only). *)
Definition closes_a_batch (o : obsId) (h : Heap) : Heap :=
  if decide (o = 0)
  then heap (endBatch idle 5 (mkWorld (startBatch h) [])).1
  else h.

Definition closing_a_batch : Externals :=
  with_onBecomeUnobserved closes_a_batch idle.

(** * Properties *)

Lemma upd_eq {A} (f : nat → A) k v : upd f k v k = v.
Proof. unfold upd. by rewrite decide_True. Qed.

Lemma upd_ne {A} (f : nat → A) k v x : x ≠ k → upd f k v x = f x.
Proof. intros. unfold upd. by rewrite decide_False. Qed.

(** ** Reading a store after an update *)

Section StoreLemmas.
Context (h : Heap).

Lemma derS_on_der d f d' :
  derS (on_der d f h) d' = if decide (d' = d) then f (derS h d) else derS h d'.
Proof. reflexivity. Qed.

Lemma obsS_on_obs o f o' :
  obsS (on_obs o f h) o' = if decide (o' = o) then f (obsS h o) else obsS h o'.
Proof. reflexivity. Qed.

Lemma obsS_on_der d f : obsS (on_der d f h) = obsS h.
Proof. reflexivity. Qed.

End StoreLemmas.

(** ** [propagateChangeConfirmed] *)

Section Confirmed.
Context (o : obsId).

Lemma confirmed_loop_derS ds h d :
  derS (propagateChangeConfirmed_loop o ds h) d =
    if decide (d ∈ ds ∧ dependenciesState (derS h d) = POSSIBLY_STALE)
    then with_dependenciesState STALE (derS h d)
    else derS h d.
Proof.
  revert h. induction ds as [|x ds IH]; intros h; cbn [propagateChangeConfirmed_loop].
  - rewrite decide_False; [done|]. intros [Hin _]. by apply elem_of_nil in Hin.
  - rewrite IH. clear IH.
    destruct (decide (dependenciesState (derS h x) = POSSIBLY_STALE)) as [Hx|Hx].
    + rewrite derS_on_der. destruct (decide (d = x)) as [->|Hne].
      * simpl. rewrite decide_False by (intros [_ ?]; congruence).
        rewrite decide_True; [done|]. split; [left|done].
      * destruct (decide (d ∈ ds ∧ _)) as [[? ?]|Hn].
        -- rewrite decide_True; [done|]. split; [by right|done].
        -- rewrite decide_False; [done|]. intros [Hin ?]. apply Hn.
           apply elem_of_cons in Hin as [?|?]; [congruence|done].
    + assert (Hd : ∀ h1, derS h1 = derS h →
        (if decide (d ∈ ds ∧ dependenciesState (derS h1 d) = POSSIBLY_STALE)
         then with_dependenciesState STALE (derS h1 d) else derS h1 d) =
        (if decide (d ∈ x :: ds ∧ dependenciesState (derS h d) = POSSIBLY_STALE)
         then with_dependenciesState STALE (derS h d) else derS h d)).
      { intros h1 ->.
        destruct (decide (d ∈ ds ∧ _)) as [[? ?]|Hn].
        - rewrite decide_True; [done|]. split; [by right|done].
        - rewrite decide_False; [done|]. intros [Hin ?]. apply Hn.
          apply elem_of_cons in Hin as [->|?]; [congruence|done]. }
      destruct (decide (dependenciesState (derS h x) = UP_TO_DATE));
        by apply Hd.
Qed.

Lemma confirmed_loop_los ds h :
  lowestObserverState (obsS (propagateChangeConfirmed_loop o ds h) o) =
    if decide (Exists (λ d, dependenciesState (derS h d) = UP_TO_DATE) ds)
    then UP_TO_DATE
    else lowestObserverState (obsS h o).
Proof.
  revert h. induction ds as [|x ds IH]; intros h;
    cbn [propagateChangeConfirmed_loop].
  - rewrite decide_False; [done|]. by intros ?%Exists_nil.
  - rewrite IH. clear IH.
    destruct (decide (dependenciesState (derS h x) = POSSIBLY_STALE)) as [Hx|Hx].
    + rewrite obsS_on_der.
      destruct (decide (Exists _ ds)) as [He|Hn].
      * rewrite decide_True; [done|]. apply Exists_cons_tl.
        apply Exists_exists in He as (d & Hin & Hd). apply Exists_exists.
        exists d. split; [done|]. rewrite derS_on_der in Hd.
        destruct (decide (d = x)) as [->|?]; [simpl in Hd; congruence|done].
      * rewrite decide_False; [done|]. intros He. apply Hn.
        apply Exists_cons in He as [?|He]; [congruence|].
        apply Exists_exists in He as (d & Hin & Hd). apply Exists_exists.
        exists d. split; [done|]. rewrite derS_on_der.
        destruct (decide (d = x)) as [->|?]; [congruence|done].
    + destruct (decide (dependenciesState (derS h x) = UP_TO_DATE)) as [Hu|Hu].
      * rewrite (decide_True (P := Exists _ (x :: ds)));
          [|by apply Exists_cons_hd].
        destruct (decide (Exists _ ds)); [done|].
        by rewrite obsS_on_obs, decide_True.
      * destruct (decide (Exists _ ds)) as [He|Hn].
        -- rewrite decide_True; [done|]. by apply Exists_cons_tl.
        -- rewrite decide_False; [done|]. intros He. apply Hn.
           apply Exists_cons in He as [?|He]; [congruence|done].
Qed.
End Confirmed.

(** C4.  [propagateChangeConfirmed(obs)] does nothing when
    [obs.lowestObserverState] is already [STALE].  Otherwise every observer
    that is [POSSIBLY_STALE] becomes [STALE], every other derivation is left
    as it is, and [obs.lowestObserverState] ends [UP_TO_DATE] when some
    observer is [UP_TO_DATE] (so it does not stay locked at [STALE]) and
    [STALE] when none is. *)
Theorem propagateChangeConfirmed_spec (o : obsId) (h : Heap) :
  let h' := propagateChangeConfirmed o h in
  let ds := observers (obsS h o) in
  (lowestObserverState (obsS h o) = STALE → h' = h) ∧
  (lowestObserverState (obsS h o) ≠ STALE →
     (∀ d, d ∈ ds → dependenciesState (derS h d) = POSSIBLY_STALE →
           dependenciesState (derS h' d) = STALE) ∧
     (∀ d, d ∈ ds → dependenciesState (derS h d) ≠ POSSIBLY_STALE →
           derS h' d = derS h d) ∧
     (∀ d, d ∉ ds → derS h' d = derS h d) ∧
     ((∃ d, d ∈ ds ∧ dependenciesState (derS h d) = UP_TO_DATE) →
        lowestObserverState (obsS h' o) = UP_TO_DATE) ∧
     ((∀ d, d ∈ ds → dependenciesState (derS h d) ≠ UP_TO_DATE) →
        lowestObserverState (obsS h' o) = STALE)).
Proof.
  intros h' ds. subst h'. unfold propagateChangeConfirmed.
  split; intros Hlos.
  - by rewrite decide_True.
  - rewrite decide_False by done.
    set (h1 := on_obs o (with_lowestObserverState STALE) h).
    assert (Hobs : observers (obsS h1 o) = ds).
    { subst h1. rewrite obsS_on_obs, decide_True by done. done. }
    rewrite Hobs.
    assert (Hder : derS h1 = derS h) by done.
    repeat split.
    + intros d Hin Hd. rewrite confirmed_loop_derS, Hder.
      rewrite decide_True; [done|]. split; [|done]. by apply elem_of_reverse.
    + intros d Hin Hd. rewrite confirmed_loop_derS, Hder.
      rewrite decide_False; [done|]. intros [_ ?]. done.
    + intros d Hin. rewrite confirmed_loop_derS, Hder.
      rewrite decide_False; [done|]. intros [Hr _]. apply Hin. by apply elem_of_reverse.
    + intros (d & Hin & Hd). rewrite confirmed_loop_los, Hder.
      rewrite decide_True; [done|]. apply Exists_exists. exists d.
      split; [|done]. by apply elem_of_reverse.
    + intros Hall. rewrite confirmed_loop_los, Hder.
      rewrite decide_False.
      * subst h1. rewrite obsS_on_obs, decide_True by done. done.
      * intros (d & Hin & Hd)%Exists_exists. rewrite elem_of_reverse in Hin.
        by apply (Hall d).
Qed.

(** Derivation 1 becomes stale, derivation 2 stays up to date and
    [lowestObserverState] is not left at [STALE]. *)
Lemma propagateChangeConfirmed_spec_witness :
  dependenciesState (derS (propagateChangeConfirmed 0 confirming) 1) = STALE ∧
  dependenciesState (derS (propagateChangeConfirmed 0 confirming) 2)
    = UP_TO_DATE ∧
  lowestObserverState (obsS (propagateChangeConfirmed 0 confirming) 0)
    = UP_TO_DATE.
Proof.
  destruct (propagateChangeConfirmed_spec 0 confirming) as [_ Hspec].
  destruct Hspec as (Hstale & Hkeep & _ & Hlow & _); [discriminate|].
  split; [|split].
  - apply Hstale; [|reflexivity]. vm_compute. right. left.
  - rewrite Hkeep; [reflexivity| |discriminate]. vm_compute. left.
  - apply Hlow. exists 2. split; [|reflexivity]. vm_compute. left.
Defined.

(** ** [propagateChanged] *)

Section Changed.
Context (E : Externals).

Lemma visit_observers_app l1 l2 w :
  visit_observers E (l1 ++ l2) w =
    visit_observers E l2 (visit_observers E l1 w).
Proof. revert w. induction l1 as [|d l1 IH]; intros w; [done|]. cbn. apply IH. Qed.

Lemma propagateChanged_visit_observers o d w :
  hooks_keep_observers E o →
  observers (obsS (heap (propagateChanged_visit E d w)) o) =
    observers (obsS (heap w) o).
Proof.
  intros Hk. unfold propagateChanged_visit. cbn.
  destruct (decide (_ = UP_TO_DATE)); [|done]. cbn. apply Hk.
Qed.

(** With hooks that leave the array alone, the loop visits the entries
    below [i] from the last to the first and returns normally. *)
Lemma propagateChanged_loop_visit o i w :
  hooks_keep_observers E o →
  i ≤ length (observers (obsS (heap w) o)) →
  propagateChanged_loop E o i w =
    (Ret tt,
     visit_observers E (reverse (take i (observers (obsS (heap w) o)))) w).
Proof.
  intros Hk. revert w. induction i as [|i IH]; intros w Hi.
  - by rewrite take_0.
  - cbn [propagateChanged_loop].
    destruct (observers (obsS (heap w) o) !! i) as [d|] eqn:Hd.
    2:{ apply lookup_ge_None in Hd. lia. }
    rewrite (take_S_r _ _ _ Hd), reverse_snoc. cbn [visit_observers].
    rewrite IH by (rewrite propagateChanged_visit_observers by done; lia).
    by rewrite propagateChanged_visit_observers.
Qed.

Lemma visit_observers_stale ds w d :
  hooks_keep_stale E →
  d ∈ ds ∨ dependenciesState (derS (heap w) d) = STALE →
  dependenciesState (derS (heap (visit_observers E ds w)) d) = STALE.
Proof.
  intros Hk. revert w. induction ds as [|x ds IH]; intros w Hd.
  - destruct Hd as [Hd|Hd]; [by apply elem_of_nil in Hd|done].
  - cbn [visit_observers]. apply IH.
    destruct (decide (d = x)) as [->|Hne].
    + right. cbn. by rewrite upd_eq.
    + destruct Hd as [Hd|Hd].
      * apply elem_of_cons in Hd as [?|?]; [done|by left].
      * right. cbn. rewrite upd_ne by done.
        destruct (decide (_ = UP_TO_DATE)); [|done]. cbn. by apply Hk.
Qed.

Lemma visit_observers_lowest o ds w :
  hooks_keep_lowest E o →
  lowestObserverState (obsS (heap (visit_observers E ds w)) o) =
    lowestObserverState (obsS (heap w) o).
Proof.
  intros Hk. revert w. induction ds as [|x ds IH]; intros w; [done|].
  cbn [visit_observers]. rewrite IH. cbn.
  destruct (decide (_ = UP_TO_DATE)); [|done]. cbn. apply Hk.
Qed.
End Changed.

(** C3.  [propagateChanged(obs)] returns at once, with nothing changed and
    no hook called, when [obs.lowestObserverState] is [STALE].  Otherwise it
    sets that field to [STALE] and visits the observers from the last to the
    first: when an observer's turn comes, [onBecomeStale] is called on it
    exactly if its [dependenciesState] is [UP_TO_DATE] at that moment, and no
    other call is made; at the end every observer is [STALE].  The hooks are
    assumed to leave [obs.observers] and [obs.lowestObserverState] alone and
    not to take a derivation out of [STALE]. *)
Theorem propagateChanged_spec (E : Externals) (o : obsId) (w : World) :
  hooks_keep_observers E o →
  hooks_keep_stale E →
  hooks_keep_lowest E o →
  let w' := (propagateChanged E o w).2 in
  let ds := reverse (observers (obsS (heap w) o)) in
  let w1 := on_heap (on_obs o (with_lowestObserverState STALE)) w in
  (lowestObserverState (obsS (heap w) o) = STALE →
     propagateChanged E o w = (Ret tt, w)) ∧
  (lowestObserverState (obsS (heap w) o) ≠ STALE →
     propagateChanged E o w = (Ret tt, visit_observers E ds w1) ∧
     lowestObserverState (obsS (heap w') o) = STALE ∧
     (∀ d, d ∈ observers (obsS (heap w) o) →
           dependenciesState (derS (heap w') d) = STALE) ∧
     (∀ pre d post, ds = pre ++ d :: post →
        let visited := visit_observers E pre w1 in
        trace (visit_observers E (pre ++ [d]) w1) =
          trace visited ++
          (if decide (dependenciesState (derS (heap visited) d) = UP_TO_DATE)
           then [EOnBecomeStale d] else []))).
Proof.
  intros Hobs Hstale Hlow w' ds w1. subst w'. unfold propagateChanged.
  split; intros Hlos.
  - by rewrite decide_True.
  - rewrite decide_False by done. fold w1.
    assert (Hsame : observers (obsS (heap w1) o) =
                      observers (obsS (heap w) o)).
    { subst w1. cbn. by rewrite upd_eq. }
    rewrite (propagateChanged_loop_visit E o _ w1 Hobs) by done.
    rewrite firstn_all, Hsame. fold ds. cbn [snd].
    split; [done|]. split; [|split].
    + rewrite visit_observers_lowest by done. subst w1. cbn.
      by rewrite upd_eq.
    + intros d Hin. apply visit_observers_stale; [done|].
      left. subst ds. by apply elem_of_reverse.
    + intros pre d post _.
      rewrite visit_observers_app. cbn. unfold propagateChanged_visit.
      destruct (decide (_ = UP_TO_DATE)); cbn; [done|by rewrite app_nil_r].
Qed.

Lemma pass_on_stale_keeps_observers o : hooks_keep_observers passing_on o.
Proof.
  intros d h. cbn. unfold pass_on_stale.
  by destruct (decide (_ = UP_TO_DATE)).
Qed.

Lemma pass_on_stale_keeps_stale : hooks_keep_stale passing_on.
Proof.
  intros d' d h Hd. cbn. unfold pass_on_stale.
  destruct (decide (_ = UP_TO_DATE)) as [Hu|Hu]; [|done].
  cbn. unfold upd. case_decide; [subst; cbn; congruence|done].
Qed.

Lemma pass_on_stale_keeps_lowest o : hooks_keep_lowest passing_on o.
Proof.
  intros d h. cbn. unfold pass_on_stale.
  by destruct (decide (_ = UP_TO_DATE)).
Qed.

(** Derivation 1 is visited first and its hook makes derivation 2 possibly
    stale, so only one hook is called; both end [STALE]. *)
Lemma propagateChanged_spec_witness :
  trace (propagateChanged passing_on 0 two_observers).2
    = [EOnBecomeStale 1] ∧
  dependenciesState
    (derS (heap (propagateChanged passing_on 0 two_observers).2) 1) = STALE ∧
  dependenciesState
    (derS (heap (propagateChanged passing_on 0 two_observers).2) 2) = STALE.
Proof.
  destruct (propagateChanged_spec passing_on 0 two_observers
              (pass_on_stale_keeps_observers 0) pass_on_stale_keeps_stale
              (pass_on_stale_keeps_lowest 0))
    as [_ Hspec].
  destruct Hspec as (_ & _ & Hall & _); [discriminate|].
  split; [reflexivity|].
  split; apply Hall; vm_compute; [right; left|left].
Defined.

(** ** Batches *)

Section Batches.
Context (E : Externals) (k : nat).

(** One round of the loop, by whether the entry has an observer. *)
Lemma drain_visit_cases o w :
  drain_visit E o w =
    if decide (observers (obsS (heap w) o) = [])
    then call_hook (EOnBecomeUnobserved o) (onBecomeUnobserved E o)
           (on_heap (on_obs o (with_isPendingUnobservation false)) w)
    else on_heap (on_obs o (with_isPendingUnobservation false)) w.
Proof.
  unfold drain_visit. cbn [on_heap heap on_obs set_obs obsS].
  rewrite upd_eq. cbn [with_isPendingUnobservation observers].
  destruct (observers (obsS (heap w) o)) as [|d ds]; cbn [length].
  - by rewrite !decide_True.
  - by rewrite !decide_False.
Qed.

Lemma drain_walk_sound fuel :
  ∀ i w w', drainUnobservations E k fuel i w = (w', true) →
            ∃ calls, drain_walk E k i w calls w'.
Proof.
  induction fuel as [|fuel IH]; intros i w w' Hrun;
    cbn [drainUnobservations] in Hrun;
    destruct (captured_queue k (heap w) !! i) as [o|] eqn:Hi;
    try discriminate.
  - exists []. assert (w' = w) as -> by congruence. by constructor.
  - rewrite drain_visit_cases in Hrun.
    destruct (decide (observers (obsS (heap w) o) = [])) as [Ho|Ho].
    + destruct (IH _ _ _ Hrun) as [calls Hwalk]. exists (o :: calls).
      by eapply drain_unobserved.
    + destruct (IH _ _ _ Hrun) as [calls Hwalk]. exists calls.
      by eapply drain_observed.
  - exists []. assert (w' = w) as -> by congruence. by constructor.
Qed.

Lemma drain_walk_complete i w calls w' :
  drain_walk E k i w calls w' →
  ∃ n, ∀ fuel, n ≤ fuel → drainUnobservations E k fuel i w = (w', true).
Proof.
  induction 1 as [i w Hi|i o w calls w' Hi Ho _ [n IH]
                 |i o w calls w' Hi Ho _ [n IH]].
  - exists 0. intros [|fuel] _; cbn [drainUnobservations]; by rewrite Hi.
  - exists (S n). intros [|fuel] Hle; [lia|]. cbn [drainUnobservations].
    rewrite Hi, drain_visit_cases, decide_True by done. apply IH. lia.
  - exists (S n). intros [|fuel] Hle; [lia|]. cbn [drainUnobservations].
    rewrite Hi, drain_visit_cases, decide_False by done. apply IH. lia.
Qed.

Lemma drain_walk_trace i w calls w' :
  drain_walk E k i w calls w' →
  trace w' = trace w ++ map EOnBecomeUnobserved calls.
Proof.
  induction 1 as [i w Hi|i o w calls w' Hi Ho _ IH|i o w calls w' Hi Ho _ IH].
  - cbn. by rewrite app_nil_r.
  - rewrite IH. cbn. by rewrite <- app_assoc.
  - by rewrite IH.
Qed.

Lemma drain_trace_prefix fuel :
  ∀ i w, trace w `prefix_of` trace (drainUnobservations E k fuel i w).1.
Proof.
  induction fuel as [|fuel IH]; intros i w; cbn [drainUnobservations];
    destruct (captured_queue k (heap w) !! i) as [o|]; try done.
  etrans; [|apply IH]. rewrite drain_visit_cases.
  case_decide; [|done]. by apply prefix_app_r.
Qed.
End Batches.

Lemma endBatch_outermost (E : Externals) (fuel : nat) (w : World) :
  inBatch (glob (heap w)) = 1%Z →
  let closed := on_heap (on_glob (λ g, with_inBatch (inBatch g - 1)%Z g)) w in
  let reacted := call_hook ERunReactions (runReactions E) closed in
  let drained :=
    drainUnobservations E (queueEpoch (heap reacted)) fuel 0 reacted in
  endBatch E fuel w =
    (if drained.2 then on_heap replace_queue drained.1 else drained.1,
     drained.2).
Proof.
  intros Hb closed reacted drained. unfold endBatch. fold closed.
  assert (Hc : inBatch (glob (heap closed)) = (inBatch (glob (heap w)) - 1)%Z)
    by done.
  rewrite decide_True by lia. cbn zeta. fold reacted. fold drained.
  by destruct drained as [w3 []].
Qed.

(** C7.  [startBatch] adds one to [inBatch] and changes nothing else.
    [endBatch] takes one off.  Unless that brings [inBatch] to 0 it does
    nothing else, whatever the externals are: no call is logged, so no
    reaction runs and no [onBecomeUnobserved] hook fires, and the queue of
    unobservations, the observables and the derivations are left as they
    are.  When it brings [inBatch] to 0, [runReactions] is called first, in
    the state with [inBatch] at 0, and the queue is drained after it: when
    the call ends, the queue has been walked entry by entry from its first,
    each entry has had its pending flag cleared and those without an
    observer their [onBecomeUnobserved] called, nothing else has been
    called, and the queue has been replaced by an empty one; and whenever
    such a walk of the queue comes to an end, [endBatch] ends in that very
    state. *)
Theorem batch_spec (E : Externals) (fuel : nat) (w : World) :
  let closed := on_heap (on_glob (λ g, with_inBatch (inBatch g - 1)%Z g)) w in
  let reacted := call_hook ERunReactions (runReactions E) closed in
  let k := queueEpoch (heap reacted) in
  (inBatch (glob (startBatch (heap w))) = (inBatch (glob (heap w)) + 1)%Z ∧
   pendingUnobservations (glob (startBatch (heap w))) =
     pendingUnobservations (glob (heap w)) ∧
   trackingDerivation (glob (startBatch (heap w))) =
     trackingDerivation (glob (heap w)) ∧
   obsS (startBatch (heap w)) = obsS (heap w) ∧
   derS (startBatch (heap w)) = derS (heap w) ∧
   ovS (startBatch (heap w)) = ovS (heap w)) ∧
  (inBatch (glob (heap w)) ≠ 1%Z →
     endBatch E fuel w = (closed, true) ∧
     trace closed = trace w ∧
     inBatch (glob (heap closed)) = (inBatch (glob (heap w)) - 1)%Z ∧
     inBatch (glob (heap closed)) ≠ 0%Z ∧
     pendingUnobservations (glob (heap closed)) =
       pendingUnobservations (glob (heap w)) ∧
     obsS (heap closed) = obsS (heap w) ∧
     derS (heap closed) = derS (heap w) ∧
     ovS (heap closed) = ovS (heap w)) ∧
  (inBatch (glob (heap w)) = 1%Z →
     inBatch (glob (heap closed)) = 0%Z ∧
     (trace w ++ [ERunReactions]) `prefix_of` trace (endBatch E fuel w).1 ∧
     (∀ w', endBatch E fuel w = (w', true) →
        ∃ calls w3,
          drain_walk E k 0 reacted calls w3 ∧
          w' = on_heap replace_queue w3 ∧
          trace w' =
            trace w ++ ERunReactions :: map EOnBecomeUnobserved calls ∧
          pendingUnobservations (glob (heap w')) = []) ∧
     (∀ calls w3,
        drain_walk E k 0 reacted calls w3 →
        ∃ n, ∀ fuel', n ≤ fuel' →
               endBatch E fuel' w = (on_heap replace_queue w3, true))).
Proof.
  intros closed reacted k. split; [done|].
  assert (Hc : inBatch (glob (heap closed)) = (inBatch (glob (heap w)) - 1)%Z)
    by done.
  split; intros Hb.
  - unfold endBatch. fold closed. rewrite decide_False by lia.
    do 3 (split; [done|]). split; [lia|done].
  - split; [lia|]. split; [|split].
    + rewrite (endBatch_outermost E fuel w Hb). fold closed reacted k.
      pose proof (drain_trace_prefix E k fuel 0 reacted) as Hpre.
      destruct (drainUnobservations E k fuel 0 reacted) as [w3 []];
        cbn [fst snd on_heap trace] in *; exact Hpre.
    + intros w' Hrun. rewrite (endBatch_outermost E fuel w Hb) in Hrun.
      fold closed reacted k in Hrun.
      destruct (drainUnobservations E k fuel 0 reacted) as [w3 fin] eqn:Hdrain.
      cbn [fst snd] in Hrun. destruct fin; [|congruence].
      destruct (drain_walk_sound E k fuel 0 reacted w3 Hdrain)
        as [calls Hwalk].
      exists calls, w3. split; [exact Hwalk|]. split; [congruence|].
      split; [|by assert (w' = on_heap replace_queue w3) as -> by congruence].
      assert (w' = on_heap replace_queue w3) as -> by congruence.
      cbn [on_heap trace]. rewrite (drain_walk_trace E k _ _ _ _ Hwalk).
      subst reacted. cbn [call_hook trace]. by rewrite <- app_assoc.
    + intros calls w3 Hwalk.
      destruct (drain_walk_complete E k 0 reacted calls w3 Hwalk) as [n Hn].
      exists n. intros fuel' Hle.
      rewrite (endBatch_outermost E fuel' w Hb). fold closed reacted k.
      by rewrite (Hn fuel' Hle).
Qed.

(** The scenario of nested batches: observables 0 and 1 are queued in the
    outer and in the inner batch; the inner [endBatch] logs no call and
    leaves the queue, the outer one calls [runReactions] and then the hooks
    of the two observables. *)
Lemma batch_spec_witness :
  (endBatch idle 0 batched_reads).2 = true ∧
  trace (endBatch idle 0 batched_reads).1 = [] ∧
  pendingUnobservations (glob (heap (endBatch idle 0 batched_reads).1)) =
    [0; 1] ∧
  ∃ calls w3,
    drain_walk idle 0 0
      (call_hook ERunReactions (runReactions idle)
         (on_heap (on_glob (λ g, with_inBatch (inBatch g - 1)%Z g))
            (endBatch idle 0 batched_reads).1)) calls w3 ∧
    trace (endBatch idle 2 (endBatch idle 0 batched_reads).1).1 =
      [] ++ ERunReactions :: map EOnBecomeUnobserved calls ∧
    trace (endBatch idle 2 (endBatch idle 0 batched_reads).1).1 =
      [ERunReactions; EOnBecomeUnobserved 0; EOnBecomeUnobserved 1] ∧
    pendingUnobservations
      (glob (heap (endBatch idle 2 (endBatch idle 0 batched_reads).1).1)) = [].
Proof.
  destruct (batch_spec idle 0 batched_reads) as (_ & Hnested & _).
  destruct Hnested as (Heq & Htr & _ & _ & Hq & _); [vm_compute; discriminate|].
  rewrite Heq. cbn [fst snd]. split; [reflexivity|]. split; [exact Htr|].
  split; [exact Hq|].
  destruct (batch_spec idle 2
              (on_heap (on_glob (λ g, with_inBatch (inBatch g - 1)%Z g))
                 batched_reads)) as (_ & _ & Houter).
  destruct Houter as (_ & _ & Hsound & _); [reflexivity|].
  destruct (Hsound _ (surjective_pairing _))
    as (calls & w3 & Hwalk & _ & Htrace & Hempty).
  exists calls, w3. split; [exact Hwalk|]. split; [exact Htrace|].
  split; [reflexivity|exact Hempty].
Defined.

(** C8.  The [isPendingUnobservation] flag does not keep an observable from
    being pushed twice, nor its hook from firing twice, within one batch:
    the drain clears the flag of an entry when it visits it, while the
    batch and the drain are still going on.  In the first scenario
    observable 2 is pushed twice in one batch: the drain visits it while
    the computed value still observes it and clears its flag, and the hook
    of the computed value then unobserves it ([clearObserving]), which
    pushes it again.  In the second the hook of observable 0 fires twice in
    one drain, because the hook of observable 1 reads observable 0 after
    the drain has visited it. *)
Theorem unobserved_twice :
  (inBatch (glob (heap requeued_dependency)) = 1%Z ∧
   pendingUnobservations (glob (heap requeued_dependency)) = [2; 1] ∧
   (endBatch clearing 10 requeued_dependency).2 = true ∧
   queue_after_drain clearing 10 requeued_dependency = [2; 1; 2] ∧
   trace (endBatch clearing 10 requeued_dependency).1 =
     [ERunReactions; EOnBecomeUnobserved 1; EOnBecomeUnobserved 2] ∧
   ¬ NoDup (queue_after_drain clearing 10 requeued_dependency)) ∧
  (inBatch (glob (heap two_pending)) = 1%Z ∧
   pendingUnobservations (glob (heap two_pending)) = [0; 1] ∧
   (endBatch requeueing 10 two_pending).2 = true ∧
   queue_after_drain requeueing 10 two_pending = [0; 1; 0] ∧
   trace (endBatch requeueing 10 two_pending).1 =
     [ERunReactions; EOnBecomeUnobserved 0; EOnBecomeUnobserved 1;
      EOnBecomeUnobserved 0] ∧
   ¬ unobserved_calls 0 (trace (endBatch requeueing 10 two_pending).1) ≤ 1).
Proof.
  split.
  - do 5 (split; [reflexivity|]).
    change (queue_after_drain clearing 10 requeued_dependency)
      with [2; 1; 2].
    intros Hnd. apply NoDup_cons in Hnd as [Hin _]. apply Hin.
    right. left.
  - do 5 (split; [reflexivity|]). vm_compute. lia.
Qed.

(** ** [shouldCompute] *)

Lemma changeDependenciesStateTo0_fold_derS (os : list obsId) (h : Heap) :
  derS (foldl (λ h' o, on_obs o (with_lowestObserverState UP_TO_DATE) h')
          h os) = derS h.
Proof. revert h. induction os as [|o os IH]; intros h; [done|]. cbn. by rewrite IH. Qed.

Lemma changeDependenciesStateTo0_fold_glob (os : list obsId) (h : Heap) :
  glob (foldl (λ h' o, on_obs o (with_lowestObserverState UP_TO_DATE) h')
          h os) = glob h.
Proof. revert h. induction os as [|o os IH]; intros h; [done|]. cbn. by rewrite IH. Qed.

Lemma changeDependenciesStateTo0_state (d : derivId) (h : Heap) :
  dependenciesState (derS (changeDependenciesStateTo0 d h) d) = UP_TO_DATE.
Proof.
  unfold changeDependenciesStateTo0. case_decide; [done|].
  rewrite changeDependenciesStateTo0_fold_derS. cbn. by rewrite upd_eq.
Qed.

Lemma changeDependenciesStateTo0_glob (d : derivId) (h : Heap) :
  glob (changeDependenciesStateTo0 d h) = glob h.
Proof.
  unfold changeDependenciesStateTo0. case_decide; [done|].
  by rewrite changeDependenciesStateTo0_fold_glob.
Qed.

Section ShouldCompute.
Context (E : Externals) (d : derivId) (prev : option derivId).





End ShouldCompute.



(** ** Listeners *)

Lemma call_ext_trace {A} (e : Event) (m : M A) (w : World) r w1 :
  call_ext e m w = (r, w1) → trace w1 = trace w ++ [e].
Proof. unfold call_ext. destruct (m (heap w)). by intros [= _ <-]. Qed.

Lemma call_ext_heap {A} (e : Event) (m : M A) (w : World) r w1 :
  call_ext e m w = (r, w1) → heap w1 = (m (heap w)).2.
Proof. unfold call_ext. destruct (m (heap w)). by intros [= _ <-]. Qed.

(** When the list of listeners is there and no listener throws,
    [notifyListeners] calls them in the order of the list and puts the
    tracking derivation back. *)
Lemma notifyListeners_loop_returns (E : Externals) ks c w :
  (∀ k h, ∃ h', listenerFn E k c h = (Ret tt, h')) →
  ∃ w', notifyListeners_loop E ks c w = (Ret tt, w') ∧
        trace w' = trace w ++ map (λ k, EListener k c) ks.
Proof.
  intros Hret. revert w. induction ks as [|k ks IH]; intros w.
  - exists w. by rewrite app_nil_r.
  - cbn [notifyListeners_loop]. unfold call_ext.
    destruct (Hret k (heap w)) as [h' ->].
    destruct (IH (mkWorld h' (trace w ++ [EListener k c]))) as (w' & -> & Htr).
    exists w'. split; [done|]. rewrite Htr. cbn. by rewrite <- app_assoc.
Qed.

Lemma notifyListeners_returns (E : Externals) o c w ks :
  changeListeners (ovS (heap w) o) = Some ks →
  (∀ k h, ∃ h', listenerFn E k c h = (Ret tt, h')) →
  ∃ w', notifyListeners E o c w = (Ret tt, w') ∧
        trace w' = trace w ++ map (λ k, EListener k c) ks ∧
        trackingDerivation (glob (heap w')) =
          trackingDerivation (glob (heap w)).
Proof.
  intros Hks Hret. unfold notifyListeners. cbn [untrackedStart].
  change (ovS (on_glob (with_trackingDerivation None) (heap w)) o)
    with (ovS (heap w) o). rewrite Hks.
  destruct (notifyListeners_loop_returns E ks c
              (mkWorld (on_glob (with_trackingDerivation None) (heap w))
                 (trace w)) Hret) as (w' & -> & Htr).
  eexists. split; [done|]. split; [exact Htr|done].
Qed.

(** C10.  [notifyListeners] does not put [globalState.trackingDerivation]
    back on every way out.  With derivation 9 tracking, a call on an object
    whose [changeListeners] is [null] returns with no derivation tracking;
    the same holds when listener 7 throws, also through [setNewValue]. *)
Theorem notifyListeners_leaves_untracked :
  trackingDerivation (glob (heap no_listeners)) = Some 9 ∧
  changeListeners (ovS (heap no_listeners) 0) = None ∧
  (notifyListeners idle 0 (update_change 0 (Val 1) (Val 0)) no_listeners).1
    = Ret tt ∧
  trackingDerivation
    (glob (heap (notifyListeners idle 0 (update_change 0 (Val 1) (Val 0))
                   no_listeners).2)) = None ∧
  trackingDerivation (glob (heap throwing_listener)) = Some 9 ∧
  (setNewValue intercepting 0 (Val 1) throwing_listener).1
    = Raise (UserExn 7) ∧
  trackingDerivation
    (glob (heap (setNewValue intercepting 0 (Val 1) throwing_listener).2))
    = None.
Proof. repeat split; reflexivity. Qed.

(** ** Interceptors *)

Section Intercept.
Context (E : Externals) (o : obsId).

Lemma intercept_chain_total ks c w :
  ∃ r calls w', intercept_chain E ks c w r calls w'.
Proof.
  revert c w. induction ks as [|k ks IH]; intros c w.
  - exists (Ret (Truthy c)), [], w. constructor.
  - destruct (call_ext (EInterceptor k c) (interceptorFn E k c) w)
      as [[[|c1]|e] w1] eqn:Hcall.
    + exists (Ret Falsy), [(k, c)], w1. by constructor.
    + destruct (type_truthy c1) eqn:Hty.
      * destruct (IH c1 w1) as (r & calls & w' & Hch).
        exists r, ((k, c) :: calls), w'. by eapply chain_next.
      * exists (Raise (InvariantFailed intercept_message)), [(k, c)], w1.
        by eapply chain_invalid.
    + exists (Raise e), [(k, c)], w1. by constructor.
Qed.

Lemma intercept_chain_trace ks c w r calls w' :
  intercept_chain E ks c w r calls w' →
  trace w' = trace w ++ map (λ kc, EInterceptor kc.1 kc.2) calls ∧
  map fst calls `prefix_of` ks.
Proof.
  induction 1 as [c w|k rest c w w1 Hcall|k rest c w c1 w1 Hcall Hty
                 |k rest c w e w1 Hcall
                 |k rest c w c1 w1 r calls w' Hcall Hty _ [IH1 IH2]]; cbn.
  - rewrite app_nil_r. split; [done|]. apply prefix_nil.
  - split; [by eapply call_ext_trace|]. apply (prefix_app [k] [] rest), prefix_nil.
  - split; [by eapply call_ext_trace|]. apply (prefix_app [k] [] rest), prefix_nil.
  - split; [by eapply call_ext_trace|]. apply (prefix_app [k] [] rest), prefix_nil.
  - split.
    + rewrite IH1, (call_ext_trace _ _ _ _ _ Hcall). by rewrite <- app_assoc.
    + by apply (prefix_app [k]).
Qed.

Lemma call_interceptor_stable k c w r w1 :
  interceptors_stable E o →
  call_ext (EInterceptor k c) (interceptorFn E k c) w = (r, w1) →
  interceptors (ovS (heap w1) o) = interceptors (ovS (heap w) o).
Proof.
  intros Hst Hcall. rewrite (call_ext_heap _ _ _ _ _ Hcall). apply Hst.
Qed.

Lemma intercept_chain_loop ks c w r calls w' pre :
  interceptors_stable E o →
  intercept_chain E ks c w r calls w' →
  interceptors (ovS (heap w) o) = Some (pre ++ ks) →
  interceptChange_loop E o (length ks) (length pre) c w = (r, w').
Proof.
  intros Hst Hch. revert pre.
  induction Hch as [c w|k rest c w w1 Hcall|k rest c w c1 w1 Hcall Hty
                   |k rest c w e w1 Hcall
                   |k rest c w c1 w1 r calls w' Hcall Hty _ IH];
    intros pre Hks; [done|..]; cbn [interceptChange_loop length];
    rewrite Hks; simpl (_ ≫= _);
    rewrite (list_lookup_middle pre rest k (length pre) eq_refl);
    rewrite Hcall; [done| |done|].
  - by rewrite Hty.
  - rewrite Hty.
    specialize (IH (pre ++ [k])). rewrite length_app in IH. cbn in IH.
    rewrite Nat.add_1_r in IH. apply IH.
    rewrite (call_interceptor_stable _ _ _ _ _ Hst Hcall), Hks.
    by rewrite <- app_assoc.
Qed.

Lemma interceptChange_loop_trace n i c w :
  ∃ evs, trace (interceptChange_loop E o n i c w).2 = trace w ++ evs ∧
         Forall preparing_event evs.
Proof.
  revert i c w. induction n as [|n IH]; intros i c w.
  - exists []. by rewrite app_nil_r.
  - cbn [interceptChange_loop].
    destruct (interceptors (ovS (heap w) o) ≫= _) as [k|];
      [|exists []; by rewrite app_nil_r].
    destruct (call_ext (EInterceptor k c) (interceptorFn E k c) w)
      as [[[|c1]|e] w1] eqn:Hcall;
      pose proof (call_ext_trace _ _ _ _ _ Hcall) as Htr.
    + exists [EInterceptor k c]. split; [done|]. by repeat constructor.
    + destruct (type_truthy c1).
      * destruct (IH (S i) c1 w1) as (evs & -> & Hevs).
        exists (EInterceptor k c :: evs). rewrite Htr, <- app_assoc.
        split; [done|]. by constructor.
      * exists [EInterceptor k c]. split; [done|]. by repeat constructor.
    + exists [EInterceptor k c]. split; [done|]. by repeat constructor.
Qed.

Lemma interceptChange_trace c w :
  ∃ evs, trace (interceptChange E o c w).2 = trace w ++ evs ∧
         Forall preparing_event evs.
Proof.
  unfold interceptChange. cbn [untrackedStart].
  destruct (interceptors _) as [ks|]; [|exists []; by rewrite app_nil_r].
  destruct (interceptChange_loop_trace (length ks) 0 c
    (mkWorld (on_glob (with_trackingDerivation None) (heap w)) (trace w)))
    as (evs & Htr & Hevs).
  exists evs. split; [|done].
  destruct (interceptChange_loop _ _ _ _ _ _). exact Htr.
Qed.

Lemma interceptChange_restores c w :
  trackingDerivation (glob (heap (interceptChange E o c w).2)) =
    trackingDerivation (glob (heap w)).
Proof.
  unfold interceptChange. cbn [untrackedStart].
  by destruct (match interceptors _ with Some _ => _ | None => _ end).
Qed.

Lemma prepareNewValue_enhance_trace v w :
  ∃ evs, trace (prepareNewValue_enhance E o v w).2 = trace w ++ evs ∧
         Forall preparing_event evs.
Proof.
  unfold prepareNewValue_enhance.
  destruct (call_ext _ _ _) as [[v'|e] w1] eqn:Hcall;
    exists [EEnhancer o v]; (split; [by eapply call_ext_trace|]);
    by repeat constructor.
Qed.

Lemma prepareNewValue_trace v w :
  ∃ evs, trace (prepareNewValue E o v w).2 = trace w ++ evs ∧
         Forall preparing_event evs.
Proof.
  destruct w as [h t].
  unfold prepareNewValue, checkIfStateModificationsAreAllowed.
  cbn [heap trace].
  destruct (allowStateChanges _); [|exists []; by rewrite app_nil_r].
  destruct (hasInterceptors _ _); [|apply prepareNewValue_enhance_trace].
  destruct (interceptChange_trace (mkChange o (Some update_type) v None)
              (mkWorld h t)) as (evs & Htr & Hevs).
  destruct (interceptChange _ _ _ _) as [[[|c1]|e] w2]; cbn in Htr;
    [by exists evs| |by exists evs].
  destruct (prepareNewValue_enhance_trace (c_newValue c1) w2)
    as (evs' & -> & Hevs').
  exists (evs ++ evs'). rewrite Htr, <- app_assoc. split; [done|].
  by apply Forall_app.
Qed.
End Intercept.

(** C6.  When [prepareNewValue] yields [UNCHANGED], [set] returns in the
    state [prepareNewValue] left: it assigns nothing and calls nothing, and
    the calls made since [set] began are to interceptors and the enhancer
    only, so neither [reportChanged] nor a listener is called.  This is the
    case in particular when the enhancer hands back the stored value. *)
Theorem set_unchanged (E : Externals) (o : obsId) (v : JsValue)
    (w w1 : World) :
  prepareNewValue E o v w = (Ret UNCHANGED, w1) →
  set E o v w = (Ret tt, w1) ∧
  (∃ evs, trace w1 = trace w ++ evs ∧ Forall preparing_event evs) ∧
  (∀ v0 w0 v' w3,
     call_ext (EEnhancer o v0)
       (enhancer E o v0 (value (ovS (heap w0) o))) w0 = (Ret v', w3) →
     value (ovS (heap w3) o) = v' →
     prepareNewValue_enhance E o v0 w0 = (Ret UNCHANGED, w3)).
Proof.
  intros Hprep. split; [|split].
  - unfold set. rewrite Hprep. by rewrite decide_False by (by intros ?).
  - destruct (prepareNewValue_trace E o v w) as (evs & Htr & Hevs).
    rewrite Hprep in Htr. by exists evs.
  - intros v0 w0 v' w3 Hcall Hsame. unfold prepareNewValue_enhance.
    rewrite Hcall. by rewrite decide_False by (by intros ?).
Qed.

(** Setting observable 0 of a fresh heap to the value it holds. *)
Lemma set_unchanged_witness :
  set idle 0 (Val 0) (mkWorld fresh_heap []) =
    (Ret tt, mkWorld fresh_heap [EEnhancer 0 (Val 0)]).
Proof.
  apply (set_unchanged idle 0 (Val 0) (mkWorld fresh_heap [])). reflexivity.
Defined.

(** X26.  With the list of interceptors of [o] left alone by the handlers,
    [interceptChange] runs the chain of the registered handlers in
    registration order with no derivation tracking and hands back what the
    chain yields: it stops at the first falsy result, and a truthy result
    without [type] raises the invariant error.  The tracking derivation is
    put back on every way out, also when a handler throws.  After a falsy
    result [set] returns in the state the chain left, with nothing assigned
    and nothing else called. *)
Theorem interceptChange_spec (E : Externals) (o : obsId) (c : Change)
    (w : World) (ks : list handler) :
  interceptors (ovS (heap w) o) = Some ks →
  interceptors_stable E o →
  let prev := trackingDerivation (glob (heap w)) in
  let untracked := on_heap (on_glob (with_trackingDerivation None)) w in
  (∃ r calls w',
     intercept_chain E ks c untracked r calls w' ∧
     interceptChange E o c w = (r, on_heap (untrackedEnd prev) w') ∧
     trace w' = trace w ++ map (λ kc, EInterceptor kc.1 kc.2) calls ∧
     map fst calls `prefix_of` ks) ∧
  trackingDerivation (glob (heap (interceptChange E o c w).2)) = prev ∧
  (∀ k rest c1 w1,
     ks = k :: rest →
     call_ext (EInterceptor k c) (interceptorFn E k c) untracked
       = (Ret (Truthy c1), w1) →
     c_type c1 = None →
     (interceptChange E o c w).1 =
       Raise (InvariantFailed intercept_message)) ∧
  (∀ v w2,
     c = mkChange o (Some update_type) v None →
     allowStateChanges (glob (heap w)) = true →
     ks ≠ [] →
     interceptChange E o c w = (Ret Falsy, w2) →
     set E o v w = (Ret tt, w2) ∧
     value (ovS (heap w2) o) =
       value (ovS (heap (interceptChange E o c w).2) o)).
Proof.
  intros Hks Hst prev untracked.
  assert (Hrun : ∀ r calls w', intercept_chain E ks c untracked r calls w' →
            interceptChange E o c w = (r, on_heap (untrackedEnd prev) w')).
  { intros r calls w' Hch. unfold interceptChange. cbn [untrackedStart].
    change (ovS (on_glob (with_trackingDerivation None) (heap w)) o)
      with (ovS (heap w) o). rewrite Hks.
    change (mkWorld (on_glob (with_trackingDerivation None) (heap w)) (trace w))
      with untracked.
    pose proof (intercept_chain_loop E o ks c untracked r calls w' []
                  Hst Hch Hks) as Hloop.
    change (length (@nil handler)) with 0 in Hloop. by rewrite Hloop. }
  split; [|split; [|split]].
  - destruct (intercept_chain_total E ks c untracked) as (r & calls & w' & Hch).
    exists r, calls, w'. split; [done|]. split; [by eapply Hrun|].
    apply (intercept_chain_trace E _ _ _ _ _ _ Hch).
  - apply interceptChange_restores.
  - intros k rest c1 w1 -> Hcall Hty.
    rewrite (Hrun (Raise (InvariantFailed intercept_message)) [(k, c)] w1);
      [done|].
    eapply chain_invalid; [done|]. unfold type_truthy. by rewrite Hty.
  - intros v w2 -> Hallow Hne Hfalsy. split; [|by rewrite Hfalsy].
    unfold set, prepareNewValue, checkIfStateModificationsAreAllowed.
    rewrite Hallow. unfold hasInterceptors. rewrite Hks.
    rewrite bool_decide_eq_true_2 by (destruct ks; [done|cbn; lia]).
    destruct w as [h t]. cbn [heap trace] in *. rewrite Hfalsy.
    by rewrite decide_False by (by intros ?).
Qed.

Lemma intercepting_stable : interceptors_stable intercepting 0.
Proof. intros k c h. cbn. repeat case_decide; done. Qed.

(** Interceptor 1 doubles the value, interceptor 2 rejects the change:
    [set] assigns nothing and derivation 9 is tracking again. *)
Lemma interceptChange_spec_witness :
  set intercepting 0 (Val 7) intercepted_value =
    (Ret tt,
     mkWorld (heap intercepted_value)
       [EInterceptor 1 (mkChange 0 (Some update_type) (Val 7) None);
        EInterceptor 2 (mkChange 0 (Some update_type) (Val 14) None)]).
Proof.
  refine (proj1 (proj2 (proj2 (proj2
    (interceptChange_spec intercepting 0
       (mkChange 0 (Some update_type) (Val 7) None) intercepted_value [1; 2]
       _ intercepting_stable))) (Val 7) _ _ _ _ _)).
  - reflexivity.
  - reflexivity.
  - reflexivity.
  - discriminate.
  - reflexivity.
Defined.

(** C9.  An interceptor that unregisters itself while the chain runs makes
    [interceptChange] miss the interceptor registered after it: the loop
    walks the array of interceptors itself, with the length it read at the
    start, and the disposer takes the entry out of that array.  With
    interceptors 1 and 2 registered and interceptor 1 unregistering itself,
    interceptor 2 is never called, the call of the entry that is no longer
    there throws a [TypeError], and [set] ends with that error and assigns
    nothing; the tracking derivation is put back.  [notifyListeners], which
    walks a copy of its list, calls both listeners 6 and 8 when listener 6
    unregisters itself. *)
Theorem interceptChange_skips_interceptor :
  let c := mkChange 0 (Some update_type) (Val 7) None in
  let r := interceptChange self_disposing 0 c intercepted_value in
  let s := set self_disposing 0 (Val 7) intercepted_value in
  let n := notifyListeners self_disposing 0 (update_change 0 (Val 1) (Val 0))
             observed_value in
  (interceptors (ovS (heap intercepted_value) 0) = Some [1; 2] ∧
   r.1 = Raise TypeError ∧
   trace r.2 = [EInterceptor 1 c] ∧
   interceptors (ovS (heap r.2) 0) = Some [2] ∧
   trackingDerivation (glob (heap r.2)) = Some 9) ∧
  (s.1 = Raise TypeError ∧
   trace s.2 = [EInterceptor 1 c] ∧
   value (ovS (heap s.2) 0) = value (ovS (heap intercepted_value) 0)) ∧
  (changeListeners (ovS (heap observed_value) 0) = Some [6; 8] ∧
   n.1 = Ret tt ∧
   trace n.2 = [EListener 6 (update_change 0 (Val 1) (Val 0));
                EListener 8 (update_change 0 (Val 1) (Val 0))] ∧
   changeListeners (ovS (heap n.2) 0) = Some [8]).
Proof. repeat split; reflexivity. Qed.

(** ** Tracking a derived function *)

Lemma elem_of_first_occurrences (l : list obsId) (x : obsId) :
  x ∈ first_occurrences l ↔ x ∈ l.
Proof.
  induction l as [|y l IH]; [done|]. cbn [first_occurrences].
  rewrite !elem_of_cons, list_elem_of_filter, IH. split.
  - intros [?|[_ ?]]; [by left|by right].
  - intros [?|?]; [by left|].
    destruct (decide (x = y)); [by left|by right].
Qed.

Lemma NoDup_first_occurrences (l : list obsId) : NoDup (first_occurrences l).
Proof.
  induction l as [|y l IH]; [constructor|]. cbn [first_occurrences].
  apply NoDup_cons. split; [|by apply NoDup_filter].
  rewrite list_elem_of_filter. by intros [? _].
Qed.

(** Reading an observable that was read before changes nothing; a new one
    goes to the end. *)
Lemma first_occurrences_snoc (l : list obsId) (x : obsId) :
  first_occurrences (l ++ [x]) =
    if decide (x ∈ l) then first_occurrences l
    else first_occurrences l ++ [x].
Proof.
  induction l as [|y l IH]; [done|].
  cbn [app first_occurrences]. rewrite IH.
  destruct (decide (x = y)) as [->|Hne].
  - rewrite (decide_True (P := y ∈ y :: l)) by left.
    destruct (decide (y ∈ l)); [done|].
    rewrite filter_app, filter_cons_False, filter_nil, app_nil_r
      by (by intros ?).
    done.
  - destruct (decide (x ∈ l)) as [Hin|Hin].
    + rewrite decide_True by (by right). done.
    + rewrite decide_False by (by intros [?|?]%elem_of_cons).
      rewrite filter_app, filter_cons_True, filter_nil by done. done.
Qed.

(** Going on reading only appends: the first occurrences of a part of the
    reads are a prefix of those of all the reads. *)
Lemma first_occurrences_prefix (pre post : list obsId) :
  first_occurrences pre `prefix_of` first_occurrences (pre ++ post).
Proof.
  induction post as [|x post IH] using rev_ind.
  - by rewrite app_nil_r.
  - rewrite app_assoc, first_occurrences_snoc.
    case_decide; [done|]. by apply prefix_app_r.
Qed.

Lemma array_write_take (arr : list (option obsId)) (kept : list obsId)
    (o : obsId) :
  take (length kept) arr = Some <$> kept →
  take (S (length kept)) (array_write arr (length kept) o) =
    Some <$> (kept ++ [o]).
Proof.
  intros Htake. rewrite fmap_app. cbn [fmap list_fmap].
  assert (Hlen : length kept ≤ length arr).
  { apply (f_equal length) in Htake.
    rewrite length_take, length_fmap in Htake. lia. }
  unfold array_write. case_decide as Hlt.
  - rewrite (take_S_r _ _ (Some o)) by (by apply list_lookup_insert_eq).
    by rewrite take_insert_ge, Htake.
  - assert (length arr = length kept) as Heq by lia.
    rewrite Heq, Nat.sub_diag. cbn [replicate app].
    rewrite take_ge by (rewrite length_app; cbn; lia).
    rewrite <- Htake, take_ge by lia. done.
Qed.

Section Tracking.
Context (d : derivId).

Lemma reportObserved_inv rid prevObserving h reads o :
  run_inv d rid prevObserving h reads →
  (reportObserved o h).1 = Ret tt ∧
  run_inv d rid prevObserving (reportObserved o h).2 (reads ++ [o]).
Proof.
  intros (Htr & Hrid & Hle & Hprev & (Hdiff & Hnd & Hobs) & arr & kept &
          Hnew & Hcount & Htake & Hfirst & Hlast).
  unfold reportObserved. rewrite Htr, Hrid.
  destruct (decide (rid ≠ lastAccessedBy (obsS h o))) as [Hne|Heq].
  - cbn. rewrite !upd_eq. cbn. rewrite Hnew, Hcount. cbn.
    split; [done|]. unfold run_inv, bind_ready. cbn. rewrite !upd_eq. cbn.
    do 4 (split; [done|]). split.
    { split; [|split; [done|]].
      - intros o'. unfold upd. case_decide; [subst; cbn|]; apply Hdiff.
      - intros o' Ho'. unfold upd. case_decide; [subst; cbn|]; by apply Hobs. }
    exists (array_write arr (length kept) o), (kept ++ [o]).
    rewrite length_app. cbn [length]. rewrite Nat.add_1_r.
    split; [done|]. split; [done|]. split; [|split].
    + by apply array_write_take.
    + rewrite !first_occurrences_snoc.
      assert (o ∈ kept ↔ o ∈ reads) as Hiff.
      { by rewrite <- (elem_of_first_occurrences kept),
          <- (elem_of_first_occurrences reads), Hfirst. }
      destruct (decide (o ∈ kept)), (decide (o ∈ reads)); try tauto.
      by rewrite Hfirst.
    + intros o'. unfold upd. case_decide as Ho'.
      * intros _. subst o'. apply elem_of_app. right. by left.
      * intros Hl. apply elem_of_app. left. by apply Hlast.
  - apply dec_stable in Heq. split; [done|]. cbn [snd].
    do 4 (split; [done|]). split; [done|].
    exists arr, kept. do 3 (split; [done|]). split; [|done].
    rewrite first_occurrences_snoc.
    assert (o ∈ reads) as Hin.
    { rewrite <- (elem_of_first_occurrences reads), <- Hfirst,
        (elem_of_first_occurrences kept). by apply Hlast. }
    by rewrite decide_True.
Qed.

Lemma effect_inv rid prevObserving h reads m :
  effect_respects d m →
  run_inv d rid prevObserving h reads →
  run_inv d rid prevObserving (m h).2 reads.
Proof.
  intros Hm (Htr & Hrid & Hle & Hprev & Hready & arr & kept &
             Hnew & Hcount & Htake & Hfirst & Hlast).
  destruct (Hm h Hready) as (Hready' & Hle' & Hobs' & Hnew' & Hcount' &
                             Hrid' & Htr' & Hlast'); [lia|].
  split; [congruence|]. split; [congruence|]. split; [lia|].
  split; [congruence|]. split; [done|].
  exists arr, kept. split; [congruence|]. split; [congruence|].
  do 2 (split; [done|]).
  intros o Ho. apply Hlast. rewrite <- Hrid. apply Hlast'. congruence.
Qed.

Lemma run_steps_inv rid prevObserving body h reads :
  Forall (step_respects d) body →
  run_inv d rid prevObserving h reads →
  run_inv d rid prevObserving (run_steps body h).2
    (reads ++ reads_done body h).
Proof.
  intros Hbody. revert h reads.
  induction Hbody as [|s body Hs _ IH]; intros h reads Hinv.
  - cbn. by rewrite app_nil_r.
  - destruct s as [o|m]; cbn [run_steps reads_done]; unfold mbind.
    + destruct (reportObserved_inv _ _ _ _ o Hinv) as [Hret Hinv'].
      destruct (reportObserved o h) as [[[]|e] h1]; [|done].
      cbn [fst snd] in *.
      replace (reads ++ o :: reads_done body h1)
        with ((reads ++ [o]) ++ reads_done body h1)
        by (by rewrite <- app_assoc).
      by apply IH.
    + pose proof (effect_inv _ _ _ _ m Hs Hinv) as Hinv'.
      destruct (m h) as [[[]|e] h1]; cbn [fst snd] in *.
      * by apply IH.
      * by rewrite app_nil_r.
Qed.
End Tracking.

(** *** The three passes of [bindDependencies] *)

Lemma length_first_occurrences (l : list obsId) :
  length (first_occurrences l) ≤ length l.
Proof.
  induction l as [|x l IH]; [done|]. cbn [first_occurrences length].
  pose proof (length_filter (λ y, y ≠ x) (first_occurrences l)). lia.
Qed.

Lemma dense_fmap_Some {A} (l : list A) : dense (Some <$> l) = l.
Proof. induction l as [|x l IH]; [done|]. cbn. unfold dense in IH. by rewrite IH. Qed.

(** First pass: the entries written during the run are compacted to their
    first occurrences; only [diffValue] fields change. *)
Lemma bindDependencies_dedup_spec (todo : list obsId) :
  ∀ (done : list obsId) (i0 : nat) (arr : list (option obsId)) (h : Heap),
    (∀ o, diffValue (obsS h o) = if decide (o ∈ done) then 1 else 0) →
    i0 = length (first_occurrences done) →
    take i0 arr = Some <$> first_occurrences done →
    take (length todo) (drop (length done) arr) = Some <$> todo →
    ∃ arr' h',
      bindDependencies_dedup (length todo) (length done) i0 arr h =
        (Ret (length (first_occurrences (done ++ todo)), arr'), h') ∧
      take (length (first_occurrences (done ++ todo))) arr' =
        Some <$> first_occurrences (done ++ todo) ∧
      derS h' = derS h ∧ glob h' = glob h ∧
      ∀ o, observers (obsS h' o) = observers (obsS h o) ∧
           observersIndexes (obsS h' o) = observersIndexes (obsS h o).
Proof.
  induction todo as [|x todo IH]; intros done i0 arr h Hdiff Hi0 Htake Htodo.
  - exists arr, h. rewrite app_nil_r. cbn. subst i0. done.
  - cbn [length bindDependencies_dedup].
    assert (Hx : arr !! length done = Some (Some x)).
    { apply (f_equal (λ l, l !! 0)) in Htodo.
      rewrite lookup_take_lt in Htodo by (cbn; lia).
      rewrite lookup_drop, Nat.add_0_r in Htodo. exact Htodo. }
    assert (Hrest : take (length todo) (drop (S (length done)) arr) =
                      Some <$> todo).
    { rewrite (drop_S _ _ _ Hx) in Htodo. cbn in Htodo. by simplify_eq. }
    assert (Hle : i0 ≤ length done).
    { subst i0. apply length_first_occurrences. }
    assert (Hlt : length done < length arr).
    { apply lookup_lt_is_Some. by eexists. }
    rewrite Hx.
    replace (done ++ x :: todo) with ((done ++ [x]) ++ todo)
      by (by rewrite <- app_assoc).
    replace (S (length done)) with (length (done ++ [x]))
      by (rewrite length_app; cbn; lia).
    destruct (decide (diffValue (obsS h x) = 0)) as [Hzero|Hone].
    + assert (Hnew : x ∉ done).
      { intros Hin. rewrite Hdiff, decide_True in Hzero by done. done. }
      set (arr1 := if decide (i0 ≠ length done)
                   then array_write arr i0 x else arr).
      assert (Harr1 : take (S i0) arr1 = Some <$> (first_occurrences done ++ [x])
                    ∧ drop (S (length done)) arr1 = drop (S (length done)) arr).
      { subst arr1. rewrite fmap_app. cbn [fmap list_fmap].
        case_decide as Hi.
        - unfold array_write. rewrite decide_True by lia. split.
          + rewrite (take_S_r _ _ (Some x))
              by (apply list_lookup_insert_eq; lia).
            by rewrite take_insert_ge, Htake.
          + by rewrite drop_insert_lt by lia.
        - subst i0. rewrite Hi in *. split; [|done].
          by rewrite (take_S_r _ _ _ Hx), Htake. }
      destruct Harr1 as [Htake1 Hdrop1].
      destruct (IH (done ++ [x]) (S i0) arr1
                  (on_obs x (with_diffValue 1) h))
        as (arr' & h' & Hrun & Htake' & Hder & Hglob & Hobs).
      * intros o. cbn. unfold upd. case_decide as Ho.
        -- subst o. cbn. rewrite decide_True; [done|].
           apply elem_of_app. right. by left.
        -- rewrite Hdiff. destruct (decide (o ∈ done)) as [Hin|Hin].
           ++ rewrite decide_True; [done|]. apply elem_of_app. by left.
           ++ rewrite decide_False; [done|].
              intros [?|?%list_elem_of_singleton]%elem_of_app; done.
      * rewrite first_occurrences_snoc, decide_False by done.
        rewrite length_app. cbn. lia.
      * by rewrite first_occurrences_snoc, decide_False by done.
      * rewrite length_app. cbn [length]. rewrite Nat.add_1_r.
        by rewrite Hdrop1.
      * exists arr', h'. split; [exact Hrun|]. split; [done|].
        split; [done|]. split; [done|].
        intros o. destruct (Hobs o) as [-> ->]. cbn. unfold upd.
        by case_decide; subst.
    + assert (Hold : x ∈ done).
      { destruct (decide (x ∈ done)); [done|].
        rewrite Hdiff, decide_False in Hone by done. done. }
      destruct (IH (done ++ [x]) i0 arr h)
        as (arr' & h' & Hrun & Htake' & Hrest').
      * intros o. rewrite Hdiff. destruct (decide (o ∈ done)) as [Hin|Hin].
        -- rewrite decide_True; [done|]. apply elem_of_app. by left.
        -- rewrite decide_False; [done|].
           intros [?|?%list_elem_of_singleton]%elem_of_app; [done|by subst].
      * by rewrite first_occurrences_snoc, decide_True by done.
      * by rewrite first_occurrences_snoc, decide_True by done.
      * rewrite length_app. cbn [length]. by rewrite Nat.add_1_r.
      * by exists arr', h'.
Qed.

Lemma queueForUnobservation_frame (o : obsId) (h : Heap) :
  derS (queueForUnobservation o h) = derS h ∧
  trackingDerivation (glob (queueForUnobservation o h)) =
    trackingDerivation (glob h) ∧
  ∀ o', o' ≠ o → obsS (queueForUnobservation o h) o' = obsS h o'.
Proof.
  unfold queueForUnobservation.
  destruct (isPendingUnobservation (obsS h o)); [done|].
  repeat split. intros o' Hne. cbn. by rewrite upd_ne.
Qed.

(** [removeObserver] returns normally for a recorded observer, and touches
    the observable it is called on only. *)
Lemma removeObserver_returns (o : obsId) (d : derivId) (h : Heap) :
  d ∈ observers (obsS h o) →
  indexes_agree (obsS h o) →
  ∃ h', removeObserver o d h = (Ret tt, h') ∧
        derS h' = derS h ∧
        trackingDerivation (glob h') = trackingDerivation (glob h) ∧
        ∀ o', o' ≠ o → obsS h' o' = obsS h o'.
Proof.
  intros Hin Hagree. unfold removeObserver.
  destruct (decide (length (observers (obsS h o)) = 1)) as [Hone|Hmany].
  - eexists. split; [done|].
    destruct (queueForUnobservation_frame o
                (on_obs o (with_observers [] (observersIndexes (obsS h o))) h))
      as (-> & -> & Hother).
    repeat split. intros o' Hne. rewrite Hother by done. cbn.
    by rewrite upd_ne.
  - destruct (last (observers (obsS h o))) as [filler|] eqn:Hlast.
    2:{ apply last_None in Hlast. rewrite Hlast in Hin.
        by apply elem_of_nil in Hin. }
    destruct (decide (filler = d)) as [->|Hfiller].
    + eexists. split; [done|]. repeat split. intros o' Hne. cbn.
      by rewrite upd_ne.
    + apply last_Some in Hlast as [front Hfront].
      apply list_elem_of_lookup in Hin as [j Hj].
      pose proof (Hagree j d Hj) as Hidx.
      assert (Hjlt : j < length front).
      { rewrite Hfront in Hj.
        destruct (decide (j < length front)) as [|Hge]; [done|].
        rewrite lookup_app_r in Hj by lia.
        destruct (j - length front) as [|k]; cbn in Hj; [congruence|done]. }
      assert (Hindex : default 0 (observersIndexes (obsS h o) !! d) = j).
      { rewrite Hidx. by case_decide. }
      rewrite Hindex, Hfront, removelast_last.
      unfold array_store. rewrite decide_True by done.
      eexists. split; [done|]. repeat split. intros o' Hne. cbn.
      by rewrite upd_ne.
Qed.

(** Second pass: it returns normally when [d] is a recorded observer of
    every entry of its previous [observing]. *)
Lemma bindDependencies_unobserve_returns (d : derivId) (deps : list obsId) :
  ∀ h, NoDup deps →
    (∀ o, o ∈ deps →
          d ∈ observers (obsS h o) ∧ indexes_agree (obsS h o)) →
    ∃ h', bindDependencies_unobserve d deps h = (Ret tt, h') ∧
          derS h' = derS h ∧
          trackingDerivation (glob h') = trackingDerivation (glob h).
Proof.
  induction deps as [|dep rest IH]; intros h Hnd Hobs.
  - by exists h.
  - apply NoDup_cons in Hnd as [Hfresh Hnd].
    cbn [bindDependencies_unobserve]. unfold mbind at 1.
    assert (Hstep : ∃ h1,
      (if decide (diffValue (obsS h dep) = 0)
       then removeObserver dep d else mret tt) h = (Ret tt, h1) ∧
      derS h1 = derS h ∧
      trackingDerivation (glob h1) = trackingDerivation (glob h) ∧
      ∀ o', o' ≠ dep → obsS h1 o' = obsS h o').
    { case_decide.
      - destruct (Hobs dep) as [Hin Hagree]; [left|].
        by apply removeObserver_returns.
      - by exists h. }
    destruct Hstep as (h1 & -> & Hder1 & Htr1 & Hother1).
    unfold mbind at 1, mlift.
    destruct (IH (on_obs dep (with_diffValue 0) h1) Hnd)
      as (h' & Hrun & Hder & Htr).
    { intros o Ho. assert (o ≠ dep) as Hne by (by intros ->).
      cbn. rewrite upd_ne, Hother1 by done. apply Hobs. by right. }
    exists h'. split; [exact Hrun|]. split; [by rewrite Hder|].
    by rewrite Htr.
Qed.

Lemma bindDependencies_observe_frame (d : derivId) (deps : list obsId) :
  ∀ h, derS (bindDependencies_observe d deps h) = derS h ∧
       glob (bindDependencies_observe d deps h) = glob h.
Proof.
  induction deps as [|dep rest IH]; intros h; [done|].
  cbn [bindDependencies_observe]. case_decide; [|apply IH].
  destruct (IH (addObserver dep d (on_obs dep (with_diffValue 0) h)))
    as [-> ->]. done.
Qed.

(** [bindDependencies] returns normally and leaves in [observing] the first
    occurrences of the entries written during the run. *)
Lemma bindDependencies_returns (d : derivId) (h : Heap)
    (arr : list (option obsId)) (kept : list obsId) :
  bind_ready d h →
  newObserving (derS h d) = Some arr →
  unboundDepsCount (derS h d) = length kept →
  take (length kept) arr = Some <$> kept →
  ∃ h', bindDependencies d h = (Ret tt, h') ∧
        observing (derS h' d) = first_occurrences kept ∧
        newObserving (derS h' d) = None ∧
        trackingDerivation (glob h') = trackingDerivation (glob h).
Proof.
  intros (Hdiff & Hnd & Hobs) Hnew Hcount Htake.
  unfold bindDependencies. rewrite Hnew.
  set (h1 := on_der d (with_newObserving None) h).
  assert (Hcount1 : unboundDepsCount (derS h1 d) = length kept).
  { subst h1. cbn. by rewrite upd_eq. }
  rewrite Hcount1.
  destruct (bindDependencies_dedup_spec kept [] 0 arr h1)
    as (arr' & h2 & Hrun & Htake' & Hder2 & Hglob2 & Hobs2); try done.
  change (length (@nil obsId)) with 0 in Hrun. cbn [app] in Hrun, Htake'.
  rewrite Hrun.
  set (i0 := length (first_occurrences kept)) in *.
  assert (Htrunc : dense (array_truncate arr' i0) = first_occurrences kept).
  { unfold array_truncate.
    assert (i0 ≤ length arr') as Hle.
    { apply (f_equal length) in Htake'.
      rewrite length_take, length_fmap in Htake'. subst i0. lia. }
    replace (i0 - length arr') with 0 by lia. cbn [replicate].
    by rewrite app_nil_r, Htake', dense_fmap_Some. }
  rewrite Htrunc.
  set (h3 := on_der d (with_observing (first_occurrences kept)) h2).
  destruct (bindDependencies_unobserve_returns d
              (reverse (observing (derS h d))) h3)
    as (h4 & Hrun4 & Hder4 & Htr4).
  { by rewrite reverse_Permutation. }
  { intros o Ho. rewrite elem_of_reverse in Ho.
    destruct (Hobs o Ho) as [Hin Hagree].
    subst h3. cbn. destruct (Hobs2 o) as [Ho1 Ho2].
    unfold indexes_agree. rewrite Ho1, Ho2. done. }
  rewrite Hrun4. eexists. split; [done|].
  destruct (bindDependencies_observe_frame d
              (reverse (first_occurrences kept)) h4) as [-> ->].
  rewrite Hder4, Htr4. subst h3. cbn. rewrite upd_eq, Hder2, Hglob2.
  subst h1. cbn. by rewrite upd_eq.
Qed.

(** *** [trackDerivedFunction] on a derived function given by its steps *)

Lemma changeDependenciesStateTo0_fold_obsS (os : list obsId) (h : Heap)
    (o : obsId) :
  let x := obsS (foldl (λ h' o', on_obs o' (with_lowestObserverState
                                            UP_TO_DATE) h') h os) o in
  diffValue x = diffValue (obsS h o) ∧
  lastAccessedBy x = lastAccessedBy (obsS h o) ∧
  observers x = observers (obsS h o) ∧
  observersIndexes x = observersIndexes (obsS h o).
Proof.
  revert h. induction os as [|o' os IH]; intros h; [done|].
  cbn [foldl]. destruct (IH (on_obs o' (with_lowestObserverState UP_TO_DATE) h))
    as (-> & -> & -> & ->).
  cbn. unfold upd. by case_decide; subst.
Qed.

Lemma changeDependenciesStateTo0_obsS (d : derivId) (h : Heap) (o : obsId) :
  let x := obsS (changeDependenciesStateTo0 d h) o in
  diffValue x = diffValue (obsS h o) ∧
  lastAccessedBy x = lastAccessedBy (obsS h o) ∧
  observers x = observers (obsS h o) ∧
  observersIndexes x = observersIndexes (obsS h o).
Proof.
  unfold changeDependenciesStateTo0. case_decide; [done|].
  apply (changeDependenciesStateTo0_fold_obsS _
           (on_der d (with_dependenciesState UP_TO_DATE) h) o).
Qed.

Lemma changeDependenciesStateTo0_observing (d d' : derivId) (h : Heap) :
  observing (derS (changeDependenciesStateTo0 d h) d') =
    observing (derS h d').
Proof.
  unfold changeDependenciesStateTo0. case_decide; [done|].
  rewrite changeDependenciesStateTo0_fold_derS. cbn. unfold upd.
  by case_decide; subst.
Qed.

Lemma tracking_started_inv (d : derivId) (h : Heap) :
  run_ids_bounded h →
  bind_ready d h →
  run_inv d (S (g_runId (glob h))) (observing (derS h d))
    (tracking_started d h) [].
Proof.
  intros Hbound (Hdiff & Hnd & Hobs).
  unfold tracking_started, run_inv, bind_ready. cbn. rewrite !upd_eq. cbn.
  rewrite changeDependenciesStateTo0_glob,
    !changeDependenciesStateTo0_observing.
  do 2 (split; [done|]). split; [lia|]. split; [done|]. split.
  - split; [|split; [done|]].
    + intros o. destruct (changeDependenciesStateTo0_obsS d h o) as (-> & _).
      apply Hdiff.
    + intros o Ho.
      destruct (changeDependenciesStateTo0_obsS d h o) as (_ & _ & Ho1 & Ho2).
      unfold indexes_agree. rewrite Ho1, Ho2. by apply Hobs.
  - eexists _, []. do 4 (split; [done|]).
    intros o Ho.
    destruct (changeDependenciesStateTo0_obsS d h o) as (_ & Hl & _).
    rewrite Hl in Ho. specialize (Hbound o). lia.
Qed.

Lemma derived_function_heap (body : list step) (result : JsValue) (h : Heap) :
  (derived_function body result h).2 = (run_steps body h).2.
Proof.
  unfold derived_function, mbind. by destruct (run_steps body h) as [[[]|e] h1].
Qed.

(** The common part of C1 and C5. *)
Lemma trackDerivedFunction_script (d : derivId) (body : list step)
    (result : JsValue) (w : World) :
  run_ids_bounded (heap w) →
  bind_ready d (heap w) →
  Forall (step_respects d) body →
  let started := tracking_started d (heap w) in
  let ran := derived_function body result started in
  ∃ w',
    trackDerivedFunction d (derived_function body result) w =
      (Ret (match ran.1 with
            | Ret v => Returned v
            | Raise e => CaughtException e
            end), w') ∧
    bindDependencies d
      (on_glob (with_trackingDerivation (trackingDerivation (glob (heap w))))
         ran.2) = (Ret tt, heap w') ∧
    observing (derS (heap w') d) =
      first_occurrences (reads_done body started) ∧
    newObserving (derS (heap w') d) = None ∧
    trackingDerivation (glob (heap w')) =
      trackingDerivation (glob (heap w)) ∧
    trace w' = trace w ++ [ECallDerivedFunction d].
Proof.
  intros Hbound Hready Hbody started ran.
  pose proof (tracking_started_inv d (heap w) Hbound Hready) as Hinv0.
  pose proof (run_steps_inv d _ _ body _ [] Hbody Hinv0) as Hinv.
  fold started in Hinv. cbn [app] in Hinv.
  rewrite <- (derived_function_heap body result) in Hinv. fold ran in Hinv.
  destruct Hinv as (Htr & Hrid & Hle & Hprev & (Hdiff & Hnd & Hobs) & arr &
                    kept & Hnew & Hcount & Htake & Hfirst & Hlast).
  set (prev := trackingDerivation (glob (heap w))).
  destruct (bindDependencies_returns d
              (on_glob (with_trackingDerivation prev) ran.2) arr kept)
    as (h9 & Hbind & Hobserving & Hnone & Htr9); try done.
  exists (mkWorld h9 (trace w ++ [ECallDerivedFunction d])).
  split; [|cbn [heap trace]; split; [exact Hbind|];
            split; [by rewrite Hobserving, Hfirst|];
            split; [exact Hnone|]; split; [exact Htr9|done]].
  unfold trackDerivedFunction, call_ext. cbn [heap trace].
  change (on_glob (with_trackingDerivation (Some d)) _)
    with (tracking_started d (heap w)). fold started. fold ran.
  match goal with
  | |- context [with_trackingDerivation (trackingDerivation ?g)] =>
      replace (trackingDerivation g) with prev
        by (cbn; by rewrite changeDependenciesStateTo0_glob)
  end.
  destruct ran as [r h7]. cbn [fst snd heap trace] in *.
  by rewrite Hbind.
Qed.

Lemma nested_read_respects (d : derivId) : effect_respects d nested_read.
Proof.
  intros h (Hdiff & Hnd & Hobs) Hle. unfold bind_ready. cbn.
  split; [|split; [lia|do 5 (split; [done|])]].
  - split; [|split; [done|]].
    + intros o. unfold upd. case_decide; [subst; cbn|]; apply Hdiff.
    + intros o Ho. unfold upd. case_decide; [subst; cbn|]; by apply Hobs.
  - intros o. unfold upd. case_decide; [cbn; lia|done].
Qed.

Lemma stale_derivation_bounded : run_ids_bounded (heap stale_derivation).
Proof.
  intros o. destruct (decide (o = 3)) as [->|Hne]; [vm_compute; lia|].
  cbn. rewrite upd_ne by done. cbn. lia.
Qed.

Lemma stale_derivation_ready : bind_ready 5 (heap stale_derivation).
Proof.
  split; [|split].
  - intros o. destruct (decide (o = 3)) as [->|Hne]; [by vm_compute|].
    cbn. by rewrite upd_ne.
  - vm_compute. apply NoDup_singleton.
  - intros o Ho. vm_compute in Ho. apply list_elem_of_singleton in Ho as ->.
    split; [vm_compute; by left|].
    intros i d' Hi. vm_compute in Hi. destruct i as [|i]; [|by destruct i].
    vm_compute. by simplify_eq.
Qed.

Lemma sample_body_respects : Forall (step_respects 5) sample_body.
Proof.
  unfold sample_body.
  repeat first [apply Forall_nil | apply Forall_cons; split];
    try exact I. apply nested_read_respects.
Qed.

(** * Further properties *)

(** ** The observer lists *)

Lemma indexes_agree_NoDup (x : IObservable) :
  indexes_agree x → NoDup (observers x).
Proof.
  intros Hagree. apply NoDup_alt. intros i j d Hi Hj.
  pose proof (Hagree i d Hi) as Hmi. pose proof (Hagree j d Hj) as Hmj.
  rewrite Hmi in Hmj. repeat case_decide; simplify_eq; lia.
Qed.

Lemma invariantObservers_loop_agree (map : gmap derivId nat) (list : list derivId)
    (i : nat) :
  invariantObservers_loop map i list = Ret tt ↔
  ∀ j d, list !! j = Some d →
         map !! d = if decide (i + j = 0) then None else Some (i + j).
Proof.
  revert i. induction list as [|id rest IH]; intros i.
  - split; [by intros _ j d ?|done].
  - cbn [invariantObservers_loop]. split.
    + intros Hloop j d Hj.
      assert (map !! id = (if decide (i = 0) then None else Some i) ∧
              invariantObservers_loop map (S i) rest = Ret tt) as [Hid Hrest].
      { repeat case_decide; done. }
      destruct j as [|j]; cbn in Hj.
      * simplify_eq. by rewrite Nat.add_0_r.
      * pose proof (proj1 (IH (S i)) Hrest j d Hj) as Hd.
        by replace (i + S j) with (S i + j) by lia.
    + intros Hall.
      assert (map !! id = if decide (i = 0) then None else Some i) as Hid.
      { specialize (Hall 0 id eq_refl). by rewrite Nat.add_0_r in Hall. }
      assert (invariantObservers_loop map (S i) rest = Ret tt) as Hrest.
      { apply IH. intros j d Hj. specialize (Hall (S j) d Hj).
        by replace (i + S j) with (S i + j) in Hall by lia. }
      repeat case_decide; done.
Qed.

(** Given the indexes, "no junk" is the count [invariantObservers] makes. *)
Lemma no_junk_size (x : IObservable) :
  indexes_agree x →
  (∀ d, d ∉ observers x → observersIndexes x !! d = None) ↔
  size (observersIndexes x) = length (observers x) - 1.
Proof.
  intros Hagree.
  pose proof (indexes_agree_NoDup x Hagree) as Hnd.
  set (rest := drop 1 (observers x)).
  assert (Hrest_nd : NoDup rest).
  { subst rest. destruct (observers x) as [|a l]; [constructor|].
    cbn. rewrite drop_0. by apply NoDup_cons in Hnd as [_ ?]. }
  assert (Hrest_len : length rest = length (observers x) - 1).
  { subst rest. by rewrite length_drop. }
  assert (Hrest_in : ∀ d, d ∈ rest ↔
            ∃ i, i ≠ 0 ∧ observers x !! i = Some d).
  { intros d. subst rest. rewrite list_elem_of_lookup. split.
    - intros [j Hj]. rewrite lookup_drop in Hj. exists (1 + j). split; [lia|done].
    - intros (i & Hi & Hd). exists (i - 1). rewrite lookup_drop.
      by replace (1 + (i - 1)) with i by lia. }
  assert (Hsub : (list_to_set rest : gset derivId)
                   ⊆ dom (observersIndexes x)).
  { intros d Hd. apply elem_of_list_to_set, Hrest_in in Hd as (i & Hi & Hd).
    apply elem_of_dom. rewrite (Hagree i d Hd), decide_False by done. by eexists. }
  assert (Hsize : size (list_to_set rest : gset derivId) =
                    length (observers x) - 1).
  { by rewrite size_list_to_set. }
  split.
  - intros Hjunk. rewrite <- Hsize, <- (size_dom (D := gset derivId)).
    f_equal. apply set_eq. intros d. split; [|apply Hsub].
    intros [v Hv]%elem_of_dom. apply elem_of_list_to_set, Hrest_in.
    destruct (decide (d ∈ observers x)) as [Hin|Hout].
    + apply list_elem_of_lookup in Hin as [i Hi]. exists i. split; [|done].
      intros ->. rewrite (Hagree 0 d Hi) in Hv. done.
    + rewrite Hjunk in Hv; done.
  - intros Hsz d Hout.
    assert ((list_to_set rest : gset derivId) = dom (observersIndexes x))
      as Heq.
    { apply set_subseteq_size_eq; [done|].
      rewrite (size_dom (D := gset derivId)), Hsz, Hsize. done. }
    apply not_elem_of_dom. rewrite <- Heq. intros Hd.
    apply elem_of_list_to_set, Hrest_in in Hd as (i & _ & Hd).
    apply Hout. by eapply list_elem_of_lookup_2.
Qed.

Lemma observers_wf_check (x : IObservable) :
  observers_wf x ↔
  invariantObservers_check x = Ret tt ∧
  (observers x = [] → observersIndexes x = ∅).
Proof.
  unfold observers_wf, invariantObservers_check. split.
  - intros [Hagree Hjunk].
    assert (invariantObservers_loop (observersIndexes x) 0 (observers x)
              = Ret tt) as ->.
    { apply invariantObservers_loop_agree. intros j d Hj. cbn. by apply Hagree. }
    pose proof (proj1 (no_junk_size x Hagree) Hjunk) as Hsz.
    rewrite decide_True by (by right). split; [done|].
    intros Hnil. apply map_size_empty_inv. by rewrite Hsz, Hnil.
  - intros [Hcheck Hempty].
    destruct (invariantObservers_loop _ _ _) as [[]|e] eqn:Hloop; [|done].
    assert (Hagree : indexes_agree x).
    { intros j d Hj.
      by apply (proj1 (invariantObservers_loop_agree _ _ _) Hloop j d). }
    split; [done|]. apply no_junk_size; [done|].
    case_decide as Hor; [|done]. destruct Hor as [Hlen|Hsz]; [|done].
    apply length_zero_iff_nil in Hlen. rewrite (Hempty Hlen), Hlen.
    apply map_size_empty.
Qed.

Lemma observers_wf_ext (x y : IObservable) :
  observers y = observers x → observersIndexes y = observersIndexes x →
  observers_wf x → observers_wf y.
Proof.
  unfold observers_wf, indexes_agree. intros -> ->. done.
Qed.

Lemma observers_wf_NoDup (x : IObservable) :
  observers_wf x → NoDup (observers x).
Proof. intros [Hagree _]. by apply indexes_agree_NoDup. Qed.

Lemma observers_wf_fresh : observers_wf fresh_observable.
Proof. split; [by intros i d ?|done]. Qed.

(** What [addObserver] leaves in the observable it is called on. *)
Lemma addObserver_obsS (o : obsId) (node : derivId) (h : Heap) :
  let x := obsS h o in
  let x' := obsS (addObserver o node h) o in
  observers x' = observers x ++ [node] ∧
  observersIndexes x' =
    (if decide (length (observers x) = 0) then observersIndexes x
     else <[node := length (observers x)]> (observersIndexes x)) ∧
  diffValue x' = diffValue x ∧
  lastAccessedBy x' = lastAccessedBy x ∧
  isPendingUnobservation x' = isPendingUnobservation x ∧
  state_num (lowestObserverState x') =
    Z.min (state_num (lowestObserverState x))
          (state_num (dependenciesState (derS h node))).
Proof.
  unfold addObserver. cbn. rewrite upd_eq.
  case_decide; cbn; repeat split; lia.
Qed.

Lemma addObserver_frame (o : obsId) (node : derivId) (h : Heap) :
  derS (addObserver o node h) = derS h ∧
  ovS (addObserver o node h) = ovS h ∧
  glob (addObserver o node h) = glob h ∧
  ∀ o', o' ≠ o → obsS (addObserver o node h) o' = obsS h o'.
Proof.
  unfold addObserver. cbn. repeat split. intros o' Hne. by rewrite upd_ne.
Qed.

Lemma addObserver_wf (o : obsId) (node : derivId) (h : Heap) :
  observers_wf (obsS h o) → node ∉ observers (obsS h o) →
  observers_wf (obsS (addObserver o node h) o).
Proof.
  intros [Hagree Hjunk] Hfresh.
  destruct (addObserver_obsS o node h) as (Hl & Hm & _).
  split.
  - intros i d Hi. rewrite Hl in Hi. rewrite Hm.
    apply lookup_snoc_Some in Hi as [[Hlt Hi]|[-> ->]].
    + assert (d ≠ node) as Hne.
      { intros ->. apply Hfresh. by eapply list_elem_of_lookup_2. }
      case_decide; [by apply Hagree|].
      rewrite lookup_insert_ne by done. by apply Hagree.
    + case_decide as Hlen; [by apply Hjunk|]. by rewrite lookup_insert_eq.
  - intros d Hd. rewrite Hl in Hd. rewrite Hm.
    apply not_elem_of_app in Hd as [Hd Hne].
    rewrite list_elem_of_singleton in Hne.
    case_decide; [by apply Hjunk|].
    rewrite lookup_insert_ne by done. by apply Hjunk.
Qed.

(** What [queueForUnobservation] leaves behind. *)
Lemma queueForUnobservation_obsS (o : obsId) (h : Heap) :
  let x := obsS h o in
  let x' := obsS (queueForUnobservation o h) o in
  observers x' = observers x ∧
  observersIndexes x' = observersIndexes x ∧
  diffValue x' = diffValue x ∧
  lastAccessedBy x' = lastAccessedBy x ∧
  lowestObserverState x' = lowestObserverState x ∧
  isPendingUnobservation x' = true.
Proof.
  unfold queueForUnobservation.
  destruct (isPendingUnobservation (obsS h o)) eqn:Hp; [done|].
  cbn. by rewrite upd_eq.
Qed.

Lemma queueForUnobservation_glob (o : obsId) (h : Heap) :
  let g := glob h in
  let g' := glob (queueForUnobservation o h) in
  ovS (queueForUnobservation o h) = ovS h ∧
  g_runId g' = g_runId g ∧ inBatch g' = inBatch g ∧
  allowStateChanges g' = allowStateChanges g ∧
  strictMode g' = strictMode g ∧
  pendingUnobservations g' =
    (if isPendingUnobservation (obsS h o) then pendingUnobservations g
     else pendingUnobservations g ++ [o]).
Proof.
  unfold queueForUnobservation.
  by destruct (isPendingUnobservation (obsS h o)).
Qed.

(** [removeObserver] on a recorded observer of a well-formed list: the
    list and the index map it leaves, exactly. *)
Lemma removeObserver_recorded (o : obsId) (node : derivId) (h : Heap) :
  observers_wf (obsS h o) → node ∈ observers (obsS h o) →
  ∃ l m,
    removeObserver o node h =
      (Ret tt,
       if decide (l = []) then
         queueForUnobservation o (on_obs o (with_observers l m) h)
       else on_obs o (with_observers l m) h) ∧
    observers_wf (with_observers l m (obsS h o)) ∧
    (∀ d, d ∈ l ↔ d ∈ observers (obsS h o) ∧ d ≠ node) ∧
    length (observers (obsS h o)) = S (length l).
Proof.
  intros Hwf Hin. pose proof (observers_wf_NoDup _ Hwf) as Hnd.
  destruct Hwf as [Hagree Hjunk]. unfold removeObserver.
  destruct (decide (length (observers (obsS h o)) = 1)) as [Hone|Hmany].
  - exists [], (observersIndexes (obsS h o)).
    destruct (observers (obsS h o)) as [|a [|b l]] eqn:Hl; try done.
    apply list_elem_of_singleton in Hin as ->.
    split; [done|]. split; [|split; [|done]].
    + split; [by intros i d ?|]. cbn. intros d _.
      destruct (decide (d = a)) as [->|Hne].
      * apply (Hagree 0 a). by rewrite Hl.
      * apply Hjunk. by rewrite list_elem_of_singleton.
    + intros d. rewrite list_elem_of_singleton. split; [by intros ?%elem_of_nil|].
      by intros [-> ?].
  - destruct (last (observers (obsS h o))) as [filler|] eqn:Hlast.
    2:{ apply last_None in Hlast. rewrite Hlast in Hin.
        by apply elem_of_nil in Hin. }
    apply last_Some in Hlast as [front Hfront].
    rewrite Hfront in Hnd. apply NoDup_app in Hnd as (Hnd_front & Hdisj & _).
    assert (Hfiller : filler ∉ front).
    { intros Hf. apply (Hdisj _ Hf). by apply list_elem_of_singleton. }
    assert (Hfront_ne : front ≠ []).
    { intros ->. by rewrite Hfront in Hmany. }
    rewrite Hfront, removelast_last.
    destruct (decide (filler = node)) as [->|Hne].
    + exists front, (delete node (observersIndexes (obsS h o))).
      rewrite decide_False by done. split; [done|].
      split; [|split].
      * split.
        -- intros i d Hi. cbn in Hi |- *.
           assert (d ≠ node) as Hd.
           { intros ->. apply Hfiller. by eapply list_elem_of_lookup_2. }
           rewrite lookup_delete_ne by done. apply Hagree.
           rewrite Hfront. by apply lookup_app_l_Some.
        -- cbn. intros d Hd. destruct (decide (d = node)) as [->|Hdn].
           ++ apply lookup_delete_eq.
           ++ rewrite lookup_delete_ne by done. apply Hjunk.
              rewrite Hfront, elem_of_app, list_elem_of_singleton. tauto.
      * intros d. rewrite elem_of_app, list_elem_of_singleton. split.
        -- intros Hd. split; [by left|]. by intros ->.
        -- intros [[Hd|Hd] Hdn]; done.
      * rewrite length_app. cbn. lia.
    + assert (Hnode : node ∈ front).
      { rewrite Hfront, elem_of_app, list_elem_of_singleton in Hin.
        destruct Hin as [?|?]; [done|congruence]. }
      apply list_elem_of_lookup in Hnode as [j Hj].
      pose proof (lookup_lt_Some _ _ _ Hj) as Hjlt.
      assert (Hidx : observersIndexes (obsS h o) !! node =
                       if decide (j = 0) then None else Some j).
      { apply Hagree. rewrite Hfront. by apply lookup_app_l_Some. }
      assert (Hindex : default 0 (observersIndexes (obsS h o) !! node) = j).
      { rewrite Hidx. by case_decide. }
      rewrite Hindex. unfold array_store. rewrite decide_True by done.
      set (map1 := if decide (j = 0)
                   then delete filler (observersIndexes (obsS h o))
                   else <[filler := j]> (observersIndexes (obsS h o))).
      assert (Hother : ∀ d, d ≠ filler →
                map1 !! d = observersIndexes (obsS h o) !! d).
      { intros d Hd. subst map1. case_decide.
        - by rewrite lookup_delete_ne.
        - by rewrite lookup_insert_ne. }
      assert (Hmap1 : map1 !! filler = if decide (j = 0) then None else Some j).
      { subst map1. case_decide; [apply lookup_delete_eq|apply lookup_insert_eq]. }
      clearbody map1.
      exists (<[j := filler]> front), (delete node map1).
      destruct (decide (<[j := filler]> front = [])) as [Hnil|_].
      { apply (f_equal length) in Hnil.
        rewrite length_insert in Hnil. cbn in Hnil. lia. }
      split; [done|]. split; [|split].
      * split.
        -- intros i d Hi. cbn in Hi |- *.
           destruct (decide (i = j)) as [->|Hij].
           ++ rewrite list_lookup_insert_eq in Hi by done.
              assert (d = filler) as -> by congruence.
              by rewrite lookup_delete_ne by done.
           ++ rewrite list_lookup_insert_ne in Hi by done.
              assert (d ≠ node) as Hdn.
              { intros ->. apply Hij.
                by apply (NoDup_lookup _ _ _ _ Hnd_front Hi Hj). }
              assert (d ≠ filler) as Hdf.
              { intros ->. apply Hfiller. by eapply list_elem_of_lookup_2. }
              rewrite lookup_delete_ne, Hother by done.
              apply Hagree. rewrite Hfront. by apply lookup_app_l_Some.
        -- cbn. intros d Hd. destruct (decide (d = node)) as [->|Hdn].
           { apply lookup_delete_eq. }
           rewrite lookup_delete_ne by done.
           assert (d ≠ filler) as Hdf.
           { intros ->. apply Hd. by apply list_elem_of_insert. }
           rewrite Hother by done.
           apply Hjunk. rewrite Hfront, elem_of_app, list_elem_of_singleton.
           intros [Hdfront|?]; [|done].
           apply list_elem_of_lookup in Hdfront as [i Hi].
           apply Hd. apply list_elem_of_lookup. exists i.
           rewrite list_lookup_insert_ne; [done|]. intros ->. congruence.
      * intros d. rewrite !list_elem_of_lookup. split.
        -- intros [i Hi]. destruct (decide (i = j)) as [->|Hij].
           ++ rewrite list_lookup_insert_eq in Hi by done.
              assert (d = filler) as -> by congruence.
              split; [|done]. exists (length front).
              by rewrite list_lookup_middle.
           ++ rewrite list_lookup_insert_ne in Hi by done. split.
              ** exists i. by apply lookup_app_l_Some.
              ** intros ->. apply Hij.
                 by apply (NoDup_lookup _ _ _ _ Hnd_front Hi Hj).
        -- intros [[i Hi] Hdn].
           apply lookup_snoc_Some in Hi as [[Hlt Hi]|[_ <-]].
           ++ exists i. rewrite list_lookup_insert_ne; [done|].
              intros ->. congruence.
           ++ exists j. by rewrite list_lookup_insert_eq.
      * rewrite length_app, length_insert. cbn. lia.
Qed.

Lemma two_observers_wf (o : obsId) : observers_wf (obsS (heap two_observers) o).
Proof.
  destruct (decide (o = 0)) as [->|Hne].
  - apply observers_wf_check. by vm_compute.
  - cbn. rewrite upd_ne by done. apply observers_wf_fresh.
Qed.

(** X1.  [invariantObservers] returns normally exactly on the observables
    whose [observersIndexes] holds the index of every observer but the
    first and, unless [observers] is empty, no other key; it never changes
    the state. *)
Theorem invariantObservers_spec (o : obsId) (h : Heap) :
  (invariantObservers o h).2 = h ∧
  ((invariantObservers o h).1 = Ret tt ↔
   indexes_agree (obsS h o) ∧
   (observers (obsS h o) ≠ [] →
    ∀ d, d ∉ observers (obsS h o) → observersIndexes (obsS h o) !! d = None)).
Proof.
  split; [done|]. cbn [invariantObservers fst].
  unfold invariantObservers_check. split.
  - intros Hcheck.
    destruct (invariantObservers_loop _ _ _) as [[]|e] eqn:Hloop; [|done].
    assert (Hagree : indexes_agree (obsS h o)).
    { intros j d Hj.
      by apply (proj1 (invariantObservers_loop_agree _ _ _) Hloop j d). }
    split; [done|]. intros Hne. apply no_junk_size; [done|].
    case_decide as Hor; [|done]. destruct Hor as [Hlen|Hsz]; [|done].
    by apply length_zero_iff_nil in Hlen.
  - intros [Hagree Hjunk].
    assert (invariantObservers_loop (observersIndexes (obsS h o)) 0
              (observers (obsS h o)) = Ret tt) as ->.
    { apply invariantObservers_loop_agree. intros j d Hj. cbn.
      by apply Hagree. }
    destruct (decide (observers (obsS h o) = [])) as [Hnil|Hne].
    + rewrite decide_True; [done|]. left. by rewrite Hnil.
    + rewrite decide_True; [done|]. right.
      apply no_junk_size; [done|]. by apply Hjunk.
Qed.

(** X2.  [addObserver] of a derivation that is not yet an observer, on a
    well-formed observer list: the derivation is appended, the list stays
    well formed ([invariantObservers] passes), [lowestObserverState] drops
    to the state of the new observer when that is lower, and nothing else
    changes. *)
Theorem addObserver_spec (o : obsId) (node : derivId) (h : Heap) :
  observers_wf (obsS h o) →
  node ∉ observers (obsS h o) →
  let h' := addObserver o node h in
  observers (obsS h' o) = observers (obsS h o) ++ [node] ∧
  observers_wf (obsS h' o) ∧
  invariantObservers o h' = (Ret tt, h') ∧
  state_num (lowestObserverState (obsS h' o)) =
    Z.min (state_num (lowestObserverState (obsS h o)))
          (state_num (dependenciesState (derS h node))) ∧
  (∀ o', o' ≠ o → obsS h' o' = obsS h o') ∧
  derS h' = derS h ∧ ovS h' = ovS h ∧ glob h' = glob h.
Proof.
  intros Hwf Hfresh h'.
  pose proof (addObserver_wf o node h Hwf Hfresh) as Hwf'.
  destruct (addObserver_obsS o node h) as (Hl & _ & _ & _ & _ & Hlos).
  destruct (addObserver_frame o node h) as (Hder & Hov & Hglob & Hother).
  split; [exact Hl|]. split; [exact Hwf'|]. split.
  { unfold invariantObservers. f_equal.
    by apply (proj1 (observers_wf_check _) Hwf'). }
  done.
Qed.

Lemma addObserver_spec_witness :
  let h' := addObserver 0 3 (heap two_observers) in
  observers (obsS h' 0) = [2; 1; 3] ∧
  observers_wf (obsS h' 0) ∧
  invariantObservers 0 h' = (Ret tt, h') ∧
  state_num (lowestObserverState (obsS h' 0)) = (-1)%Z ∧
  (∀ o', o' ≠ 0 → obsS h' o' = obsS (heap two_observers) o') ∧
  derS h' = derS (heap two_observers) ∧ ovS h' = ovS (heap two_observers) ∧
  glob h' = glob (heap two_observers).
Proof.
  apply (addObserver_spec 0 3 (heap two_observers)).
  - apply two_observers_wf.
  - change (3 ∉ [2; 1]). rewrite !elem_of_cons, elem_of_nil. lia.
Defined.

(** X3.  [removeObserver] of a recorded observer, on a well-formed observer
    list: it returns normally, exactly that derivation leaves the list, the
    list stays well formed ([invariantObservers] passes), an observable
    that lost its last observer is flagged as pending unobservation, and
    no derivation or other observable changes. *)
Theorem removeObserver_spec (o : obsId) (node : derivId) (h : Heap) :
  observers_wf (obsS h o) →
  node ∈ observers (obsS h o) →
  ∃ h', removeObserver o node h = (Ret tt, h') ∧
        (∀ d, d ∈ observers (obsS h' o) ↔
              d ∈ observers (obsS h o) ∧ d ≠ node) ∧
        length (observers (obsS h o)) = S (length (observers (obsS h' o))) ∧
        observers_wf (obsS h' o) ∧
        invariantObservers o h' = (Ret tt, h') ∧
        (observers (obsS h' o) = [] →
         isPendingUnobservation (obsS h' o) = true) ∧
        (∀ o', o' ≠ o → obsS h' o' = obsS h o') ∧
        derS h' = derS h.
Proof.
  intros Hwf Hin.
  destruct (removeObserver_recorded o node h Hwf Hin)
    as (l & m & Hrun & Hwf' & Hmem & Hlen).
  eexists. split; [exact Hrun|].
  set (h1 := on_obs o (with_observers l m) h).
  assert (Hl1 : observers (obsS h1 o) = l) by (subst h1; cbn; by rewrite upd_eq).
  assert (Hm1 : observersIndexes (obsS h1 o) = m)
    by (subst h1; cbn; by rewrite upd_eq).
  assert (Hother1 : ∀ o', o' ≠ o → obsS h1 o' = obsS h o')
    by (intros o' Hne; subst h1; cbn; by rewrite upd_ne).
  destruct (queueForUnobservation_obsS o h1) as (Hlq & Hmq & _ & _ & _ & Hflag).
  destruct (queueForUnobservation_frame o h1) as (Hderq & _ & Hotherq).
  assert (Hfields :
    let h' := if decide (l = []) then queueForUnobservation o h1 else h1 in
    observers (obsS h' o) = l ∧ observersIndexes (obsS h' o) = m ∧
    (l = [] → isPendingUnobservation (obsS h' o) = true) ∧
    (∀ o', o' ≠ o → obsS h' o' = obsS h o') ∧ derS h' = derS h).
  { cbn zeta. case_decide.
    - rewrite Hlq, Hmq, Hl1, Hm1, Hderq. do 3 (split; [done|]).
      split; [|done]. intros o' Hne. rewrite Hotherq by done. by apply Hother1.
    - done. }
  cbn zeta in Hfields. destruct Hfields as (Hl & Hm & Hpend & Hother & Hder).
  assert (Hwf'' : observers_wf
            (obsS (if decide (l = []) then queueForUnobservation o h1 else h1) o)).
  { by apply (observers_wf_ext (with_observers l m (obsS h o))). }
  rewrite Hl. split; [exact Hmem|]. split; [exact Hlen|].
  split; [exact Hwf''|]. split.
  { unfold invariantObservers. f_equal.
    by apply (proj1 (observers_wf_check _) Hwf''). }
  done.
Qed.

Lemma removeObserver_spec_witness :
  ∃ h', removeObserver 0 2 (heap two_observers) = (Ret tt, h') ∧
        (∀ d, d ∈ observers (obsS h' 0) ↔
              d ∈ observers (obsS (heap two_observers) 0) ∧ d ≠ 2) ∧
        length (observers (obsS (heap two_observers) 0)) =
          S (length (observers (obsS h' 0))) ∧
        observers_wf (obsS h' 0) ∧
        invariantObservers 0 h' = (Ret tt, h') ∧
        (observers (obsS h' 0) = [] →
         isPendingUnobservation (obsS h' 0) = true) ∧
        (∀ o', o' ≠ 0 → obsS h' o' = obsS (heap two_observers) o') ∧
        derS h' = derS (heap two_observers).
Proof.
  apply (removeObserver_spec 0 2 (heap two_observers)).
  - apply two_observers_wf.
  - change (2 ∈ [2; 1]). by left.
Defined.

(** X4.  Adding an observer and removing it again puts the observer list
    and its index map back as they were, and returns normally. *)
Theorem addObserver_removeObserver (o : obsId) (node : derivId) (h : Heap) :
  observers_wf (obsS h o) →
  node ∉ observers (obsS h o) →
  ∃ h', removeObserver o node (addObserver o node h) = (Ret tt, h') ∧
        observers (obsS h' o) = observers (obsS h o) ∧
        observersIndexes (obsS h' o) = observersIndexes (obsS h o) ∧
        (∀ o', o' ≠ o → obsS h' o' = obsS h o') ∧
        derS h' = derS h.
Proof.
  intros [Hagree Hjunk] Hfresh.
  destruct (addObserver_obsS o node h) as (Hl & Hm & _).
  destruct (addObserver_frame o node h) as (Hder & _ & _ & Hother).
  set (h0 := addObserver o node h) in *. cbn zeta in Hl, Hm.
  unfold removeObserver. rewrite Hl, Hm, length_app. cbn [length].
  destruct (observers (obsS h o)) as [|a l] eqn:Hold.
  - cbn [length app]. rewrite decide_True by done. rewrite decide_True by done.
    set (h1 := on_obs o (with_observers [] (observersIndexes (obsS h o))) h0).
    destruct (queueForUnobservation_obsS o h1) as (Hlq & Hmq & _).
    destruct (queueForUnobservation_frame o h1) as (Hderq & _ & Hotherq).
    eexists. split; [done|]. rewrite Hlq, Hmq, Hderq. subst h1. cbn.
    rewrite upd_eq. do 2 (split; [done|]). split; [|done].
    intros o' Hne. rewrite Hotherq by done. cbn. rewrite upd_ne by done.
    by apply Hother.
  - rewrite decide_False by (cbn [length]; lia).
    rewrite last_snoc, removelast_last, decide_True by done.
    rewrite decide_False by done.
    eexists. split; [done|]. cbn. rewrite upd_eq. cbn.
    split; [done|]. split.
    + by apply delete_insert_id, Hjunk.
    + split; [|done]. intros o' Hne. rewrite upd_ne by done. by apply Hother.
Qed.

Lemma addObserver_removeObserver_witness :
  ∃ h', removeObserver 0 3 (addObserver 0 3 (heap two_observers))
          = (Ret tt, h') ∧
        observers (obsS h' 0) = observers (obsS (heap two_observers) 0) ∧
        observersIndexes (obsS h' 0) =
          observersIndexes (obsS (heap two_observers) 0) ∧
        (∀ o', o' ≠ 0 → obsS h' o' = obsS (heap two_observers) o') ∧
        derS h' = derS (heap two_observers).
Proof.
  apply (addObserver_removeObserver 0 3 (heap two_observers)).
  - apply two_observers_wf.
  - change (3 ∉ [2; 1]). rewrite !elem_of_cons, elem_of_nil. lia.
Defined.

(** X5.  [removeObserver] of a derivation that is not an observer does not
    fail safe.  On an empty observer list it throws a [TypeError]
    ([list.pop()] gives [undefined]); otherwise it returns normally and the
    first observer is gone from the list, while the others stay. *)
Theorem removeObserver_not_recorded (o : obsId) (node : derivId) (h : Heap) :
  observers_wf (obsS h o) →
  node ∉ observers (obsS h o) →
  match observers (obsS h o) with
  | [] => removeObserver o node h = (Raise TypeError, h)
  | first :: rest =>
      ∃ h', removeObserver o node h = (Ret tt, h') ∧
            (first ∉ observers (obsS h' o)) ∧
            (∀ d, d ∈ rest ↔ d ∈ observers (obsS h' o))
  end.
Proof.
  intros Hwf Hfresh. pose proof (observers_wf_NoDup _ Hwf) as Hnd.
  destruct Hwf as [Hagree Hjunk]. unfold removeObserver.
  destruct (observers (obsS h o)) as [|first rest] eqn:Hold; [done|].
  apply NoDup_cons in Hnd as [Hfirst Hnd].
  destruct rest as [|b rest'] using rev_ind.
  - rewrite decide_True by done.
    set (h1 := on_obs o (with_observers [] (observersIndexes (obsS h o))) h).
    destruct (queueForUnobservation_obsS o h1) as (Hlq & _).
    eexists. split; [done|]. rewrite Hlq. subst h1. cbn. rewrite upd_eq. cbn.
    split; [apply not_elem_of_nil|done].
  - clear IHrest'. rewrite decide_False by (cbn; rewrite length_app; cbn; lia).
    change (first :: rest' ++ [b]) with ((first :: rest') ++ [b]).
    rewrite last_snoc, removelast_last.
    assert (b ≠ node) as Hb.
    { intros ->. apply Hfresh. right. apply elem_of_app. right. by left. }
    rewrite decide_False by done.
    rewrite (Hjunk node Hfresh). cbn [default].
    rewrite decide_True by done. unfold array_store.
    rewrite decide_True by (cbn; lia). cbn [insert list_insert].
    eexists. split; [done|]. cbn. rewrite upd_eq. cbn.
    apply NoDup_app in Hnd as (Hnd' & Hdisj & _).
    split.
    + rewrite elem_of_cons. intros [->|Hin].
      * apply Hfirst, elem_of_app. right. by left.
      * apply Hfirst, elem_of_app. by left.
    + intros d. rewrite elem_of_app, !elem_of_cons, elem_of_nil. tauto.
Qed.

Lemma removeObserver_not_recorded_witness :
  ∃ h', removeObserver 0 3 (heap two_observers) = (Ret tt, h') ∧
        (2 ∉ observers (obsS h' 0)) ∧
        ∀ d, d ∈ [1] ↔ d ∈ observers (obsS h' 0).
Proof.
  apply (removeObserver_not_recorded 0 3 (heap two_observers)).
  - apply two_observers_wf.
  - change (3 ∉ [2; 1]). rewrite !elem_of_cons, elem_of_nil. lia.
Defined.

(** ** The dependency graph across a run *)

Lemma removeObserver_effect (o : obsId) (node : derivId) (h : Heap) :
  observers_wf (obsS h o) →
  node ∈ observers (obsS h o) →
  ∃ h', removeObserver o node h = (Ret tt, h') ∧
        (∀ d, d ∈ observers (obsS h' o) ↔
              d ∈ observers (obsS h o) ∧ d ≠ node) ∧
        length (observers (obsS h o)) = S (length (observers (obsS h' o))) ∧
        observers_wf (obsS h' o) ∧
        (observers (obsS h' o) = [] →
         isPendingUnobservation (obsS h' o) = true) ∧
        diffValue (obsS h' o) = diffValue (obsS h o) ∧
        (∀ o', o' ≠ o → obsS h' o' = obsS h o') ∧
        derS h' = derS h ∧
        trackingDerivation (glob h') = trackingDerivation (glob h).
Proof.
  intros Hwf Hin.
  destruct (removeObserver_recorded o node h Hwf Hin)
    as (l & m & Hrun & Hwf' & Hmem & Hlen).
  eexists. split; [exact Hrun|].
  set (h1 := on_obs o (with_observers l m) h).
  assert (Hl1 : observers (obsS h1 o) = l) by (subst h1; cbn; by rewrite upd_eq).
  assert (Hm1 : observersIndexes (obsS h1 o) = m)
    by (subst h1; cbn; by rewrite upd_eq).
  assert (Hd1 : diffValue (obsS h1 o) = diffValue (obsS h o))
    by (subst h1; cbn; by rewrite upd_eq).
  assert (Hother1 : ∀ o', o' ≠ o → obsS h1 o' = obsS h o')
    by (intros o' Hne; subst h1; cbn; by rewrite upd_ne).
  destruct (queueForUnobservation_obsS o h1)
    as (Hlq & Hmq & Hdq & _ & _ & Hflag).
  destruct (queueForUnobservation_frame o h1) as (Hderq & Htrq & Hotherq).
  assert (Hfields :
    let h' := if decide (l = []) then queueForUnobservation o h1 else h1 in
    observers (obsS h' o) = l ∧ observersIndexes (obsS h' o) = m ∧
    (l = [] → isPendingUnobservation (obsS h' o) = true) ∧
    diffValue (obsS h' o) = diffValue (obsS h o) ∧
    (∀ o', o' ≠ o → obsS h' o' = obsS h o') ∧ derS h' = derS h ∧
    trackingDerivation (glob h') = trackingDerivation (glob h)).
  { cbn zeta. case_decide.
    - rewrite Hlq, Hmq, Hdq, Hl1, Hm1, Hd1, Hderq, Htrq.
      do 4 (split; [done|]).
      split; [|done]. intros o' Hne. rewrite Hotherq by done. by apply Hother1.
    - done. }
  cbn zeta in Hfields.
  destruct Hfields as (Hl & Hm & Hpend & Hdiff & Hother & Hder & Htr).
  assert (Hwf'' : observers_wf
            (obsS (if decide (l = []) then queueForUnobservation o h1 else h1) o)).
  { by apply (observers_wf_ext (with_observers l m (obsS h o))). }
  rewrite Hl. done.
Qed.

(** First pass, once more, with what it does to the marks. *)
Lemma bindDependencies_dedup_marks (todo : list obsId) :
  ∀ (done : list obsId) (i0 : nat) (arr : list (option obsId)) (h : Heap),
    (∀ o, diffValue (obsS h o) = if decide (o ∈ done) then 1 else 0) →
    i0 = length (first_occurrences done) →
    take i0 arr = Some <$> first_occurrences done →
    take (length todo) (drop (length done) arr) = Some <$> todo →
    ∃ arr' h',
      bindDependencies_dedup (length todo) (length done) i0 arr h =
        (Ret (length (first_occurrences (done ++ todo)), arr'), h') ∧
      derS h' = derS h ∧ glob h' = glob h ∧ ovS h' = ovS h ∧
      ∀ o, diffValue (obsS h' o) =
             (if decide (o ∈ done ++ todo) then 1 else 0) ∧
           with_diffValue 0 (obsS h' o) = with_diffValue 0 (obsS h o).
Proof.
  induction todo as [|x todo IH]; intros done i0 arr h Hdiff Hi0 Htake Htodo.
  - exists arr, h. rewrite app_nil_r. cbn. subst i0. done.
  - cbn [length bindDependencies_dedup].
    assert (Hx : arr !! length done = Some (Some x)).
    { apply (f_equal (λ l, l !! 0)) in Htodo.
      rewrite lookup_take_lt in Htodo by (cbn; lia).
      rewrite lookup_drop, Nat.add_0_r in Htodo. exact Htodo. }
    assert (Hrest : take (length todo) (drop (S (length done)) arr) =
                      Some <$> todo).
    { rewrite (drop_S _ _ _ Hx) in Htodo. cbn in Htodo. by simplify_eq. }
    assert (Hle : i0 ≤ length done).
    { subst i0. apply length_first_occurrences. }
    assert (Hlt : length done < length arr).
    { apply lookup_lt_is_Some. by eexists. }
    rewrite Hx.
    replace (done ++ x :: todo) with ((done ++ [x]) ++ todo)
      by (by rewrite <- app_assoc).
    replace (S (length done)) with (length (done ++ [x]))
      by (rewrite length_app; cbn; lia).
    destruct (decide (diffValue (obsS h x) = 0)) as [Hzero|Hone].
    + assert (Hnew : x ∉ done).
      { intros Hin. rewrite Hdiff, decide_True in Hzero by done. done. }
      set (arr1 := if decide (i0 ≠ length done)
                   then array_write arr i0 x else arr).
      assert (Harr1 : take (S i0) arr1 = Some <$> (first_occurrences done ++ [x])
                    ∧ drop (S (length done)) arr1 = drop (S (length done)) arr).
      { subst arr1. rewrite fmap_app. cbn [fmap list_fmap].
        case_decide as Hi.
        - unfold array_write. rewrite decide_True by lia. split.
          + rewrite (take_S_r _ _ (Some x))
              by (apply list_lookup_insert_eq; lia).
            by rewrite take_insert_ge, Htake.
          + by rewrite drop_insert_lt by lia.
        - subst i0. rewrite Hi in *. split; [|done].
          by rewrite (take_S_r _ _ _ Hx), Htake. }
      destruct Harr1 as [Htake1 Hdrop1].
      destruct (IH (done ++ [x]) (S i0) arr1
                  (on_obs x (with_diffValue 1) h))
        as (arr' & h' & Hrun & Hder & Hglob & Hov & Hobs).
      * intros o. cbn. unfold upd. case_decide as Ho.
        -- subst o. cbn. rewrite decide_True; [done|].
           apply elem_of_app. right. by left.
        -- rewrite Hdiff. destruct (decide (o ∈ done)) as [Hin|Hin].
           ++ rewrite decide_True; [done|]. apply elem_of_app. by left.
           ++ rewrite decide_False; [done|].
              intros [?|?%list_elem_of_singleton]%elem_of_app; done.
      * rewrite first_occurrences_snoc, decide_False by done.
        rewrite length_app. cbn. lia.
      * by rewrite first_occurrences_snoc, decide_False by done.
      * rewrite length_app. cbn [length]. rewrite Nat.add_1_r.
        by rewrite Hdrop1.
      * exists arr', h'. split; [exact Hrun|]. do 3 (split; [done|]).
        intros o. destruct (Hobs o) as [-> ->]. split; [done|]. cbn.
        unfold upd. by case_decide; subst.
    + assert (Hold : x ∈ done).
      { destruct (decide (x ∈ done)); [done|].
        rewrite Hdiff, decide_False in Hone by done. done. }
      destruct (IH (done ++ [x]) i0 arr h)
        as (arr' & h' & Hrun & Hrest').
      * intros o. rewrite Hdiff. destruct (decide (o ∈ done)) as [Hin|Hin].
        -- rewrite decide_True; [done|]. apply elem_of_app. by left.
        -- rewrite decide_False; [done|].
           intros [?|?%list_elem_of_singleton]%elem_of_app; [done|by subst].
      * by rewrite first_occurrences_snoc, decide_True by done.
      * by rewrite first_occurrences_snoc, decide_True by done.
      * rewrite length_app. cbn [length]. by rewrite Nat.add_1_r.
      * by exists arr', h'.
Qed.

(** Second pass: [d] leaves the observer lists of the entries of [deps]
    that carry no mark, and every mark on an entry of [deps] is cleared. *)
Lemma bindDependencies_unobserve_graph (d : derivId) (deps : list obsId) :
  ∀ h, NoDup deps →
    (∀ o, observers_wf (obsS h o)) →
    (∀ o, o ∈ deps → d ∈ observers (obsS h o)) →
    ∃ h', bindDependencies_unobserve d deps h = (Ret tt, h') ∧
          derS h' = derS h ∧
          trackingDerivation (glob h') = trackingDerivation (glob h) ∧
          (∀ o, observers_wf (obsS h' o)) ∧
          (∀ o, diffValue (obsS h' o) =
                  if decide (o ∈ deps) then 0 else diffValue (obsS h o)) ∧
          (∀ o d', d' ∈ observers (obsS h' o) ↔
                   d' ∈ observers (obsS h o) ∧
                   ¬ (d' = d ∧ o ∈ deps ∧ diffValue (obsS h o) = 0)) ∧
          (∀ o, o ∈ deps → diffValue (obsS h o) = 0 →
                observers (obsS h' o) = [] →
                isPendingUnobservation (obsS h' o) = true) ∧
          (∀ o, o ∉ deps → obsS h' o = obsS h o).
Proof.
  induction deps as [|dep rest IH]; intros h Hnd Hwf Hobs.
  - exists h. split; [done|]. do 3 (split; [done|]).
    split; [done|]. split; [|split; [|done]].
    + intros o d'. split; [|tauto]. intros Hin. split; [done|].
      intros (_ & []%elem_of_nil & _).
    + by intros o []%elem_of_nil.
  - apply NoDup_cons in Hnd as [Hfresh Hnd].
    cbn [bindDependencies_unobserve]. unfold mbind at 1.
    assert (Hstep : ∃ h1,
      (if decide (diffValue (obsS h dep) = 0)
       then removeObserver dep d else mret tt) h = (Ret tt, h1) ∧
      derS h1 = derS h ∧
      trackingDerivation (glob h1) = trackingDerivation (glob h) ∧
      (∀ o', o' ≠ dep → obsS h1 o' = obsS h o') ∧
      observers_wf (obsS h1 dep) ∧
      diffValue (obsS h1 dep) = diffValue (obsS h dep) ∧
      (∀ d', d' ∈ observers (obsS h1 dep) ↔
             d' ∈ observers (obsS h dep) ∧
             ¬ (d' = d ∧ diffValue (obsS h dep) = 0)) ∧
      (diffValue (obsS h dep) = 0 → observers (obsS h1 dep) = [] →
       isPendingUnobservation (obsS h1 dep) = true)).
    { case_decide as Hmark.
      - destruct (removeObserver_effect dep d h (Hwf dep))
          as (h1 & Hrun & Hmem & _ & Hwf1 & Hpend & Hdiff & Hother & Hder
              & Htr).
        { apply Hobs. by left. }
        exists h1. split; [done|]. do 5 (split; [done|]). split; [|done].
        intros d'. rewrite Hmem. split.
        + intros [Hin Hne]. split; [done|]. by intros [? _].
        + intros [Hin Hne]. split; [done|]. intros ->. by apply Hne.
      - exists h. split; [done|]. do 5 (split; [done|]). split; [|done].
        intros d'. split; [|tauto]. intros Hin. split; [done|].
        by intros [_ ?]. }
    destruct Hstep as (h1 & -> & Hder1 & Htr1 & Hother1 & Hwf1 & Hdiff1
                       & Hmem1 & Hpend1).
    unfold mbind at 1, mlift.
    set (h2 := on_obs dep (with_diffValue 0) h1).
    assert (Hobs2 : ∀ o, observers (obsS h2 o) = observers (obsS h1 o) ∧
                         observersIndexes (obsS h2 o) =
                           observersIndexes (obsS h1 o) ∧
                         isPendingUnobservation (obsS h2 o) =
                           isPendingUnobservation (obsS h1 o)).
    { intros o. subst h2. cbn. unfold upd. by case_decide; subst. }
    destruct (IH h2 Hnd) as (h' & Hrun & Hder & Htr & Hwf' & Hdiff' & Hmem'
                             & Hpend' & Hframe').
    { intros o. destruct (Hobs2 o) as (Hl & Hm & _).
      apply (observers_wf_ext (obsS h1 o)); [done|done|].
      destruct (decide (o = dep)) as [->|Hne]; [done|].
      rewrite Hother1 by done. apply Hwf. }
    { intros o Ho. assert (o ≠ dep) as Hne by (by intros ->).
      destruct (Hobs2 o) as (-> & _). rewrite Hother1 by done.
      apply Hobs. by right. }
    exists h'. split; [exact Hrun|]. split; [by rewrite Hder|].
    split; [by rewrite Htr|]. split; [exact Hwf'|].
    split; [|split; [|split]].
    + intros o. rewrite Hdiff'. destruct (decide (o = dep)) as [->|Hne].
      * rewrite decide_False by done. rewrite decide_True by (by left).
        subst h2. cbn. by rewrite upd_eq.
      * destruct (decide (o ∈ rest)) as [Hin|Hin].
        -- rewrite decide_True; [done|]. by right.
        -- rewrite decide_False.
           ++ subst h2. cbn. rewrite upd_ne by done. by rewrite Hother1.
           ++ rewrite elem_of_cons. tauto.
    + intros o d'. rewrite Hmem'. destruct (Hobs2 o) as (-> & _).
      destruct (decide (o = dep)) as [->|Hne].
      * rewrite Hmem1. split.
        -- intros [[Hin Hn1] _]. split; [done|]. intros (-> & _ & Hz).
           by apply Hn1.
        -- intros [Hin Hn]. split; [split; [done|]|].
           ++ intros [-> Hz]. apply Hn. split; [done|]. split; [by left|done].
           ++ by intros (_ & ? & _).
      * rewrite Hother1 by done.
        assert (diffValue (obsS h2 o) = diffValue (obsS h o)) as ->.
        { subst h2. cbn. rewrite upd_ne by done. by rewrite Hother1. }
        rewrite elem_of_cons. split.
        -- intros [Hin Hn]. split; [done|]. intros (-> & [?|Ho] & Hz); [done|].
           by apply Hn.
        -- intros [Hin Hn]. split; [done|]. intros (-> & Ho & Hz).
           apply Hn. split; [done|]. split; [by right|done].
    + intros o Ho Hz Hempty. apply elem_of_cons in Ho as [->|Ho].
      * assert (obsS h' dep = obsS h2 dep) as Hsame by (by apply Hframe').
        rewrite Hsame in Hempty |- *. destruct (Hobs2 dep) as (Hl & _ & ->).
        rewrite Hl in Hempty. by apply Hpend1.
      * assert (o ≠ dep) as Hne by (by intros ->).
        apply Hpend'; [done| |done].
        subst h2. cbn. rewrite upd_ne by done. by rewrite Hother1.
    + intros o [Hne Ho]%not_elem_of_cons. rewrite Hframe' by done.
      subst h2. cbn. rewrite upd_ne by done. by apply Hother1.
Qed.

(** Third pass: [d] joins the observer lists of the entries of [deps] that
    still carry a mark, and those marks are cleared. *)
Lemma bindDependencies_observe_graph (d : derivId) (deps : list obsId) :
  ∀ h, NoDup deps →
    (∀ o, observers_wf (obsS h o)) →
    (∀ o, o ∈ deps → diffValue (obsS h o) = 1 → d ∉ observers (obsS h o)) →
    let h' := bindDependencies_observe d deps h in
    (∀ o, observers_wf (obsS h' o)) ∧
    (∀ o, diffValue (obsS h' o) =
            if decide (o ∈ deps ∧ diffValue (obsS h o) = 1) then 0
            else diffValue (obsS h o)) ∧
    (∀ o d', d' ∈ observers (obsS h' o) ↔
             d' ∈ observers (obsS h o) ∨
             (d' = d ∧ o ∈ deps ∧ diffValue (obsS h o) = 1)) ∧
    (∀ o, o ∉ deps → obsS h' o = obsS h o) ∧
    (∀ o, isPendingUnobservation (obsS h' o) =
          isPendingUnobservation (obsS h o)).
Proof.
  induction deps as [|dep rest IH]; intros h Hnd Hwf Hfresh.
  - cbn. split; [done|]. split.
    { intros o. rewrite decide_False; [done|]. by intros [[]%elem_of_nil _]. }
    split; [|done]. intros o d'. split; [by left|].
    by intros [?|(_ & []%elem_of_nil & _)].
  - apply NoDup_cons in Hnd as [Hdep Hnd].
    cbn [bindDependencies_observe].
    set (h0 := on_obs dep (with_diffValue 0) h).
    set (h1 := if decide (diffValue (obsS h dep) = 1)
               then addObserver dep d h0 else h).
    assert (Hstep :
      (∀ o, o ≠ dep → obsS h1 o = obsS h o) ∧
      observers_wf (obsS h1 dep) ∧
      diffValue (obsS h1 dep) =
        (if decide (diffValue (obsS h dep) = 1) then 0
         else diffValue (obsS h dep)) ∧
      (∀ d', d' ∈ observers (obsS h1 dep) ↔
             d' ∈ observers (obsS h dep) ∨
             (d' = d ∧ diffValue (obsS h dep) = 1)) ∧
      isPendingUnobservation (obsS h1 dep) =
        isPendingUnobservation (obsS h dep)).
    { subst h1. case_decide as Hmark.
      - destruct (addObserver_obsS dep d h0) as (Hl & _ & Hdv & _ & Hp & _).
        destruct (addObserver_frame dep d h0) as (_ & _ & _ & Hother).
        assert (Hx0 : observers (obsS h0 dep) = observers (obsS h dep) ∧
                      observersIndexes (obsS h0 dep) =
                        observersIndexes (obsS h dep) ∧
                      diffValue (obsS h0 dep) = 0 ∧
                      isPendingUnobservation (obsS h0 dep) =
                        isPendingUnobservation (obsS h dep)).
        { subst h0. cbn. by rewrite upd_eq. }
        destruct Hx0 as (Hl0 & Hm0 & Hd0 & Hp0).
        split; [|split; [|split; [|split]]].
        + intros o Hne. rewrite Hother by done. subst h0. cbn.
          by rewrite upd_ne.
        + apply addObserver_wf.
          * by apply (observers_wf_ext (obsS h dep)).
          * rewrite Hl0. apply Hfresh; [by left|done].
        + by rewrite Hdv.
        + intros d'. rewrite Hl, Hl0, elem_of_app, list_elem_of_singleton.
          tauto.
        + by rewrite Hp.
      - split; [done|]. split; [done|]. split; [done|]. split; [|done].
        intros d'. tauto. }
    destruct Hstep as (Hother1 & Hwf1 & Hdiff1 & Hmem1 & Hp1).
    destruct (IH h1 Hnd) as (Hwf' & Hdiff' & Hmem' & Hframe' & Hp').
    { intros o. destruct (decide (o = dep)) as [->|Hne]; [done|].
      rewrite Hother1 by done. apply Hwf. }
    { intros o Ho. assert (o ≠ dep) as Hne by (by intros ->).
      rewrite Hother1 by done. apply Hfresh. by right. }
    fold h0. fold h1.
    split; [exact Hwf'|]. split; [|split; [|split]].
    + intros o. rewrite Hdiff'. destruct (decide (o = dep)) as [->|Hne].
      * rewrite (decide_False (P := dep ∈ rest ∧ _)) by (by intros [? _]).
        rewrite Hdiff1. case_decide as Hmark.
        -- rewrite decide_True; [done|]. split; [by left|done].
        -- rewrite decide_False; [done|]. by intros [_ ?].
      * rewrite Hother1 by done.
        destruct (decide (o ∈ rest ∧ diffValue (obsS h o) = 1)) as [[Ho Hm]|Hn].
        -- rewrite decide_True; [done|]. split; [by right|done].
        -- rewrite decide_False; [done|].
           intros [[?|Ho]%elem_of_cons Hm]; [done|]. by apply Hn.
    + intros o d'. rewrite Hmem'. destruct (decide (o = dep)) as [->|Hne].
      * rewrite Hmem1, Hdiff1. split.
        -- intros [[Hin|[-> Hm]]|(-> & Ho & _)]; [by left| |done].
           right. split; [done|]. split; [by left|done].
        -- intros [Hin|(-> & _ & Hm)]; [by left; left|]. left. by right.
      * rewrite !Hother1 by done. rewrite elem_of_cons. split.
        -- intros [Hin|(-> & Ho & Hm)]; [by left|]. right. tauto.
        -- intros [Hin|(-> & [?|Ho] & Hm)]; [by left|done|]. by right.
    + intros o [Hne Ho]%not_elem_of_cons. rewrite Hframe' by done.
      by apply Hother1.
    + intros o. rewrite Hp'. destruct (decide (o = dep)) as [->|Hne]; [done|].
      by rewrite Hother1.
Qed.

Lemma graph_consistent_ready (d : derivId) (h : Heap) :
  graph_consistent d h → bind_ready d h.
Proof.
  intros (Hdiff & Hnd & Hobs & Hwf). split; [done|]. split; [done|].
  intros o Ho. split; [by apply Hobs|]. by destruct (Hwf o).
Qed.

(** [bindDependencies] rebinds [d] and nothing else. *)
Lemma bindDependencies_graph (d : derivId) (h : Heap)
    (arr : list (option obsId)) (kept : list obsId) :
  graph_consistent d h →
  newObserving (derS h d) = Some arr →
  unboundDepsCount (derS h d) = length kept →
  take (length kept) arr = Some <$> kept →
  ∃ h', bindDependencies d h = (Ret tt, h') ∧
        graph_consistent d h' ∧
        observing (derS h' d) = first_occurrences kept ∧
        (∀ o d', d' ≠ d →
           d' ∈ observers (obsS h' o) ↔ d' ∈ observers (obsS h o)) ∧
        (∀ d', d' ≠ d → derS h' d' = derS h d') ∧
        (∀ o, o ∈ observing (derS h d) → o ∉ kept →
              observers (obsS h' o) = [] →
              isPendingUnobservation (obsS h' o) = true).
Proof.
  intros (Hdiff & Hnd & Hobs & Hwf) Hnew Hcount Htake.
  unfold bindDependencies. rewrite Hnew.
  set (prev := observing (derS h d)) in *.
  set (h1 := on_der d (with_newObserving None) h).
  assert (Hcount1 : unboundDepsCount (derS h1 d) = length kept).
  { subst h1. cbn. by rewrite upd_eq. }
  rewrite Hcount1.
  destruct (bindDependencies_dedup_spec kept [] 0 arr h1)
    as (arr' & h2 & Hrun & Htake' & _); try done.
  destruct (bindDependencies_dedup_marks kept [] 0 arr h1)
    as (arr'' & h2' & Hrun' & Hder2 & Hglob2 & Hov2 & Hobs2); try done.
  rewrite Hrun in Hrun'. simplify_eq.
  change (length (@nil obsId)) with 0 in Hrun. cbn [app] in Hrun, Htake', Hobs2.
  rewrite Hrun.
  set (new := first_occurrences kept) in *.
  assert (Htrunc : dense (array_truncate arr'' (length new)) = new).
  { unfold array_truncate.
    assert (length new ≤ length arr'') as Hle.
    { apply (f_equal length) in Htake'.
      rewrite length_take, length_fmap in Htake'. lia. }
    replace (length new - length arr'') with 0 by lia. cbn [replicate].
    by rewrite app_nil_r, Htake', dense_fmap_Some. }
  rewrite Htrunc.
  set (h3 := on_der d (with_observing new) h2').
  assert (Hfields3 : ∀ o,
    observers (obsS h3 o) = observers (obsS h o) ∧
    observersIndexes (obsS h3 o) = observersIndexes (obsS h o) ∧
    isPendingUnobservation (obsS h3 o) = isPendingUnobservation (obsS h o) ∧
    diffValue (obsS h3 o) = if decide (o ∈ kept) then 1 else 0).
  { intros o. destruct (Hobs2 o) as [Hd Hsame]. subst h3. cbn.
    split; [exact (f_equal observers Hsame)|].
    split; [exact (f_equal observersIndexes Hsame)|].
    split; [exact (f_equal isPendingUnobservation Hsame)|done]. }
  assert (Hnew_in : ∀ o, o ∈ new ↔ o ∈ kept).
  { intros o. subst new. apply elem_of_first_occurrences. }
  destruct (bindDependencies_unobserve_graph d (reverse prev) h3)
    as (h4 & Hrun4 & Hder4 & Htr4 & Hwf4 & Hdiff4 & Hmem4 & Hpend4 & Hframe4).
  { by rewrite reverse_Permutation. }
  { intros o. destruct (Hfields3 o) as (Hl & Hm & _).
    by apply (observers_wf_ext (obsS h o)). }
  { intros o Ho. rewrite elem_of_reverse in Ho.
    destruct (Hfields3 o) as (-> & _). by apply Hobs. }
  rewrite Hrun4.
  assert (Hdv4 : ∀ o, diffValue (obsS h4 o) =
                      if decide (o ∈ prev) then 0
                      else if decide (o ∈ kept) then 1 else 0).
  { intros o. rewrite Hdiff4. destruct (Hfields3 o) as (_ & _ & _ & ->).
    destruct (decide (o ∈ prev)) as [Hp|Hp].
    - by rewrite decide_True by (by rewrite elem_of_reverse).
    - by rewrite decide_False by (by rewrite elem_of_reverse). }
  assert (Hmem4' : ∀ o d', d' ∈ observers (obsS h4 o) ↔
                           d' ∈ observers (obsS h o) ∧
                           ¬ (d' = d ∧ o ∈ prev ∧ o ∉ kept)).
  { intros o d'. rewrite Hmem4. destruct (Hfields3 o) as (-> & _ & _ & ->).
    rewrite elem_of_reverse.
    destruct (decide (o ∈ kept)) as [Hk|Hk]; split; intros [Hin Hn];
      (split; [done|]); intros (? & ? & ?); apply Hn; done. }
  destruct (bindDependencies_observe_graph d (reverse new) h4)
    as (Hwf5 & Hdiff5 & Hmem5 & Hframe5 & Hp5).
  { rewrite reverse_Permutation. apply NoDup_first_occurrences. }
  { exact Hwf4. }
  { intros o _ Hmark Hin. rewrite Hdv4 in Hmark.
    destruct (decide (o ∈ prev)) as [Hp|Hp]; [done|].
    apply Hmem4' in Hin as [Hin _]. by apply Hp, Hobs. }
  destruct (bindDependencies_observe_frame d (reverse new) h4)
    as [Hder5 Hglob5].
  set (h5 := bindDependencies_observe d (reverse new) h4) in *.
  assert (Hobserving5 : observing (derS h5 d) = new).
  { rewrite Hder5, Hder4. subst h3. cbn. by rewrite upd_eq. }
  exists h5. split; [done|]. split; [|split; [exact Hobserving5|split; [|split]]].
  - split; [|split; [|split; [|exact Hwf5]]].
    + intros o. rewrite Hdiff5, Hdv4.
      destruct (decide (o ∈ prev)), (decide (o ∈ kept));
        case_decide as Hc; try done.
      exfalso. apply Hc. by rewrite elem_of_reverse, Hnew_in.
    + rewrite Hobserving5. apply NoDup_first_occurrences.
    + intros o. rewrite Hobserving5, Hnew_in, Hmem5, Hmem4', Hdv4.
      rewrite elem_of_reverse, Hnew_in, (Hobs o). fold prev.
      destruct (decide (o ∈ prev)), (decide (o ∈ kept)); split; try tauto;
        intros [[? ?]|(_ & ? & ?)]; done.
  - intros o d' Hne. rewrite Hmem5, Hmem4'. split.
    + intros [[Hin _]|(-> & _)]; done.
    + intros Hin. left. split; [done|]. by intros (-> & _).
  - intros d' Hne. rewrite Hder5, Hder4. subst h3. cbn.
    rewrite upd_ne, Hder2 by done. subst h1. cbn. by rewrite upd_ne.
  - intros o Hprev Hkept Hempty.
    assert (obsS h5 o = obsS h4 o) as Hsame.
    { apply Hframe5. by rewrite elem_of_reverse, Hnew_in. }
    rewrite Hsame in Hempty |- *. apply Hpend4; [|by destruct (Hfields3 o) as (_ & _ & _ & ->); rewrite decide_False|done].
    by rewrite elem_of_reverse.
Qed.

Lemma graph_consistent_ext (d : derivId) (h h' : Heap) :
  (∀ o, diffValue (obsS h' o) = diffValue (obsS h o) ∧
        observers (obsS h' o) = observers (obsS h o) ∧
        observersIndexes (obsS h' o) = observersIndexes (obsS h o)) →
  observing (derS h' d) = observing (derS h d) →
  graph_consistent d h → graph_consistent d h'.
Proof.
  intros Hsame Hobserving (Hdiff & Hnd & Hobs & Hwf).
  split; [|split; [|split]].
  - intros o. destruct (Hsame o) as (-> & _). apply Hdiff.
  - by rewrite Hobserving.
  - intros o. destruct (Hsame o) as (_ & -> & _). rewrite Hobserving.
    apply Hobs.
  - intros o. destruct (Hsame o) as (_ & Hl & Hm).
    by apply (observers_wf_ext (obsS h o)).
Qed.

(** [reportObserved] changes no observer list, no mark and no [observing]
    array. *)
Lemma reportObserved_frame (o : obsId) (h : Heap) :
  let h' := (reportObserved o h).2 in
  (∀ o', diffValue (obsS h' o') = diffValue (obsS h o') ∧
         observers (obsS h' o') = observers (obsS h o') ∧
         observersIndexes (obsS h' o') = observersIndexes (obsS h o')) ∧
  (∀ d, observing (derS h' d) = observing (derS h d) ∧
        dependenciesState (derS h' d) = dependenciesState (derS h d)).
Proof.
  unfold reportObserved.
  destruct (trackingDerivation (glob h)) as [d|].
  - case_decide; [|done]. cbn. rewrite !upd_eq. cbn.
    destruct (newObserving (derS h d)); cbn;
      (split; intros x; unfold upd; repeat case_decide; by subst).
  - case_decide; [|done]. cbn. split.
    + intros o'. destruct (decide (o' = o)) as [->|Hne].
      * by destruct (queueForUnobservation_obsS o h) as (-> & -> & -> & _).
      * destruct (queueForUnobservation_frame o h) as (_ & _ & Hother).
        by rewrite Hother.
    + intros d. by destruct (queueForUnobservation_frame o h) as (-> & _).
Qed.

Lemma tracking_started_graph (d : derivId) (h : Heap) :
  graph_consistent d h → graph_consistent d (tracking_started d h).
Proof.
  apply graph_consistent_ext.
  - intros o. unfold tracking_started. cbn.
    by destruct (changeDependenciesStateTo0_obsS d h o) as (-> & _ & -> & ->).
  - unfold tracking_started. cbn. rewrite !upd_eq. cbn.
    apply changeDependenciesStateTo0_observing.
Qed.

Lemma run_steps_graph (d : derivId) (body : list step) :
  ∀ h, Forall (step_keeps_graph d) body →
       graph_consistent d h → graph_consistent d (run_steps body h).2.
Proof.
  induction body as [|s body IH]; intros h Hbody Hg; [done|].
  apply Forall_cons in Hbody as [Hs Hbody].
  destruct s as [o|m]; cbn [run_steps]; unfold mbind.
  - destruct (reportObserved_frame o h) as [Hobs Hder].
    assert (graph_consistent d (reportObserved o h).2) as Hg1.
    { apply (graph_consistent_ext d h); [exact Hobs|apply Hder|exact Hg]. }
    destruct (reportObserved o h) as [[[]|e] h1]; [|done]. by apply IH.
  - pose proof (Hs h Hg) as Hg1.
    destruct (m h) as [[[]|e] h1]; [|done]. by apply IH.
Qed.

Lemma stale_derivation_graph : graph_consistent 5 (heap stale_derivation).
Proof.
  split; [|split; [|split]].
  - intros o. destruct (decide (o = 3)) as [->|Hne]; [by vm_compute|].
    cbn. by rewrite upd_ne.
  - vm_compute. apply NoDup_singleton.
  - intros o. change (observing (derS (heap stale_derivation) 5)) with [3].
    rewrite list_elem_of_singleton.
    destruct (decide (o = 3)) as [->|Hne].
    + split; [done|]. intros _. vm_compute. by left.
    + cbn. rewrite upd_ne by done. cbn. split; [by intros ?%elem_of_nil|done].
  - intros o. destruct (decide (o = 3)) as [->|Hne].
    + apply observers_wf_check. by vm_compute.
    + cbn. rewrite upd_ne by done. apply observers_wf_fresh.
Qed.

Lemma nested_read_keeps_graph (d : derivId) : effect_keeps_graph d nested_read.
Proof.
  intros h. apply graph_consistent_ext; [|done].
  intros o. cbn. unfold upd. by case_decide; subst.
Qed.

Lemma sample_body_keeps_graph : Forall (step_keeps_graph 5) sample_body.
Proof.
  unfold sample_body.
  repeat first [apply Forall_nil | apply Forall_cons; split];
    try exact I. apply nested_read_keeps_graph.
Qed.

(** What [bindDependencies] on [d] keeps for any other derivation. *)
Lemma graph_consistent_other (d d' : derivId) (h h' : Heap) :
  d' ≠ d →
  graph_consistent d h' →
  (∀ o, d' ∈ observers (obsS h' o) ↔ d' ∈ observers (obsS h o)) →
  derS h' d' = derS h d' →
  graph_consistent d' h → graph_consistent d' h'.
Proof.
  intros Hne (Hdiff' & _ & _ & Hwf') Hmem Hder (_ & Hnd & Hobs & _).
  split; [done|]. split; [by rewrite Hder|]. split; [|done].
  intros o. by rewrite Hmem, Hder.
Qed.

(** X6.  [bindDependencies], called at the end of a run of [d] on a
    consistent graph, with the reads of the run in [newObserving]: it
    returns normally; afterwards [d] is an observer of exactly the
    observables in its new [observing] array, that array has no
    duplicates, every observer list is well formed and no [diffValue] mark
    is left; the observers other than [d] are the same on every
    observable, so that the graph stays consistent around every other
    derivation around which it was; and a dependency that [d] dropped and
    that has no observer left is flagged as pending unobservation. *)
Theorem bindDependencies_rebinds (d : derivId) (h : Heap)
    (arr : list (option obsId)) (kept : list obsId) :
  graph_consistent d h →
  newObserving (derS h d) = Some arr →
  unboundDepsCount (derS h d) = length kept →
  take (length kept) arr = Some <$> kept →
  ∃ h', bindDependencies d h = (Ret tt, h') ∧
        graph_consistent d h' ∧
        (∀ o, d ∈ observers (obsS h' o) ↔ o ∈ kept) ∧
        (∀ o d', d' ≠ d →
           d' ∈ observers (obsS h' o) ↔ d' ∈ observers (obsS h o)) ∧
        (∀ d', graph_consistent d' h → graph_consistent d' h') ∧
        (∀ o, o ∈ observing (derS h d) → o ∉ kept →
              observers (obsS h' o) = [] →
              isPendingUnobservation (obsS h' o) = true).
Proof.
  intros Hg Hnew Hcount Htake.
  destruct (bindDependencies_graph d h arr kept Hg Hnew Hcount Htake)
    as (h' & Hrun & Hg' & Hobserving & Hothers & Hders & Hpend).
  exists h'. split; [exact Hrun|]. split; [exact Hg'|].
  split; [|split; [exact Hothers|split; [|exact Hpend]]].
  - intros o. destruct Hg' as (_ & _ & Hobs & _).
    rewrite (Hobs o), Hobserving. apply elem_of_first_occurrences.
  - intros d' Hg0. destruct (decide (d' = d)) as [->|Hne]; [done|].
    apply (graph_consistent_other d d' h h');
      [done|done|intros o; by apply Hothers|by apply Hders|done].
Qed.

Lemma run_finished_graph : graph_consistent 5 run_finished.
Proof.
  apply (graph_consistent_ext 5 (heap stale_derivation)); [done|done|].
  apply stale_derivation_graph.
Qed.

Lemma bindDependencies_rebinds_witness :
  ∃ h', bindDependencies 5 run_finished = (Ret tt, h') ∧
        graph_consistent 5 h' ∧
        (∀ o, 5 ∈ observers (obsS h' o) ↔ o ∈ [1; 0; 0; 2]) ∧
        (∀ o d', d' ≠ 5 →
           d' ∈ observers (obsS h' o) ↔ d' ∈ observers (obsS run_finished o)) ∧
        (∀ d', graph_consistent d' run_finished → graph_consistent d' h') ∧
        (∀ o, o ∈ observing (derS run_finished 5) → o ∉ [1; 0; 0; 2] →
              observers (obsS h' o) = [] →
              isPendingUnobservation (obsS h' o) = true).
Proof.
  apply (bindDependencies_rebinds 5 run_finished
           [Some 1; Some 0; Some 0; Some 2; None; None] [1; 0; 0; 2]).
  - apply run_finished_graph.
  - reflexivity.
  - reflexivity.
  - reflexivity.
Defined.

(** X7.  A run of [trackDerivedFunction] keeps the dependency graph
    consistent.  Started on a consistent graph, for a derived function
    whose steps other than reads respect the run and keep the graph
    consistent: afterwards [d] is an observer of exactly the observables
    the function reported, [d.observing] has no duplicates, every observer
    list passes [invariantObservers], and no [diffValue] mark is left; the
    observers other than [d] are those the function left, and the graph is
    consistent around every other derivation around which the function left
    it consistent. *)
Theorem trackDerivedFunction_keeps_graph (d : derivId) (body : list step)
    (result : JsValue) (w : World) :
  run_ids_bounded (heap w) →
  graph_consistent d (heap w) →
  Forall (step_respects d) body →
  Forall (step_keeps_graph d) body →
  let started := tracking_started d (heap w) in
  let ran := (derived_function body result started).2 in
  let w' := (trackDerivedFunction d (derived_function body result) w).2 in
  graph_consistent d (heap w') ∧
  (∀ o, d ∈ observers (obsS (heap w') o) ↔ o ∈ reads_done body started) ∧
  (∀ o d', d' ≠ d →
     d' ∈ observers (obsS (heap w') o) ↔ d' ∈ observers (obsS ran o)) ∧
  (∀ d', graph_consistent d' ran → graph_consistent d' (heap w')) ∧
  (∀ o, invariantObservers o (heap w') = (Ret tt, heap w')).
Proof.
  intros Hbound Hg Hresp Hkeep started ran w'.
  pose proof (graph_consistent_ready d _ Hg) as Hready.
  destruct (trackDerivedFunction_script d body result w Hbound Hready Hresp)
    as (w1 & Hrun & Hbind & Hobserving & _).
  fold started in Hbind, Hobserving. fold ran in Hbind.
  assert (w' = w1) as -> by (subst w'; by rewrite Hrun).
  pose proof (tracking_started_inv d (heap w) Hbound Hready) as Hinv0.
  pose proof (run_steps_inv d _ _ body _ [] Hresp Hinv0) as Hinv.
  fold started in Hinv. cbn [app] in Hinv.
  rewrite <- (derived_function_heap body result) in Hinv. fold ran in Hinv.
  destruct Hinv as (_ & _ & _ & _ & _ & arr & kept & Hnew & Hcount & Htake
                    & _ & _).
  set (h8 := on_glob (with_trackingDerivation
                        (trackingDerivation (glob (heap w)))) ran) in *.
  assert (Hg8 : graph_consistent d h8).
  { apply (graph_consistent_ext d ran); [done|done|]. subst ran.
    rewrite derived_function_heap. apply run_steps_graph; [done|].
    by apply tracking_started_graph. }
  destruct (bindDependencies_graph d h8 arr kept Hg8 Hnew Hcount Htake)
    as (h9 & Hbind9 & Hg9 & _ & Hothers & Hders & _).
  rewrite Hbind in Hbind9. assert (heap w1 = h9) as Hh by congruence.
  rewrite Hh in *.
  split; [exact Hg9|]. split; [|split; [exact Hothers|split]].
  - intros o. destruct Hg9 as (_ & _ & Hobs & _).
    rewrite (Hobs o), Hobserving. apply elem_of_first_occurrences.
  - intros d' Hg0. destruct (decide (d' = d)) as [->|Hne]; [done|].
    apply (graph_consistent_other d d' h8 h9);
      [done|done|intros o; by apply Hothers|by apply Hders|].
    by apply (graph_consistent_ext d' ran).
  - intros o. destruct Hg9 as (_ & _ & _ & Hwf). unfold invariantObservers.
    f_equal. by apply (proj1 (observers_wf_check _) (Hwf o)).
Qed.

Lemma trackDerivedFunction_keeps_graph_witness :
  let started := tracking_started 5 (heap stale_derivation) in
  let ran := (derived_function sample_body (Val 1) started).2 in
  let w' := (trackDerivedFunction 5 (derived_function sample_body (Val 1))
               stale_derivation).2 in
  graph_consistent 5 (heap w') ∧
  (∀ o, 5 ∈ observers (obsS (heap w') o) ↔ o ∈ reads_done sample_body started) ∧
  (∀ o d', d' ≠ 5 →
     d' ∈ observers (obsS (heap w') o) ↔ d' ∈ observers (obsS ran o)) ∧
  (∀ d', graph_consistent d' ran → graph_consistent d' (heap w')) ∧
  (∀ o, invariantObservers o (heap w') = (Ret tt, heap w')).
Proof.
  apply (trackDerivedFunction_keeps_graph 5 sample_body (Val 1)
           stale_derivation).
  - apply stale_derivation_bounded.
  - apply stale_derivation_graph.
  - apply sample_body_respects.
  - apply sample_body_keeps_graph.
Defined.

(** ** [clearObserving] *)

Lemma clearObserving_loop_graph (d : derivId) (deps : list obsId) :
  ∀ h, NoDup deps →
    (∀ o, observers_wf (obsS h o)) →
    (∀ o, o ∈ deps → d ∈ observers (obsS h o)) →
    ∃ h', clearObserving_loop d deps h = (Ret tt, h') ∧
          derS h' = derS h ∧
          (∀ o, observers_wf (obsS h' o)) ∧
          (∀ o d', d' ∈ observers (obsS h' o) ↔
                   d' ∈ observers (obsS h o) ∧ ¬ (d' = d ∧ o ∈ deps)) ∧
          (∀ o, o ∈ deps → observers (obsS h' o) = [] →
                isPendingUnobservation (obsS h' o) = true) ∧
          (∀ o, o ∉ deps → obsS h' o = obsS h o).
Proof.
  induction deps as [|dep rest IH]; intros h Hnd Hwf Hobs.
  - exists h. do 3 (split; [done|]). split; [|split; [|done]].
    + intros o d'. split; [|tauto]. intros Hin. split; [done|].
      by intros (_ & []%elem_of_nil).
    + by intros o []%elem_of_nil.
  - apply NoDup_cons in Hnd as [Hfresh Hnd].
    cbn [clearObserving_loop]. unfold mbind at 1.
    destruct (removeObserver_effect dep d h (Hwf dep))
      as (h1 & -> & Hmem1 & _ & Hwf1 & Hpend1 & _ & Hother1 & Hder1 & _).
    { apply Hobs. by left. }
    destruct (IH h1 Hnd) as (h' & Hrun & Hder & Hwf' & Hmem' & Hpend' & Hframe').
    { intros o. destruct (decide (o = dep)) as [->|Hne]; [done|].
      rewrite Hother1 by done. apply Hwf. }
    { intros o Ho. assert (o ≠ dep) as Hne by (by intros ->).
      rewrite Hother1 by done. apply Hobs. by right. }
    exists h'. split; [exact Hrun|]. split; [by rewrite Hder|].
    split; [exact Hwf'|]. split; [|split].
    + intros o d'. rewrite Hmem', elem_of_cons.
      destruct (decide (o = dep)) as [->|Hne].
      * rewrite Hmem1. split.
        -- intros [[Hin Hn] _]. split; [done|]. by intros [-> _].
        -- intros [Hin Hn]. split; [split; [done|]|].
           ++ intros ->. apply Hn. split; [done|by left].
           ++ by intros [_ ?].
      * rewrite Hother1 by done. split.
        -- intros [Hin Hn]. split; [done|]. intros [-> [?|?]]; [done|].
           by apply Hn.
        -- intros [Hin Hn]. split; [done|]. intros [-> ?]. apply Hn.
           split; [done|by right].
    + intros o [->|Ho]%elem_of_cons Hempty.
      * rewrite Hframe' in Hempty |- * by done. by apply Hpend1.
      * by apply Hpend'.
    + intros o [Hne Ho]%not_elem_of_cons. rewrite Hframe' by done.
      by apply Hother1.
Qed.

(** X8.  [clearObserving(d)], on a graph in which [d] observes exactly the
    observables that list it and the observer lists are well formed:
    it returns normally, [d] ends [NOT_TRACKING] with an empty [observing]
    array and is an observer of nothing; the other observers of every
    observable stay, the lists stay well formed, and every dependency
    left without observers is flagged as pending unobservation. *)
Theorem clearObserving_spec (d : derivId) (h : Heap) :
  NoDup (observing (derS h d)) →
  (∀ o, observers_wf (obsS h o)) →
  (∀ o, d ∈ observers (obsS h o) ↔ o ∈ observing (derS h d)) →
  ∃ h', clearObserving d h = (Ret tt, h') ∧
        observing (derS h' d) = [] ∧
        dependenciesState (derS h' d) = NOT_TRACKING ∧
        (∀ o, d ∉ observers (obsS h' o)) ∧
        (∀ o d', d' ≠ d →
           d' ∈ observers (obsS h' o) ↔ d' ∈ observers (obsS h o)) ∧
        (∀ o, observers_wf (obsS h' o)) ∧
        (∀ o, o ∈ observing (derS h d) → observers (obsS h' o) = [] →
              isPendingUnobservation (obsS h' o) = true) ∧
        (∀ d', d' ≠ d → derS h' d' = derS h d').
Proof.
  intros Hnd Hwf Hobs. unfold clearObserving.
  destruct (clearObserving_loop_graph d (reverse (observing (derS h d))) h)
    as (h1 & Hrun & Hder & Hwf1 & Hmem1 & Hpend1 & _).
  { by rewrite reverse_Permutation. }
  { exact Hwf. }
  { intros o Ho. rewrite elem_of_reverse in Ho. by apply Hobs. }
  unfold mbind at 1. rewrite Hrun. unfold mbind, mlift.
  eexists. split; [done|]. cbn. rewrite !upd_eq. cbn.
  do 2 (split; [done|]). split; [|split; [|split; [done|split]]].
  - intros o Hin. apply Hmem1 in Hin as [Hin Hn]. apply Hn.
    split; [done|]. rewrite elem_of_reverse. by apply Hobs.
  - intros o d' Hne. rewrite Hmem1. split; [by intros [? _]|].
    intros Hin. split; [done|]. by intros [-> _].
  - intros o Ho. apply Hpend1. by rewrite elem_of_reverse.
  - intros d' Hne. rewrite !upd_ne by done. by rewrite Hder.
Qed.

Lemma clearObserving_spec_witness :
  ∃ h', clearObserving 5 (heap stale_derivation) = (Ret tt, h') ∧
        observing (derS h' 5) = [] ∧
        dependenciesState (derS h' 5) = NOT_TRACKING ∧
        (∀ o, 5 ∉ observers (obsS h' o)) ∧
        (∀ o d', d' ≠ 5 →
           d' ∈ observers (obsS h' o) ↔
           d' ∈ observers (obsS (heap stale_derivation) o)) ∧
        (∀ o, observers_wf (obsS h' o)) ∧
        (∀ o, o ∈ observing (derS (heap stale_derivation) 5) →
              observers (obsS h' o) = [] →
              isPendingUnobservation (obsS h' o) = true) ∧
        (∀ d', d' ≠ 5 → derS h' d' = derS (heap stale_derivation) d').
Proof.
  destruct stale_derivation_graph as (_ & Hnd & Hobs & Hwf).
  exact (clearObserving_spec 5 (heap stale_derivation) Hnd Hwf Hobs).
Defined.

(** ** Reads *)

Lemma reportObserved_after (o : obsId) (h : Heap) :
  let h' := (reportObserved o h).2 in
  trackingDerivation (glob h') = trackingDerivation (glob h) ∧
  match trackingDerivation (glob h) with
  | Some d => runId (derS h' d) = lastAccessedBy (obsS h' o)
  | None =>
      observers (obsS h' o) = observers (obsS h o) ∧
      (length (observers (obsS h o)) = 0 →
       isPendingUnobservation (obsS h' o) = true)
  end.
Proof.
  unfold reportObserved.
  destruct (trackingDerivation (glob h)) as [d|] eqn:Htr.
  - destruct (decide (runId (derS h d) = lastAccessedBy (obsS h o)))
      as [Heq|Hne].
    + by rewrite decide_False by (by intros ?).
    + rewrite decide_True by done. cbn. rewrite !upd_eq. cbn.
      destruct (newObserving (derS h d)); cbn; by rewrite !upd_eq.
  - case_decide as Hlen; cbn [snd]; [|done].
    destruct (queueForUnobservation_frame o h) as (_ & -> & _).
    by destruct (queueForUnobservation_obsS o h) as (-> & _ & _ & _ & _ & ->).
Qed.

(** X9.  Reporting the same observable twice in a row: the second
    [reportObserved] returns normally and changes nothing, whatever the
    first did, so one read adds at most one entry to [newObserving] and at
    most one entry to the queue of unobservations. *)
Theorem reportObserved_idempotent (o : obsId) (h : Heap) :
  reportObserved o (reportObserved o h).2 = (Ret tt, (reportObserved o h).2).
Proof.
  destruct (reportObserved_after o h) as [Htr Hafter].
  set (h' := (reportObserved o h).2) in *.
  unfold reportObserved. rewrite Htr.
  destruct (trackingDerivation (glob h)) as [d|].
  - by rewrite decide_False by (by rewrite Hafter; intros ?).
  - destruct Hafter as [Hl Hp]. rewrite Hl. case_decide as Hlen; [|done].
    unfold queueForUnobservation. by rewrite Hp.
Qed.

(** X10.  A read inside [untracked] is not recorded: [untracked] around
    [get] returns the stored value, leaves every derivation and every
    [lastAccessedBy] stamp as they were and puts the tracking derivation
    back.  There is no [finally] in [untracked]: when the action throws,
    no derivation is tracking afterwards. *)
Theorem untracked_get (o : obsId) (h : Heap) :
  let r := untracked (get o) h in
  r.1 = Ret (value (ovS h o)) ∧
  derS r.2 = derS h ∧
  trackingDerivation (glob r.2) = trackingDerivation (glob h) ∧
  (∀ o', lastAccessedBy (obsS r.2 o') = lastAccessedBy (obsS h o') ∧
         observers (obsS r.2 o') = observers (obsS h o')) ∧
  (∀ e, trackingDerivation (glob (untracked (mraise (A := JsValue) e) h).2)
          = None).
Proof.
  cbn zeta. split; [|split; [|split; [|split; [|done]]]];
    unfold untracked, untrackedStart, get;
    set (h1 := on_glob (with_trackingDerivation None) h);
    (assert (reportObserved o h1 =
              (Ret tt, if decide (length (observers (obsS h o)) = 0)
                       then queueForUnobservation o h1 else h1)) as ->
       by (unfold reportObserved; cbn; by case_decide));
    destruct (queueForUnobservation_frame o h1) as (Hder & _ & Hother);
    destruct (queueForUnobservation_obsS o h1) as (Hl & _ & _ & Hla & _);
    destruct (queueForUnobservation_glob o h1) as (Hov & _).
  - cbn. case_decide; [by rewrite Hov|done].
  - cbn. case_decide; [by rewrite Hder|done].
  - done.
  - intros o'. cbn. case_decide; [|done].
    destruct (decide (o' = o)) as [->|Hne]; [by rewrite Hl, Hla|].
    by rewrite Hother.
Qed.

(** ** [shouldCompute] when a [get] throws *)

Lemma shouldCompute_loop_skip (E : Externals) (d : derivId)
    (prev : option derivId) (pre rest : list obsId) (w : World) :
  Forall (λ x, isComputedValue E x = false) pre →
  shouldCompute_loop E d prev (pre ++ rest) w =
    shouldCompute_loop E d prev rest w.
Proof.
  induction 1 as [|x pre Hx _ IH]; [done|].
  cbn [app shouldCompute_loop]. by rewrite Hx.
Qed.

(** X11.  [shouldCompute] swallows an exception of a dependency: when [d]
    is [POSSIBLY_STALE] and the first computed value among its
    dependencies throws from [get], [shouldCompute] answers [true], puts
    the tracking derivation back, calls no further [get] and leaves the
    state otherwise as the failed [get] left it ([d] is not set back to
    [UP_TO_DATE]). *)
Theorem shouldCompute_get_throws (E : Externals) (d : derivId) (w : World)
    (pre post : list obsId) (o : obsId) (e : Exn) (h1 : Heap) :
  dependenciesState (derS (heap w) d) = POSSIBLY_STALE →
  observing (derS (heap w) d) = pre ++ o :: post →
  Forall (λ x, isComputedValue E x = false) pre →
  isComputedValue E o = true →
  computedGet E o (on_glob (with_trackingDerivation None) (heap w))
    = (Raise e, h1) →
  shouldCompute E d w =
    (true,
     mkWorld (untrackedEnd (trackingDerivation (glob (heap w))) h1)
       (trace w ++ [EGet o])).
Proof.
  intros Hs Hobs Hpre Ho Hget. unfold shouldCompute. rewrite Hs.
  cbn [untrackedStart].
  change (observing (derS (on_glob (with_trackingDerivation None) (heap w)) d))
    with (observing (derS (heap w) d)).
  rewrite Hobs, shouldCompute_loop_skip by done.
  cbn [shouldCompute_loop]. rewrite Ho. unfold call_ext. cbn [heap trace].
  by rewrite Hget.
Qed.

Lemma shouldCompute_get_throws_witness :
  shouldCompute throwing_get 5 possibly_stale =
    (true,
     mkWorld (untrackedEnd (Some 9)
                (on_glob (with_trackingDerivation None) (heap possibly_stale)))
       [EGet 1]).
Proof.
  apply (shouldCompute_get_throws throwing_get 5 possibly_stale [0] [2] 1
           (UserExn 1)).
  - reflexivity.
  - reflexivity.
  - by repeat constructor.
  - reflexivity.
  - reflexivity.
Defined.

(** ** [lowestObserverState] as a lower bound *)

Lemma foldl_min_ge {A} (f : A → Z) (l : list A) (a x : Z) :
  (foldl (λ a b, Z.min a (f b)) a l >= x)%Z ↔
  (a >= x)%Z ∧ ∀ d, d ∈ l → (f d >= x)%Z.
Proof.
  revert a. induction l as [|b l IH]; intros a; cbn [foldl].
  - split; [|by intros [? _]]. intros Ha. split; [done|].
    by intros d ?%elem_of_nil.
  - rewrite IH. split.
    + intros [Hmin Hl]. split; [lia|].
      intros d [->|Hd]%elem_of_cons; [lia|by apply Hl].
    + intros [Ha Hl]. split.
      * specialize (Hl b (list_elem_of_here _ _)). lia.
      * intros d Hd. apply Hl. by right.
Qed.

Lemma state_num_le_2 (s : IDerivationState) : (state_num s ≤ 2)%Z.
Proof. destruct s; cbn; lia. Qed.

Lemma invariantLOS_bound (o : obsId) (h : Heap) :
  invariantLOS o h = true ↔ lowest_is_lower_bound o h.
Proof.
  unfold invariantLOS, lowest_is_lower_bound, getObservers.
  rewrite bool_decide_eq_true, foldl_min_ge. split.
  - intros [_ Hl] d Hd. specialize (Hl d Hd). lia.
  - intros Hl. split.
    + pose proof (state_num_le_2 (lowestObserverState (obsS h o))). lia.
    + intros d Hd. specialize (Hl d Hd). lia.
Qed.

(** X12.  [invariantLOS] returns without throwing exactly when
    [lowestObserverState] is at most the state of every observer
    (invariant I5), and throws exactly when some observer is in a state
    below [lowestObserverState]; the start value 2 of its [reduce] never
    decides. *)
Theorem invariantLOS_spec (o : obsId) (h : Heap) :
  (invariantLOS o h = true ↔ lowest_is_lower_bound o h) ∧
  (invariantLOS o h = false ↔
   ∃ d, d ∈ observers (obsS h o) ∧
        (state_num (dependenciesState (derS h d))
           < state_num (lowestObserverState (obsS h o)))%Z).
Proof.
  split; [apply invariantLOS_bound|].
  rewrite <- not_true_iff_false, invariantLOS_bound.
  unfold lowest_is_lower_bound. split.
  - intros Hn.
    destruct (decide (Exists (λ d,
                (state_num (dependenciesState (derS h d))
                   < state_num (lowestObserverState (obsS h o)))%Z)
              (observers (obsS h o)))) as [He|He].
    + by apply Exists_exists in He.
    + exfalso. apply Hn. intros d Hd.
      destruct (decide (state_num (lowestObserverState (obsS h o))
                          ≤ state_num (dependenciesState (derS h d)))%Z)
        as [|Hlt]; [done|].
      exfalso. apply He, Exists_exists. exists d. split; [done|lia].
  - intros (d & Hd & Hlt) Hl. specialize (Hl d Hd). lia.
Qed.

(** X13.  [addObserver] keeps [lowestObserverState] a lower bound: when
    [invariantLOS] passes before the call, it passes after it, on every
    observable. *)
Theorem addObserver_keeps_invariantLOS (o o' : obsId) (node : derivId)
    (h : Heap) :
  invariantLOS o' h = true →
  invariantLOS o' (addObserver o node h) = true.
Proof.
  rewrite !invariantLOS_bound. intros Hl d Hd.
  destruct (addObserver_frame o node h) as (-> & _ & _ & Hother).
  destruct (decide (o' = o)) as [->|Hne].
  - destruct (addObserver_obsS o node h) as (Hobs & _ & _ & _ & _ & Hlos).
    rewrite Hobs in Hd. rewrite Hlos.
    apply elem_of_app in Hd as [Hd|Hd].
    + specialize (Hl d Hd). lia.
    + apply list_elem_of_singleton in Hd as ->. lia.
  - rewrite Hother in Hd |- * by done. by apply Hl.
Qed.

Lemma addObserver_keeps_invariantLOS_witness :
  invariantLOS 0 (addObserver 0 3 (heap two_observers)) = true.
Proof.
  apply (addObserver_keeps_invariantLOS 0 0 3 (heap two_observers)).
  reflexivity.
Defined.

Lemma changeDependenciesStateTo0_fold_los (os : list obsId) (h : Heap)
    (o : obsId) :
  lowestObserverState
    (obsS (foldl (λ h' o', on_obs o' (with_lowestObserverState UP_TO_DATE) h')
             h os) o) =
    if decide (o ∈ os) then UP_TO_DATE else lowestObserverState (obsS h o).
Proof.
  revert h. induction os as [|x os IH]; intros h; cbn [foldl].
  - by rewrite decide_False by (by intros ?%elem_of_nil).
  - rewrite IH. destruct (decide (o ∈ os)) as [Hin|Hin].
    + rewrite decide_True; [done|]. by right.
    + cbn. destruct (decide (o = x)) as [->|Hne].
      * rewrite upd_eq. rewrite decide_True; [done|]. by left.
      * rewrite upd_ne by done.
        rewrite decide_False; [done|]. by intros [?|?]%elem_of_cons.
Qed.

Lemma changeDependenciesStateTo0_los (d : derivId) (h : Heap) (o : obsId) :
  lowestObserverState (obsS (changeDependenciesStateTo0 d h) o) =
    if decide (dependenciesState (derS h d) ≠ UP_TO_DATE ∧
               o ∈ observing (derS h d))
    then UP_TO_DATE else lowestObserverState (obsS h o).
Proof.
  unfold changeDependenciesStateTo0. case_decide as Hs.
  - by rewrite decide_False by (by intros [? _]).
  - rewrite changeDependenciesStateTo0_fold_los. cbn -[reverse].
    rewrite upd_eq. cbn -[reverse].
    destruct (decide (o ∈ observing (derS h d))) as [Hin|Hin].
    + rewrite decide_True by (by rewrite elem_of_reverse).
      by rewrite decide_True.
    + rewrite decide_False by (by rewrite elem_of_reverse).
      by rewrite decide_False by (by intros [_ ?]).
Qed.

Lemma changeDependenciesStateTo0_states (d d' : derivId) (h : Heap) :
  dependenciesState (derS (changeDependenciesStateTo0 d h) d') =
    if decide (d' = d) then UP_TO_DATE else dependenciesState (derS h d').
Proof.
  case_decide as Hd; [subst; apply changeDependenciesStateTo0_state|].
  unfold changeDependenciesStateTo0. case_decide; [done|].
  rewrite changeDependenciesStateTo0_fold_derS. cbn. by rewrite upd_ne.
Qed.

(** X14.  [changeDependenciesStateTo0(d)] keeps [lowestObserverState] a
    lower bound on an observable [o] that [d] observes whenever [o] lists
    [d], and none of whose observers is [NOT_TRACKING]: when [invariantLOS]
    passes on [o] before the call, it passes after it; [d] itself ends
    [UP_TO_DATE]. *)
Theorem changeDependenciesStateTo0_keeps_invariantLOS (d : derivId)
    (o : obsId) (h : Heap) :
  (d ∈ observers (obsS h o) → o ∈ observing (derS h d)) →
  observers_tracking o h →
  invariantLOS o h = true →
  invariantLOS o (changeDependenciesStateTo0 d h) = true ∧
  dependenciesState (derS (changeDependenciesStateTo0 d h) d) = UP_TO_DATE.
Proof.
  intros Hgraph Htracking. rewrite !invariantLOS_bound. intros Hl.
  split; [|apply changeDependenciesStateTo0_state].
  intros d' Hd'.
  destruct (changeDependenciesStateTo0_obsS d h o) as (_ & _ & Hobs & _).
  cbn zeta in Hobs. rewrite Hobs in Hd'.
  rewrite changeDependenciesStateTo0_los, changeDependenciesStateTo0_states.
  pose proof (Htracking d' Hd') as Htr. specialize (Hl d' Hd').
  destruct (decide (dependenciesState (derS h d) ≠ UP_TO_DATE ∧
                    o ∈ observing (derS h d))) as [[Hs Hin]|Hn].
  - case_decide; [done|].
    destruct (dependenciesState (derS h d')); cbn; try lia. done.
  - case_decide as Hdd; [|done]. subst d'.
    destruct (decide (dependenciesState (derS h d) = UP_TO_DATE)) as [Hu|Hu].
    + by rewrite Hu in Hl.
    + exfalso. apply Hn. split; [done|]. by apply Hgraph.
Qed.

Lemma changeDependenciesStateTo0_keeps_invariantLOS_witness :
  invariantLOS 3 (changeDependenciesStateTo0 5 (heap stale_derivation)) = true ∧
  dependenciesState
    (derS (changeDependenciesStateTo0 5 (heap stale_derivation)) 5)
    = UP_TO_DATE.
Proof.
  apply (changeDependenciesStateTo0_keeps_invariantLOS 5 3
           (heap stale_derivation)).
  - intros _. vm_compute. by left.
  - intros d Hd. change (d ∈ [5]) in Hd.
    apply list_elem_of_singleton in Hd as ->. by vm_compute.
  - reflexivity.
Defined.

Lemma confirmed_loop_obsS (o : obsId) (ds : list derivId) (h : Heap)
    (o' : obsId) :
  observers (obsS (propagateChangeConfirmed_loop o ds h) o') =
    observers (obsS h o') ∧
  (o' ≠ o → obsS (propagateChangeConfirmed_loop o ds h) o' = obsS h o').
Proof.
  revert h. induction ds as [|x ds IH]; intros h; [done|].
  cbn [propagateChangeConfirmed_loop].
  destruct (decide (dependenciesState (derS h x) = POSSIBLY_STALE)).
  - destruct (IH (on_der x (with_dependenciesState STALE) h)) as [-> Hother].
    split; [done|]. intros Hne. by rewrite Hother.
  - destruct (decide (dependenciesState (derS h x) = UP_TO_DATE)); [|apply IH].
    destruct (IH (on_obs o (with_lowestObserverState UP_TO_DATE) h))
      as [-> Hother].
    split.
    + cbn. unfold upd. by case_decide; subst.
    + intros Hne. rewrite Hother by done. cbn. by rewrite upd_ne.
Qed.

(** X15.  [propagateChangeConfirmed(obs)] leaves [lowestObserverState] a
    lower bound.  When no observer of [obs] is [NOT_TRACKING], and
    [invariantLOS] passes on [obs] in case the call is a no-op,
    [invariantLOS] passes on [obs] after the call; and on every other
    observable it passes after the call if it passed before. *)
Theorem propagateChangeConfirmed_keeps_invariantLOS (o : obsId) (h : Heap) :
  observers_tracking o h →
  (lowestObserverState (obsS h o) = STALE → invariantLOS o h = true) →
  let h' := propagateChangeConfirmed o h in
  invariantLOS o h' = true ∧
  ∀ o', o' ≠ o → invariantLOS o' h = true → invariantLOS o' h' = true.
Proof.
  intros Htracking Hnoop h'. subst h'. unfold propagateChangeConfirmed.
  destruct (decide (lowestObserverState (obsS h o) = STALE)) as [Hs|Hs].
  { split; [by apply Hnoop|done]. }
  set (h1 := on_obs o (with_lowestObserverState STALE) h).
  assert (Hobs1 : observers (obsS h1 o) = observers (obsS h o))
    by (subst h1; cbn; by rewrite upd_eq).
  assert (Hder1 : derS h1 = derS h) by done.
  rewrite Hobs1. set (ds := reverse (observers (obsS h o))).
  split.
  - apply invariantLOS_bound. intros d Hd.
    destruct (confirmed_loop_obsS o ds h1 o) as [Hl _].
    rewrite Hl, Hobs1 in Hd.
    rewrite confirmed_loop_los, confirmed_loop_derS, Hder1.
    pose proof (Htracking d Hd) as Htr.
    destruct (decide (Exists _ ds)) as [He|He].
    + case_decide; cbn; [lia|].
      destruct (dependenciesState (derS h d)); cbn; try lia. done.
    + subst h1. cbn. rewrite upd_eq. cbn.
      case_decide as Hc; cbn; [lia|].
      assert (d ∈ ds) as Hin by (subst ds; by rewrite elem_of_reverse).
      destruct (dependenciesState (derS h d)) eqn:Hd'; cbn; try lia; try done.
      * exfalso. apply He, Exists_exists. by exists d.
      * exfalso. by apply Hc.
  - intros o' Hne. rewrite !invariantLOS_bound. intros Hl d Hd.
    destruct (confirmed_loop_obsS o ds h1 o') as [_ Hother].
    rewrite Hother in Hd |- * by done.
    assert (obsS h1 o' = obsS h o') as Hsame
      by (subst h1; cbn; by rewrite upd_ne).
    rewrite Hsame in Hd |- *. specialize (Hl d Hd).
    rewrite confirmed_loop_derS, Hder1. case_decide; [|done].
    pose proof (state_num_le_2 (lowestObserverState (obsS h o'))).
    cbn. lia.
Qed.

Lemma propagateChangeConfirmed_keeps_invariantLOS_witness :
  let h' := propagateChangeConfirmed 0 confirming in
  invariantLOS 0 h' = true ∧
  ∀ o', o' ≠ 0 → invariantLOS o' confirming = true →
        invariantLOS o' h' = true.
Proof.
  apply (propagateChangeConfirmed_keeps_invariantLOS 0 confirming).
  - intros d Hd. change (d ∈ [2; 1]) in Hd.
    rewrite !elem_of_cons, elem_of_nil in Hd.
    destruct Hd as [->|[->|[]]]; by vm_compute.
  - intros Hs. by vm_compute in Hs.
Defined.

(** ** [propagateMaybeChanged] *)

Section MaybeChanged.
Context (E : Externals).

Lemma visit_observers_maybe_app l1 l2 w :
  visit_observers_maybe E (l1 ++ l2) w =
    visit_observers_maybe E l2 (visit_observers_maybe E l1 w).
Proof. revert w. induction l1 as [|d l1 IH]; intros w; [done|]. cbn. apply IH. Qed.

Lemma propagateMaybeChanged_visit_observers o d w :
  hooks_keep_observers E o →
  observers (obsS (heap (propagateMaybeChanged_visit E d w)) o) =
    observers (obsS (heap w) o).
Proof.
  intros Hk. unfold propagateMaybeChanged_visit.
  destruct (decide (_ = UP_TO_DATE)); [|done]. cbn. by rewrite Hk.
Qed.

Lemma propagateMaybeChanged_loop_visit o i w :
  hooks_keep_observers E o →
  i ≤ length (observers (obsS (heap w) o)) →
  propagateMaybeChanged_loop E o i w =
    (Ret tt,
     visit_observers_maybe E
       (reverse (take i (observers (obsS (heap w) o)))) w).
Proof.
  intros Hk. revert w. induction i as [|i IH]; intros w Hi.
  - by rewrite take_0.
  - cbn [propagateMaybeChanged_loop].
    destruct (observers (obsS (heap w) o) !! i) as [d|] eqn:Hd.
    2:{ apply lookup_ge_None in Hd. lia. }
    rewrite (take_S_r _ _ _ Hd), reverse_snoc. cbn [visit_observers_maybe].
    change (if decide (dependenciesState (derS (heap w) d) = UP_TO_DATE)
            then call_hook (EOnBecomeStale d) (onBecomeStale E d)
                   (on_heap (on_der d (with_dependenciesState POSSIBLY_STALE))
                      w)
            else w) with (propagateMaybeChanged_visit E d w).
    rewrite IH by (rewrite propagateMaybeChanged_visit_observers by done; lia).
    by rewrite propagateMaybeChanged_visit_observers.
Qed.

Lemma visit_observers_maybe_states ds w d :
  hooks_never_refresh E →
  d ∈ ds ∨ dependenciesState (derS (heap w) d) ≠ UP_TO_DATE →
  dependenciesState (derS (heap (visit_observers_maybe E ds w)) d)
    ≠ UP_TO_DATE.
Proof.
  intros Hk. revert w. induction ds as [|x ds IH]; intros w Hd.
  - destruct Hd as [Hd|Hd]; [by apply elem_of_nil in Hd|done].
  - cbn [visit_observers_maybe]. apply IH.
    destruct (decide (d ∈ ds)) as [Hin|Hin]; [by left|]. right.
    assert (d = x ∨ dependenciesState (derS (heap w) d) ≠ UP_TO_DATE) as Hd'.
    { destruct Hd as [Hd|Hd]; [|by right].
      apply elem_of_cons in Hd as [?|?]; [by left|done]. }
    unfold propagateMaybeChanged_visit.
    destruct (decide (dependenciesState (derS (heap w) x) = UP_TO_DATE))
      as [Hx|Hx].
    + cbn. apply Hk. cbn. unfold upd. case_decide as Hdx; [done|].
      by destruct Hd' as [?|?].
    + by destruct Hd' as [->|?].
Qed.
End MaybeChanged.

Lemma visit_observers_maybe_lowest (E : Externals) (o : obsId)
    (ds : list derivId) (w : World) :
  hooks_keep_lowest E o →
  lowestObserverState (obsS (heap (visit_observers_maybe E ds w)) o) =
    lowestObserverState (obsS (heap w) o).
Proof.
  intros Hk. revert w. induction ds as [|x ds IH]; intros w; [done|].
  cbn [visit_observers_maybe]. rewrite IH. unfold propagateMaybeChanged_visit.
  destruct (decide (_ = UP_TO_DATE)); [|done]. cbn. by rewrite Hk.
Qed.

(** X16.  [propagateMaybeChanged(obs)] returns at once, with nothing
    changed and no hook called, unless [obs.lowestObserverState] is
    [UP_TO_DATE].  Otherwise it sets that field to [POSSIBLY_STALE] and
    visits the observers from the last to the first: an observer that is
    [UP_TO_DATE] when its turn comes is first set to [POSSIBLY_STALE] and
    then gets its [onBecomeStale] called; any other observer is left as it
    is and no call is made for it; at the end no observer is [UP_TO_DATE].
    The hooks are assumed to leave [obs.observers] and
    [obs.lowestObserverState] alone and never to make a derivation
    [UP_TO_DATE]. *)
Theorem propagateMaybeChanged_spec (E : Externals) (o : obsId) (w : World) :
  hooks_keep_observers E o →
  hooks_never_refresh E →
  hooks_keep_lowest E o →
  let w' := (propagateMaybeChanged E o w).2 in
  let ds := reverse (observers (obsS (heap w) o)) in
  let w1 := on_heap (on_obs o (with_lowestObserverState POSSIBLY_STALE)) w in
  (lowestObserverState (obsS (heap w) o) ≠ UP_TO_DATE →
     propagateMaybeChanged E o w = (Ret tt, w)) ∧
  (lowestObserverState (obsS (heap w) o) = UP_TO_DATE →
     propagateMaybeChanged E o w = (Ret tt, visit_observers_maybe E ds w1) ∧
     lowestObserverState (obsS (heap w') o) = POSSIBLY_STALE ∧
     (∀ d, d ∈ observers (obsS (heap w) o) →
           dependenciesState (derS (heap w') d) ≠ UP_TO_DATE) ∧
     (∀ pre d post, ds = pre ++ d :: post →
        let visited := visit_observers_maybe E pre w1 in
        visit_observers_maybe E (pre ++ [d]) w1 =
          if decide (dependenciesState (derS (heap visited) d) = UP_TO_DATE)
          then call_hook (EOnBecomeStale d) (onBecomeStale E d)
                 (on_heap (on_der d (with_dependenciesState POSSIBLY_STALE))
                    visited)
          else visited)).
Proof.
  intros Hobs Hrefresh Hlow w' ds w1. subst w'. unfold propagateMaybeChanged.
  split; intros Hlos.
  - by rewrite decide_False.
  - rewrite decide_True by done. fold w1.
    assert (Hsame : observers (obsS (heap w1) o) =
                      observers (obsS (heap w) o)).
    { subst w1. cbn. by rewrite upd_eq. }
    rewrite (propagateMaybeChanged_loop_visit E o _ w1 Hobs) by done.
    rewrite firstn_all, Hsame. fold ds. cbn [snd].
    split; [done|]. split; [|split].
    + rewrite visit_observers_maybe_lowest by done. subst w1. cbn.
      by rewrite upd_eq.
    + intros d Hin. apply visit_observers_maybe_states; [done|].
      left. subst ds. by apply elem_of_reverse.
    + intros pre d post _. by rewrite visit_observers_maybe_app.
Qed.

Lemma pass_on_stale_never_refreshes : hooks_never_refresh passing_on.
Proof.
  intros d' d h Hd. cbn. unfold pass_on_stale.
  destruct (decide (_ = UP_TO_DATE)) as [Hu|Hu]; [|done].
  cbn. unfold upd. by case_decide.
Qed.

(** Derivation 1 is visited first and its hook makes derivation 2 possibly
    stale, so only one hook is called; neither is up to date at the end. *)
Lemma propagateMaybeChanged_spec_witness :
  trace (propagateMaybeChanged passing_on 0 two_observers).2
    = [EOnBecomeStale 1] ∧
  lowestObserverState
    (obsS (heap (propagateMaybeChanged passing_on 0 two_observers).2) 0)
    = POSSIBLY_STALE ∧
  dependenciesState
    (derS (heap (propagateMaybeChanged passing_on 0 two_observers).2) 2)
    ≠ UP_TO_DATE.
Proof.
  destruct (propagateMaybeChanged_spec passing_on 0 two_observers
              (pass_on_stale_keeps_observers 0) pass_on_stale_never_refreshes
              (pass_on_stale_keeps_lowest 0)) as [_ Hspec].
  destruct Hspec as (Hrun & Hlos & Hstates & _); [reflexivity|].
  split; [by rewrite Hrun|]. split; [exact Hlos|].
  apply Hstates. vm_compute. by left.
Defined.

(** ** Batches that end *)

Lemma drain_visit_quiet (E : Externals) (x : obsId) (w : World) :
  unobserved_hooks_quiet E →
  let w1 := drain_visit E x w in
  queueEpoch (heap w1) = queueEpoch (heap w) ∧
  pendingUnobservations (glob (heap w1)) =
    pendingUnobservations (glob (heap w)) ∧
  trace w1 = trace w ++
    (if decide (length (observers (obsS (heap w) x)) = 0)
     then [EOnBecomeUnobserved x] else []) ∧
  (∀ o, observers (obsS (heap w1) o) = observers (obsS (heap w) o)) ∧
  (∀ o, isPendingUnobservation (obsS (heap w1) o) =
        if decide (o = x) then false
        else isPendingUnobservation (obsS (heap w) o)).
Proof.
  intros Hq. unfold drain_visit. cbn [on_heap heap trace].
  set (h1 := on_obs x (with_isPendingUnobservation false) (heap w)).
  assert (Hobs1 : ∀ o, observers (obsS h1 o) = observers (obsS (heap w) o)).
  { intros o. subst h1. cbn. unfold upd. by case_decide; subst. }
  assert (Hflag1 : ∀ o, isPendingUnobservation (obsS h1 o) =
                        if decide (o = x) then false
                        else isPendingUnobservation (obsS (heap w) o)).
  { intros o. subst h1. unfold on_obs, set_obs. cbn [obsS].
    destruct (decide (o = x)) as [->|Hne];
      [by rewrite upd_eq|by rewrite upd_ne]. }
  fold h1. rewrite Hobs1.
  case_decide as Hlen; cbn [call_hook on_heap heap trace]; fold h1.
  - destruct (Hq x h1) as (Hep & Hqueue & Hrest). rewrite Hep, Hqueue.
    do 3 (split; [done|]).
    split; intros o; destruct (Hrest o) as [Ho Hf]; by rewrite ?Ho, ?Hf.
  - by rewrite app_nil_r.
Qed.

Lemma drain_quiet (E : Externals) (fuel : nat) :
  unobserved_hooks_quiet E →
  ∀ i w,
    length (pendingUnobservations (glob (heap w))) ≤ i + fuel →
    let q := pendingUnobservations (glob (heap w)) in
    let r := drainUnobservations E (queueEpoch (heap w)) fuel i w in
    r.2 = true ∧
    queueEpoch (heap r.1) = queueEpoch (heap w) ∧
    pendingUnobservations (glob (heap r.1)) = q ∧
    trace r.1 = trace w ++ map EOnBecomeUnobserved
      (filter (λ o, length (observers (obsS (heap w) o)) = 0) (drop i q)) ∧
    (∀ o, observers (obsS (heap r.1) o) = observers (obsS (heap w) o)) ∧
    (∀ o, isPendingUnobservation (obsS (heap r.1) o) =
          if decide (o ∈ drop i q) then false
          else isPendingUnobservation (obsS (heap w) o)).
Proof.
  intros Hq.
  assert (Hcq : ∀ w0, captured_queue (queueEpoch (heap w0)) (heap w0) =
                      pendingUnobservations (glob (heap w0))).
  { intros w0. unfold captured_queue. by rewrite decide_True. }
  induction fuel as [|fuel IH]; intros i w Hlen q r.
  - subst r. cbn [drainUnobservations]. rewrite Hcq.
    assert (q !! i = None) as Hi by (apply lookup_ge_None; subst q; lia).
    fold q. rewrite Hi. cbn [fst snd].
    rewrite drop_ge by (subst q; lia). cbn. rewrite app_nil_r.
    do 5 (split; [done|]). intros o.
    by rewrite decide_False by (by intros ?%elem_of_nil).
  - subst r. cbn [drainUnobservations]. rewrite Hcq. fold q.
    destruct (q !! i) as [x|] eqn:Hi.
    2:{ cbn [fst snd]. apply lookup_ge_None in Hi. rewrite drop_ge by done.
        cbn. rewrite app_nil_r. do 5 (split; [done|]). intros o.
        by rewrite decide_False by (by intros ?%elem_of_nil). }
    destruct (drain_visit_quiet E x w Hq)
      as (Hep1 & Hqueue1 & Htr1 & Hobs1 & Hflag1).
    set (w1 := drain_visit E x w) in *.
    destruct (IH (S i) w1) as (Hfin & Hep & Hqueue & Htr & Hobs & Hflag).
    { rewrite Hqueue1. lia. }
    rewrite Hep1 in Hfin, Hep, Hqueue, Htr, Hobs, Hflag.
    rewrite Hqueue1 in Hqueue, Htr, Hflag. fold q in Hqueue, Htr, Hflag.
    split; [exact Hfin|]. split; [exact Hep|]. split; [exact Hqueue|].
    rewrite (drop_S _ _ _ Hi). split; [|split].
    + rewrite Htr, Htr1, <- app_assoc. f_equal.
      rewrite (list_filter_iff
                 (λ o, length (observers (obsS (heap w1) o)) = 0)
                 (λ o, length (observers (obsS (heap w) o)) = 0))
        by (intros o; by rewrite Hobs1).
      case_decide as Hx.
      * by rewrite filter_cons_True.
      * by rewrite filter_cons_False.
    + intros o. by rewrite Hobs, Hobs1.
    + intros o. rewrite Hflag, Hflag1.
      destruct (decide (o ∈ drop (S i) q)) as [Hin|Hin].
      * rewrite decide_True; [done|]. by right.
      * destruct (decide (o = x)) as [->|Hne].
        -- rewrite decide_True; [done|]. by left.
        -- rewrite decide_False; [done|]. by intros [?|?]%elem_of_cons.
Qed.

Lemma idle_quiet : unobserved_hooks_quiet idle.
Proof. by intros o h. Qed.

(** X17.  The outermost [endBatch] ends.  When the [onBecomeUnobserved]
    hooks leave the queue, the pending flags and the observer lists alone,
    as many rounds as the queue is long after [runReactions] are enough:
    the drain runs to its end, [onBecomeUnobserved] is called, in queue
    order, on exactly the queued observables that have no observer, every
    queued observable has its flag cleared, and the queue ends empty. *)
Theorem endBatch_drains (E : Externals) (w : World) :
  inBatch (glob (heap w)) = 1%Z →
  unobserved_hooks_quiet E →
  let closed := on_heap (on_glob (λ g, with_inBatch (inBatch g - 1)%Z g)) w in
  let reacted := call_hook ERunReactions (runReactions E) closed in
  let q := pendingUnobservations (glob (heap reacted)) in
  let r := endBatch E (length q) w in
  r.2 = true ∧
  pendingUnobservations (glob (heap r.1)) = [] ∧
  trace r.1 = trace w ++ ERunReactions :: map EOnBecomeUnobserved
    (filter (λ o, length (observers (obsS (heap reacted) o)) = 0) q) ∧
  (∀ o, o ∈ q → isPendingUnobservation (obsS (heap r.1) o) = false).
Proof.
  intros Hb Hq closed reacted q r. subst r.
  rewrite (endBatch_outermost E (length q) w Hb). fold closed. fold reacted.
  destruct (drain_quiet E (length q) Hq 0 reacted)
    as (Hfin & _ & Hqueue & Htr & _ & Hflag).
  { subst q. lia. }
  fold q in Hqueue, Htr, Hflag. rewrite drop_0 in Htr, Hflag.
  destruct (drainUnobservations E _ (length q) 0 reacted) as [w3 fin].
  cbn [fst snd] in *. subst fin. cbn [fst snd].
  split; [done|]. split; [done|]. split.
  - cbn [on_heap trace]. rewrite Htr. subst reacted. cbn [call_hook trace].
    by rewrite <- app_assoc.
  - intros o Ho. cbn. rewrite Hflag. by rewrite decide_True.
Qed.

Lemma endBatch_drains_witness :
  (endBatch idle 2 two_pending).2 = true ∧
  pendingUnobservations (glob (heap (endBatch idle 2 two_pending).1)) = [] ∧
  trace (endBatch idle 2 two_pending).1 =
    [ERunReactions; EOnBecomeUnobserved 0; EOnBecomeUnobserved 1] ∧
  (∀ o, o ∈ [0; 1] →
        isPendingUnobservation
          (obsS (heap (endBatch idle 2 two_pending).1) o) = false).
Proof.
  apply (endBatch_drains idle two_pending).
  - reflexivity.
  - apply idle_quiet.
Defined.

(** X18.  A nested batch is a round trip: inside a batch, [startBatch]
    followed by [endBatch] gives back the very same state, calls nothing
    and needs no round of the drain. *)
Theorem startBatch_endBatch_nested (E : Externals) (fuel : nat) (w : World) :
  inBatch (glob (heap w)) ≠ 0%Z →
  endBatch E fuel (on_heap startBatch w) = (w, true).
Proof.
  intros Hb. unfold endBatch.
  destruct w as [[obs der ov [tr rid ib pu asc sm] ep ret] t]. cbn in *.
  rewrite decide_False by lia.
  unfold on_heap, on_glob, startBatch, set_glob, with_inBatch. cbn.
  by replace (ib + 1 - 1)%Z with ib by lia.
Qed.

Lemma startBatch_endBatch_nested_witness :
  endBatch requeueing 0 (on_heap startBatch nested_batches)
    = (nested_batches, true).
Proof.
  apply (startBatch_endBatch_nested requeueing 0 nested_batches).
  by vm_compute.
Defined.

(** ** Observable values *)

(** X19.  [set] while state changes are not allowed: the invariant of
    [checkIfStateModificationsAreAllowed] fails, with the message chosen by
    [strictMode]; nothing is stored and no interceptor, enhancer or
    listener is called. *)
Theorem set_not_allowed (E : Externals) (o : obsId) (v : JsValue) (w : World) :
  allowStateChanges (glob (heap w)) = false →
  set E o v w =
    (Raise (InvariantFailed (if strictMode (glob (heap w))
                             then strict_mode_message
                             else computed_message)), w).
Proof.
  intros Hallow. unfold set, prepareNewValue,
    checkIfStateModificationsAreAllowed.
  rewrite Hallow. by destruct w.
Qed.

Lemma set_not_allowed_witness :
  set intercepting 0 (Val 1) computing =
    (Raise (InvariantFailed computed_message), computing).
Proof.
  apply (set_not_allowed intercepting 0 (Val 1) computing). reflexivity.
Defined.

(** [set] of a value that the enhancer hands back as it is and that
    differs from the stored one. *)
Lemma set_stores_and_notifies (E : Externals) (o : obsId) (v : JsValue)
    (w : World) :
  allowStateChanges (glob (heap w)) = true →
  hasInterceptors o (heap w) = false →
  enhancer E o v (value (ovS (heap w) o)) (heap w) = (Ret v, heap w) →
  v ≠ UNCHANGED →
  v ≠ value (ovS (heap w) o) →
  isSpyEnabled E (heap w) = false →
  reportChanged_keeps_listeners E o →
  listeners_return E →
  let change := update_change o v (value (ovS (heap w) o)) in
  let ks := default [] (changeListeners (ovS (heap w) o)) in
  ∃ w', set E o v w = (Ret tt, w') ∧
        trace w' = trace w ++ EEnhancer o v :: EReportChanged o ::
                     map (λ k, EListener k change) ks.
Proof.
  intros Hallow Hnone Henh Hv Hnew Hspy Hkeep Hret change ks.
  destruct w as [h t]. cbn [heap trace] in *.
  unfold set, prepareNewValue, checkIfStateModificationsAreAllowed.
  cbn [heap trace]. rewrite Hallow, Hnone.
  unfold prepareNewValue_enhance, call_ext. cbn [heap trace].
  rewrite Henh. cbn [heap trace].
  rewrite (decide_True (P := value (ovS h o) ≠ v)) by (by intros ?).
  rewrite decide_True by done.
  rewrite Hspy. unfold setNewValue. cbn [heap].
  set (w2 := call_hook (EReportChanged o) (reportChanged E o) _).
  assert (Hks : changeListeners (ovS (heap w2) o) =
                  changeListeners (ovS h o)).
  { subst w2. cbn [call_hook heap on_heap]. rewrite Hkeep. cbn.
    by rewrite upd_eq. }
  assert (Htr2 : trace w2 = t ++ [EEnhancer o v; EReportChanged o]).
  { subst w2. cbn [call_hook trace on_heap]. by rewrite <- app_assoc. }
  clearbody w2. unfold hasListeners. rewrite Hks. subst ks.
  destruct (changeListeners (ovS h o)) as [l|] eqn:Hl; cbn [default].
  - case_bool_decide as Hlen.
    + destruct (notifyListeners_returns E o change w2 l)
        as (w' & Hrun & Htr & _); [done|by intros k h0|].
      fold (update_change o v (value (ovS h o))). fold change.
      rewrite Hrun. exists w'. split; [done|].
      rewrite Htr, Htr2. by rewrite <- app_assoc.
    + exists w2. split; [done|]. rewrite Htr2.
      destruct l; [done|cbn in Hlen; lia].
  - exists w2. by split.
Qed.

(** X20.  [set] with a new value, on an observable value without
    interceptors whose enhancer is [referenceEnhancer], with the spy off:
    the enhancer is called, then [reportChanged], then every listener in
    the order of registration, each with the change from the old to the
    new value; nothing else is called, and [set] returns normally.  The
    listeners are assumed to return and [reportChanged] to leave the list
    of listeners alone. *)
Theorem set_notifies (E : Externals) (o : obsId) (v : JsValue) (w : World) :
  allowStateChanges (glob (heap w)) = true →
  hasInterceptors o (heap w) = false →
  enhancer E o = referenceEnhancer →
  v ≠ UNCHANGED →
  v ≠ value (ovS (heap w) o) →
  isSpyEnabled E (heap w) = false →
  reportChanged_keeps_listeners E o →
  listeners_return E →
  let change := update_change o v (value (ovS (heap w) o)) in
  let ks := default [] (changeListeners (ovS (heap w) o)) in
  ∃ w', set E o v w = (Ret tt, w') ∧
        trace w' = trace w ++ EEnhancer o v :: EReportChanged o ::
                     map (λ k, EListener k change) ks.
Proof.
  intros Hallow Hnone Henh Hv Hnew Hspy Hkeep Hret.
  apply set_stores_and_notifies; try done. by rewrite Henh.
Qed.

Lemma idle_listeners_return : listeners_return idle.
Proof. intros k c h. by exists h. Qed.

(** Both listeners of observable 0 hear of the change from 0 to 1, the
    first registered first. *)
Lemma set_notifies_witness :
  ∃ w', set idle 0 (Val 1) observed_value = (Ret tt, w') ∧
        trace w' = [EEnhancer 0 (Val 1); EReportChanged 0;
                    EListener 6 (update_change 0 (Val 1) (Val 0));
                    EListener 8 (update_change 0 (Val 1) (Val 0))].
Proof.
  apply (set_notifies idle 0 (Val 1) observed_value).
  - reflexivity.
  - reflexivity.
  - reflexivity.
  - discriminate.
  - discriminate.
  - reflexivity.
  - by intros h.
  - apply idle_listeners_return.
Defined.

Lemma remove_first_snoc (k : handler) (l : list handler) :
  remove_first k (l ++ [k]) =
    if decide (k ∈ l) then remove_first k l ++ [k] else l.
Proof.
  induction l as [|x l IH]; cbn [app remove_first].
  - rewrite decide_True by done.
    by rewrite decide_False by (by intros ?%elem_of_nil).
  - destruct (decide (x = k)) as [->|Hne].
    + rewrite decide_True; [done|]. by left.
    + rewrite IH. destruct (decide (k ∈ l)) as [Hin|Hin].
      * rewrite decide_True; [done|]. by right.
      * rewrite decide_False; [done|]. by intros [?|?]%elem_of_cons.
Qed.

Lemma remove_first_Permutation (k : handler) (l : list handler) :
  k ∈ l → remove_first k l ++ [k] ≡ₚ l.
Proof.
  induction l as [|x l IH]; [by intros ?%elem_of_nil|].
  cbn [remove_first]. destruct (decide (x = k)) as [->|Hne].
  - intros _. by rewrite <- Permutation_cons_append.
  - intros [?|Hin]%elem_of_cons; [done|]. cbn. by rewrite IH.
Qed.

(** X21.  Registering a handler and calling the function handed back is a
    round trip, for listeners ([registerListener]) and for interceptors
    ([ObservableValue.intercept]) alike: the list is
    there afterwards and holds the handlers it held before, in the same
    order when the handler was not registered before; when it was, the
    earlier registration is the one removed.  The stored value and the
    other list are never touched. *)
Theorem register_unregister (o : obsId) (k : handler) (h : Heap) :
  let hl := unregisterListener o k (registerListener o k h) in
  let hi := unregisterInterceptor o k (intercept o k h) in
  let ls := default [] (changeListeners (ovS h o)) in
  let ics := default [] (interceptors (ovS h o)) in
  changeListeners (ovS hl o) =
    Some (if decide (k ∈ ls) then remove_first k ls ++ [k] else ls) ∧
  interceptors (ovS hi o) =
    Some (if decide (k ∈ ics) then remove_first k ics ++ [k] else ics) ∧
  default [] (changeListeners (ovS hl o)) ≡ₚ ls ∧
  default [] (interceptors (ovS hi o)) ≡ₚ ics ∧
  value (ovS hl o) = value (ovS h o) ∧
  interceptors (ovS hl o) = interceptors (ovS h o) ∧
  value (ovS hi o) = value (ovS h o) ∧
  changeListeners (ovS hi o) = changeListeners (ovS h o).
Proof.
  cbn zeta. unfold unregisterListener, unregisterInterceptor, intercept,
    registerListener, registerInterceptor.
  cbn. rewrite !upd_eq. cbn. rewrite !upd_eq. cbn.
  rewrite !remove_first_snoc.
  split; [done|]. split; [done|]. split; [|split; [|done]].
  - case_decide; [by apply remove_first_Permutation|done].
  - case_decide; [by apply remove_first_Permutation|done].
Qed.

(** ** [bindDependencies] and the lower bound *)

Lemma keeps_lower_bound_refl (h : Heap) : keeps_lower_bound h h.
Proof. by split. Qed.

Lemma keeps_lower_bound_trans (h1 h2 h3 : Heap) :
  keeps_lower_bound h1 h2 → keeps_lower_bound h2 h3 →
  keeps_lower_bound h1 h3.
Proof.
  intros [Hs1 Hb1] [Hs2 Hb2]. split.
  - intros d. by rewrite Hs2.
  - intros o Hl. by apply Hb2, Hb1.
Qed.

(** A step that changes no state, raises no [lowestObserverState] and adds
    no observer keeps the bound. *)
Lemma keeps_lower_bound_shrink (h h' : Heap) :
  (∀ d, dependenciesState (derS h' d) = dependenciesState (derS h d)) →
  (∀ o, lowestObserverState (obsS h' o) = lowestObserverState (obsS h o)) →
  (∀ o d, d ∈ observers (obsS h' o) → d ∈ observers (obsS h o)) →
  keeps_lower_bound h h'.
Proof.
  intros Hs Hlos Hsub. split; [done|]. intros o Hl d Hd.
  rewrite Hlos, Hs. by apply Hl, Hsub.
Qed.

Lemma keeps_lower_bound_on_obs (o : obsId) (v : nat) (h : Heap) :
  keeps_lower_bound h (on_obs o (with_diffValue v) h).
Proof.
  apply keeps_lower_bound_shrink; [done| |]; intros o'; cbn; unfold upd;
    by case_decide; subst.
Qed.

Lemma keeps_lower_bound_queue (o : obsId) (h : Heap) :
  keeps_lower_bound h (queueForUnobservation o h).
Proof.
  destruct (queueForUnobservation_frame o h) as (Hder & _ & Hother).
  destruct (queueForUnobservation_obsS o h) as (Hl & _ & _ & _ & Hlos & _).
  apply keeps_lower_bound_shrink.
  - intros d. by rewrite Hder.
  - intros o'. destruct (decide (o' = o)) as [->|Hne]; [done|].
    by rewrite Hother.
  - intros o' d. destruct (decide (o' = o)) as [->|Hne]; [by rewrite Hl|].
    by rewrite Hother.
Qed.

Lemma keeps_lower_bound_with_observers (o : obsId) (l : list derivId)
    (m : gmap derivId nat) (h : Heap) :
  (∀ d, d ∈ l → d ∈ observers (obsS h o)) →
  keeps_lower_bound h (on_obs o (with_observers l m) h).
Proof.
  intros Hsub. apply keeps_lower_bound_shrink; [done| |].
  - intros o'. cbn. unfold upd. by case_decide; subst.
  - intros o' d. cbn. unfold upd. case_decide; [subst; cbn; apply Hsub|done].
Qed.

Lemma keeps_lower_bound_removeObserver (o : obsId) (node : derivId)
    (h : Heap) :
  keeps_lower_bound h (removeObserver o node h).2.
Proof.
  unfold removeObserver. case_decide as Hone.
  - cbn [snd]. eapply keeps_lower_bound_trans;
      [|apply keeps_lower_bound_queue].
    apply keeps_lower_bound_with_observers. by intros d ?%elem_of_nil.
  - destruct (last (observers (obsS h o))) as [filler|] eqn:Hlast;
      [|apply keeps_lower_bound_refl].
    apply last_Some in Hlast as [front Hfront].
    rewrite Hfront, removelast_last. case_decide as Hfiller; cbn [snd].
    + apply keeps_lower_bound_with_observers. intros d Hd.
      rewrite Hfront, elem_of_app. by left.
    + unfold array_store. repeat case_decide; cbn [snd];
        try apply keeps_lower_bound_refl;
        apply keeps_lower_bound_with_observers; intros d Hd;
        rewrite Hfront, elem_of_app, list_elem_of_singleton;
        first [ by apply elem_of_app in Hd as [?|?%list_elem_of_singleton];
                   [left|right]
              | apply list_elem_of_lookup in Hd as [i Hi];
                apply list_lookup_insert_Some in Hi as [(_ & <- & _)|[_ Hi]];
                [by right|left; by eapply list_elem_of_lookup_2] ].
Qed.

Lemma keeps_lower_bound_addObserver (o : obsId) (node : derivId) (h : Heap) :
  keeps_lower_bound h (addObserver o node h).
Proof.
  destruct (addObserver_frame o node h) as (Hder & _ & _ & Hother).
  destruct (addObserver_obsS o node h) as (Hobs & _ & _ & _ & _ & Hlos).
  split; [by rewrite Hder|]. intros o' Hl d Hd. rewrite Hder.
  destruct (decide (o' = o)) as [->|Hne].
  - rewrite Hobs in Hd. rewrite Hlos.
    apply elem_of_app in Hd as [Hd|Hd].
    + specialize (Hl d Hd). lia.
    + apply list_elem_of_singleton in Hd as ->. lia.
  - rewrite Hother in Hd |- * by done. by apply Hl.
Qed.

Lemma keeps_lower_bound_dedup (n : nat) :
  ∀ i i0 arr h, keeps_lower_bound h (bindDependencies_dedup n i i0 arr h).2.
Proof.
  induction n as [|n IH]; intros i i0 arr h; [apply keeps_lower_bound_refl|].
  cbn [bindDependencies_dedup].
  destruct (arr !! i) as [[dep|]|]; try apply keeps_lower_bound_refl.
  case_decide; [|apply IH].
  eapply keeps_lower_bound_trans; [apply keeps_lower_bound_on_obs|apply IH].
Qed.

Lemma keeps_lower_bound_unobserve (d : derivId) (deps : list obsId) :
  ∀ h, keeps_lower_bound h (bindDependencies_unobserve d deps h).2.
Proof.
  induction deps as [|dep rest IH]; intros h; [apply keeps_lower_bound_refl|].
  cbn [bindDependencies_unobserve]. unfold mbind at 1.
  assert (Hstep : keeps_lower_bound h
            ((if decide (diffValue (obsS h dep) = 0)
              then removeObserver dep d else mret tt) h).2).
  { case_decide; [apply keeps_lower_bound_removeObserver|
                  apply keeps_lower_bound_refl]. }
  destruct ((if decide (diffValue (obsS h dep) = 0)
             then removeObserver dep d else mret tt) h) as [[[]|e] h1];
    [|exact Hstep].
  unfold mbind at 1, mlift.
  eapply keeps_lower_bound_trans; [exact Hstep|].
  eapply keeps_lower_bound_trans; [apply keeps_lower_bound_on_obs|apply IH].
Qed.

Lemma keeps_lower_bound_observe (d : derivId) (deps : list obsId) :
  ∀ h, keeps_lower_bound h (bindDependencies_observe d deps h).
Proof.
  induction deps as [|dep rest IH]; intros h; [apply keeps_lower_bound_refl|].
  cbn [bindDependencies_observe]. case_decide; [|apply IH].
  eapply keeps_lower_bound_trans; [apply keeps_lower_bound_on_obs|].
  eapply keeps_lower_bound_trans; [apply keeps_lower_bound_addObserver|].
  apply IH.
Qed.

Lemma keeps_lower_bound_on_der (d : derivId) (f : IDerivation → IDerivation)
    (h : Heap) :
  (∀ x, dependenciesState (f x) = dependenciesState x) →
  keeps_lower_bound h (on_der d f h).
Proof.
  intros Hf. apply keeps_lower_bound_shrink; [|done|done].
  intros d'. cbn. unfold upd. case_decide; [subst; apply Hf|done].
Qed.

Lemma keeps_lower_bound_bindDependencies (d : derivId) (h : Heap) :
  keeps_lower_bound h (bindDependencies d h).2.
Proof.
  unfold bindDependencies.
  destruct (newObserving (derS h d)) as [arr|];
    [|apply keeps_lower_bound_refl].
  set (h1 := on_der d (with_newObserving None) h).
  assert (H1 : keeps_lower_bound h h1) by (by apply keeps_lower_bound_on_der).
  pose proof (keeps_lower_bound_dedup (unboundDepsCount (derS h1 d)) 0 0 arr h1)
    as H2.
  destruct (bindDependencies_dedup _ 0 0 arr h1) as [[[i0 arr1]|e] h2];
    cbn [snd] in *; [|by eapply keeps_lower_bound_trans].
  set (h3 := on_der d (with_observing _) h2).
  assert (H3 : keeps_lower_bound h2 h3) by (by apply keeps_lower_bound_on_der).
  pose proof (keeps_lower_bound_unobserve d (reverse (observing (derS h d))) h3)
    as H4.
  destruct (bindDependencies_unobserve d _ h3) as [[[]|e] h4]; cbn [snd] in *.
  - eapply keeps_lower_bound_trans; [exact H1|].
    eapply keeps_lower_bound_trans; [exact H2|].
    eapply keeps_lower_bound_trans; [exact H3|].
    eapply keeps_lower_bound_trans; [exact H4|].
    apply keeps_lower_bound_observe.
  - eapply keeps_lower_bound_trans; [exact H1|].
    eapply keeps_lower_bound_trans; [exact H2|].
    by eapply keeps_lower_bound_trans.
Qed.

(** X22.  [bindDependencies], called at the end of a run of [d] on a
    consistent graph with the reads of the run in [newObserving], keeps
    [lowestObserverState] a lower bound: it returns normally, it changes
    the state of no derivation, and where [invariantLOS] passes before the
    call it passes after it. *)
Theorem bindDependencies_keeps_invariantLOS (d : derivId) (o : obsId)
    (h : Heap) (arr : list (option obsId)) (kept : list obsId) :
  graph_consistent d h →
  newObserving (derS h d) = Some arr →
  unboundDepsCount (derS h d) = length kept →
  take (length kept) arr = Some <$> kept →
  invariantLOS o h = true →
  (bindDependencies d h).1 = Ret tt ∧
  invariantLOS o (bindDependencies d h).2 = true ∧
  ∀ d', dependenciesState (derS (bindDependencies d h).2 d') =
        dependenciesState (derS h d').
Proof.
  intros Hg Hnew Hcount Htake. rewrite !invariantLOS_bound. intros Hl.
  destruct (bindDependencies_graph d h arr kept Hg Hnew Hcount Htake)
    as (h' & Hrun & _).
  destruct (keeps_lower_bound_bindDependencies d h) as [Hs Hb].
  split; [by rewrite Hrun|]. split; [by apply Hb|exact Hs].
Qed.

Lemma bindDependencies_keeps_invariantLOS_witness :
  (bindDependencies 5 run_finished).1 = Ret tt ∧
  invariantLOS 1 (bindDependencies 5 run_finished).2 = true ∧
  ∀ d', dependenciesState (derS (bindDependencies 5 run_finished).2 d') =
        dependenciesState (derS run_finished d').
Proof.
  apply (bindDependencies_keeps_invariantLOS 5 1 run_finished
           [Some 1; Some 0; Some 0; Some 2; None; None] [1; 0; 0; 2]).
  - apply run_finished_graph.
  - reflexivity.
  - reflexivity.
  - reflexivity.
  - reflexivity.
Defined.

(** X23.  A change makes every observer recompute: after
    [propagateChanged(obs)] on an observable not yet marked [STALE], with
    hooks that leave [obs.observers] alone and take no derivation out of
    [STALE], [shouldCompute] answers [true] for every observer of [obs],
    without calling anything. *)
Theorem propagateChanged_then_shouldCompute (E : Externals) (o : obsId)
    (d : derivId) (w : World) :
  hooks_keep_observers E o →
  hooks_keep_stale E →
  lowestObserverState (obsS (heap w) o) ≠ STALE →
  d ∈ observers (obsS (heap w) o) →
  let w' := (propagateChanged E o w).2 in
  (propagateChanged E o w).1 = Ret tt ∧
  shouldCompute E d w' = (true, w').
Proof.
  intros Hobs Hstale Hlos Hd w'. subst w'. unfold propagateChanged.
  rewrite decide_False by done.
  set (w1 := on_heap (on_obs o (with_lowestObserverState STALE)) w).
  assert (Hsame : observers (obsS (heap w1) o) =
                    observers (obsS (heap w) o)).
  { subst w1. cbn. by rewrite upd_eq. }
  rewrite (propagateChanged_loop_visit E o _ w1 Hobs) by done.
  rewrite firstn_all, Hsame. cbn [fst snd]. split; [done|].
  unfold shouldCompute.
  rewrite (visit_observers_stale E _ w1 d Hstale); [done|].
  left. by rewrite elem_of_reverse.
Qed.

Lemma propagateChanged_then_shouldCompute_witness :
  (propagateChanged passing_on 0 two_observers).1 = Ret tt ∧
  shouldCompute passing_on 2 (propagateChanged passing_on 0 two_observers).2 =
    (true, (propagateChanged passing_on 0 two_observers).2).
Proof.
  apply (propagateChanged_then_shouldCompute passing_on 0 2 two_observers).
  - apply pass_on_stale_keeps_observers.
  - apply pass_on_stale_keeps_stale.
  - discriminate.
  - change (2 ∈ [2; 1]). by left.
Defined.

(** ** Structural comparison and observers of a value *)

(** X24.  [set] of a value that is structurally equal to the stored one, on
    an observable value without interceptors whose enhancer is
    [refStructEnhancer]: only the enhancer is called; the stored value
    keeps its identity, [reportChanged] is not called and no listener
    hears of it. *)
Theorem set_struct_equal (E : Externals)
    (deepEqual : JsValue → JsValue → bool) (o : obsId) (v : JsValue)
    (w : World) :
  allowStateChanges (glob (heap w)) = true →
  hasInterceptors o (heap w) = false →
  enhancer E o = refStructEnhancer deepEqual →
  deepEqual v (value (ovS (heap w) o)) = true →
  set E o v w = (Ret tt, mkWorld (heap w) (trace w ++ [EEnhancer o v])).
Proof.
  intros Hallow Hnone Henh Heq. destruct w as [h t]. cbn [heap trace] in *.
  unfold set, prepareNewValue, checkIfStateModificationsAreAllowed.
  cbn [heap trace]. rewrite Hallow, Hnone.
  unfold prepareNewValue_enhance, call_ext. cbn [heap trace].
  rewrite Henh. unfold refStructEnhancer, mret. rewrite Heq. cbn [heap].
  rewrite (decide_False (P := value (ovS h o) ≠ value (ovS h o)))
    by (by intros ?).
  by rewrite decide_False by (by intros ?).
Qed.

(** Observable 0 holds reference 0; reference 10 holds an equal
    structure. *)
Lemma set_struct_equal_witness :
  set structural 0 (Val 10) observed_value =
    (Ret tt, mkWorld (heap observed_value) [EEnhancer 0 (Val 10)]).
Proof.
  apply (set_struct_equal structural same_structure 0 (Val 10)
           observed_value); reflexivity.
Defined.

(** X25.  A listener registered with [observe] hears of the next change,
    after the listeners registered before it, and no longer once the
    function [observe] handed back has been called.  Stated for an
    observable value without interceptors whose enhancer is
    [referenceEnhancer], with the spy off, listeners that return and a
    [reportChanged] that leaves the listener list alone. *)
Theorem observe_then_set (E : Externals) (o : obsId) (k : handler)
    (v : JsValue) (w : World) :
  allowStateChanges (glob (heap w)) = true →
  hasInterceptors o (heap w) = false →
  enhancer E o = referenceEnhancer →
  v ≠ UNCHANGED →
  v ≠ value (ovS (heap w) o) →
  spy_off E →
  reportChanged_keeps_listeners E o →
  listeners_return E →
  let change := update_change o v (value (ovS (heap w) o)) in
  let ks := default [] (changeListeners (ovS (heap w) o)) in
  let observed := (observe E o k false w).2 in
  let disposed := on_heap (unregisterListener o k) observed in
  (observe E o k false w).1 = Ret tt ∧
  (∃ w', set E o v observed = (Ret tt, w') ∧
         trace w' = trace w ++ EEnhancer o v :: EReportChanged o ::
                      map (λ k', EListener k' change) (ks ++ [k])) ∧
  (k ∉ ks →
   ∃ w', set E o v disposed = (Ret tt, w') ∧
         trace w' = trace w ++ EEnhancer o v :: EReportChanged o ::
                      map (λ k', EListener k' change) ks).
Proof.
  intros Hallow Hnone Henh Hv Hnew Hspy Hkeep Hret change ks observed
    disposed.
  split; [done|].
  assert (Hobserved :
    glob (heap observed) = glob (heap w) ∧
    value (ovS (heap observed) o) = value (ovS (heap w) o) ∧
    interceptors (ovS (heap observed) o) = interceptors (ovS (heap w) o) ∧
    changeListeners (ovS (heap observed) o) = Some (ks ++ [k]) ∧
    trace observed = trace w).
  { subst observed. cbn. by rewrite upd_eq. }
  destruct Hobserved as (Hg1 & Hv1 & Hi1 & Hl1 & Ht1).
  assert (Hdisposed :
    glob (heap disposed) = glob (heap w) ∧
    value (ovS (heap disposed) o) = value (ovS (heap w) o) ∧
    interceptors (ovS (heap disposed) o) = interceptors (ovS (heap w) o) ∧
    changeListeners (ovS (heap disposed) o)
      = Some (remove_first k (ks ++ [k])) ∧
    trace disposed = trace w).
  { subst disposed. unfold on_heap, unregisterListener. cbn [heap trace].
    rewrite Hl1. cbn. by rewrite !upd_eq. }
  destruct Hdisposed as (Hg2 & Hv2 & Hi2 & Hl2 & Ht2).
  split.
  - destruct (set_stores_and_notifies E o v observed)
      as (w' & Hrun & Htr);
      [by rewrite Hg1
      |by unfold hasInterceptors in *; rewrite Hi1
      |by rewrite Henh
      |done
      |by rewrite Hv1
      |apply Hspy
      |done
      |done
      |].
    exists w'. split; [done|]. by rewrite Htr, Ht1, Hv1, Hl1.
  - intros Hfresh.
    destruct (set_stores_and_notifies E o v disposed)
      as (w' & Hrun & Htr);
      [by rewrite Hg2
      |by unfold hasInterceptors in *; rewrite Hi2
      |by rewrite Henh
      |done
      |by rewrite Hv2
      |apply Hspy
      |done
      |done
      |].
    exists w'. split; [done|]. rewrite Htr, Ht2, Hv2, Hl2.
    by rewrite remove_first_snoc, decide_False.
Qed.

Lemma idle_reference_enhancer : enhancer idle 0 = referenceEnhancer.
Proof. reflexivity. Qed.

(** Listener 8 joins listener 6 on observable 0. *)
Lemma observe_then_set_witness :
  let w := (observe idle 0 6 false (mkWorld fresh_heap [])).2 in
  let change := update_change 0 (Val 1) (Val 0) in
  let observed := (observe idle 0 8 false w).2 in
  let disposed := on_heap (unregisterListener 0 8) observed in
  (observe idle 0 8 false w).1 = Ret tt ∧
  (∃ w', set idle 0 (Val 1) observed = (Ret tt, w') ∧
         trace w' = [EEnhancer 0 (Val 1); EReportChanged 0;
                     EListener 6 change; EListener 8 change]) ∧
  (8 ∉ [6] →
   ∃ w', set idle 0 (Val 1) disposed = (Ret tt, w') ∧
         trace w' = [EEnhancer 0 (Val 1); EReportChanged 0;
                     EListener 6 change]).
Proof.
  apply (observe_then_set idle 0 8 (Val 1)
           (observe idle 0 6 false (mkWorld fresh_heap [])).2).
  - reflexivity.
  - reflexivity.
  - apply idle_reference_enhancer.
  - discriminate.
  - discriminate.
  - by intros h.
  - by intros h.
  - apply idle_listeners_return.
Defined.

(** ** Derived functions that run other code *)

(** *** [bindDependencies] writes no run identifier *)

Lemma same_stamps_refl (h : Heap) : same_stamps h h.
Proof. by repeat split. Qed.

Lemma same_stamps_trans (h1 h2 h3 : Heap) :
  same_stamps h1 h2 → same_stamps h2 h3 → same_stamps h1 h3.
Proof.
  intros (Hl1 & Hg1 & Ht1 & Hr1) (Hl2 & Hg2 & Ht2 & Hr2).
  split; [|split; [|split]]; congruence.
Qed.

Lemma same_stamps_on_obs (o : obsId) (f : IObservable → IObservable)
    (h : Heap) :
  (∀ x, lastAccessedBy (f x) = lastAccessedBy x) →
  same_stamps h (on_obs o f h).
Proof.
  intros Hf. split; [|done]. intros o'. cbn. unfold upd.
  case_decide; [subst; apply Hf|done].
Qed.

Lemma same_stamps_on_der (d : derivId) (f : IDerivation → IDerivation)
    (h : Heap) :
  (∀ x, runId (f x) = runId x) →
  same_stamps h (on_der d f h).
Proof.
  intros Hf. do 3 (split; [done|]). intros d'. cbn. unfold upd.
  case_decide; [subst; apply Hf|done].
Qed.

Lemma same_stamps_queue (o : obsId) (h : Heap) :
  same_stamps h (queueForUnobservation o h).
Proof.
  destruct (queueForUnobservation_frame o h) as (Hder & Htr & Hother).
  destruct (queueForUnobservation_obsS o h) as (_ & _ & _ & Hl & _).
  destruct (queueForUnobservation_glob o h) as (_ & Hg & _).
  split; [|split; [done|split; [done|]]].
  - intros o'. destruct (decide (o' = o)) as [->|Hne]; [done|].
    by rewrite Hother.
  - intros d. by rewrite Hder.
Qed.

Lemma same_stamps_removeObserver (o : obsId) (node : derivId) (h : Heap) :
  same_stamps h (removeObserver o node h).2.
Proof.
  unfold removeObserver. case_decide.
  - cbn [snd]. eapply same_stamps_trans; [|apply same_stamps_queue].
    by apply same_stamps_on_obs.
  - destruct (last (observers (obsS h o))) as [filler|];
      [|apply same_stamps_refl].
    case_decide; cbn [snd]; [by apply same_stamps_on_obs|].
    destruct (array_store _ _ _); cbn [snd];
      [by apply same_stamps_on_obs|apply same_stamps_refl].
Qed.

Lemma same_stamps_addObserver (o : obsId) (node : derivId) (h : Heap) :
  same_stamps h (addObserver o node h).
Proof.
  destruct (addObserver_frame o node h) as (Hder & _ & Hglob & Hother).
  destruct (addObserver_obsS o node h) as (_ & _ & _ & Hl & _).
  split; [|rewrite Hglob, Hder; done].
  intros o'. destruct (decide (o' = o)) as [->|Hne]; [done|].
  by rewrite Hother.
Qed.

Lemma same_stamps_dedup (n : nat) :
  ∀ i i0 arr h, same_stamps h (bindDependencies_dedup n i i0 arr h).2.
Proof.
  induction n as [|n IH]; intros i i0 arr h; [apply same_stamps_refl|].
  cbn [bindDependencies_dedup].
  destruct (arr !! i) as [[dep|]|]; try apply same_stamps_refl.
  case_decide; [|apply IH].
  eapply same_stamps_trans; [|apply IH]. by apply same_stamps_on_obs.
Qed.

Lemma same_stamps_unobserve (d : derivId) (deps : list obsId) :
  ∀ h, same_stamps h (bindDependencies_unobserve d deps h).2.
Proof.
  induction deps as [|dep rest IH]; intros h; [apply same_stamps_refl|].
  cbn [bindDependencies_unobserve]. unfold mbind at 1.
  assert (Hstep : same_stamps h
            ((if decide (diffValue (obsS h dep) = 0)
              then removeObserver dep d else mret tt) h).2).
  { case_decide; [apply same_stamps_removeObserver|apply same_stamps_refl]. }
  destruct ((if decide (diffValue (obsS h dep) = 0)
             then removeObserver dep d else mret tt) h) as [[[]|e] h1];
    [|exact Hstep].
  unfold mbind at 1, mlift.
  eapply same_stamps_trans; [exact Hstep|].
  eapply same_stamps_trans; [|apply IH]. by apply same_stamps_on_obs.
Qed.

Lemma same_stamps_observe (d : derivId) (deps : list obsId) :
  ∀ h, same_stamps h (bindDependencies_observe d deps h).
Proof.
  induction deps as [|dep rest IH]; intros h; [apply same_stamps_refl|].
  cbn [bindDependencies_observe]. case_decide; [|apply IH].
  eapply (same_stamps_trans _ (on_obs dep (with_diffValue 0) h));
    [by apply same_stamps_on_obs|].
  eapply same_stamps_trans; [apply same_stamps_addObserver|apply IH].
Qed.

Lemma same_stamps_bindDependencies (d : derivId) (h : Heap) :
  same_stamps h (bindDependencies d h).2.
Proof.
  unfold bindDependencies.
  destruct (newObserving (derS h d)) as [arr|]; [|apply same_stamps_refl].
  set (h1 := on_der d (with_newObserving None) h).
  assert (H1 : same_stamps h h1) by (by apply same_stamps_on_der).
  pose proof (same_stamps_dedup (unboundDepsCount (derS h1 d)) 0 0 arr h1)
    as H2.
  destruct (bindDependencies_dedup _ 0 0 arr h1) as [[[i0 arr1]|e] h2];
    cbn [snd] in *; [|by eapply same_stamps_trans].
  set (h3 := on_der d (with_observing _) h2).
  assert (H3 : same_stamps h2 h3) by (by apply same_stamps_on_der).
  pose proof (same_stamps_unobserve d (reverse (observing (derS h d))) h3)
    as H4.
  destruct (bindDependencies_unobserve d _ h3) as [[[]|e] h4]; cbn [snd] in *.
  - eapply same_stamps_trans; [exact H1|].
    eapply same_stamps_trans; [exact H2|].
    eapply same_stamps_trans; [exact H3|].
    eapply same_stamps_trans; [exact H4|].
    apply same_stamps_observe.
  - eapply same_stamps_trans; [exact H1|].
    eapply same_stamps_trans; [exact H2|].
    by eapply same_stamps_trans.
Qed.

(** *** Frames of runs *)

Lemma run_frame_refl (ds : list derivId) (n : nat) (h : Heap) :
  run_frame ds n h h.
Proof. split; [done|]. split; [done|]. split; intros; by left. Qed.

Lemma run_frame_trans (ds : list derivId) (n n' : nat) (h0 h1 h2 : Heap) :
  n ≤ n' →
  run_frame ds n h0 h1 → run_frame ds n' h1 h2 → run_frame ds n h0 h2.
Proof.
  intros Hn (Hr1 & Hg1 & Hl1 & Hi1) (Hr2 & Hg2 & Hl2 & Hi2).
  split; [|split; [lia|split]].
  - intros d Hd. destruct (Hr1 d Hd) as (? & ? & ? & ?).
    destruct (Hr2 d Hd) as (? & ? & ? & ?). repeat split; congruence.
  - intros o. destruct (Hl2 o) as [->|?]; [apply Hl1|right; lia].
  - intros d. destruct (Hi2 d) as [->|?]; [apply Hi1|right; lia].
Qed.

Lemma run_frame_weaken (ds ds' : list derivId) (n : nat) (h0 h : Heap) :
  (∀ d, d ∈ ds' → d ∈ ds) → run_frame ds n h0 h → run_frame ds' n h0 h.
Proof. intros Hsub (Hr & Hrest). split; [|done]. intros d Hd. by apply Hr, Hsub. Qed.

Lemma same_stamps_run_frame (ds : list derivId) (n : nat) (h h' : Heap) :
  same_stamps h h' →
  (∀ d, d ∈ ds → same_run (derS h' d) (derS h d)) →
  run_frame ds n h h'.
Proof.
  intros (Hl & Hg & _ & Hr) Hsame. split; [done|]. split; [lia|].
  split; intros x; left; [apply Hl|apply Hr].
Qed.

Lemma graph_ok_ext (h h' : Heap) :
  (∀ o, diffValue (obsS h' o) = diffValue (obsS h o) ∧
        observers (obsS h' o) = observers (obsS h o) ∧
        observersIndexes (obsS h' o) = observersIndexes (obsS h o)) →
  (∀ d, observing (derS h' d) = observing (derS h d)) →
  (∀ o, lastAccessedBy (obsS h' o) ≤ g_runId (glob h')) →
  (∀ d, runId (derS h' d) ≤ g_runId (glob h')) →
  graph_ok h → graph_ok h'.
Proof.
  intros Hobs Hder Hl Hr (Hg & _ & _). split; [|done].
  intros d. by apply (graph_consistent_ext d h).
Qed.

(** A read keeps the graph and writes at most the run identifier of the
    tracking derivation. *)
Lemma reportObserved_ok (o : obsId) (h : Heap) :
  graph_ok h →
  let h1 := (reportObserved o h).2 in
  graph_ok h1 ∧
  trackingDerivation (glob h1) = trackingDerivation (glob h) ∧
  g_runId (glob h1) = g_runId (glob h) ∧
  (∀ d, trackingDerivation (glob h) ≠ Some d → derS h1 d = derS h d) ∧
  (∀ d, runId (derS h1 d) = runId (derS h d)) ∧
  (∀ o', lastAccessedBy (obsS h1 o') = lastAccessedBy (obsS h o') ∨
         ∃ d, trackingDerivation (glob h) = Some d ∧
              lastAccessedBy (obsS h1 o') = runId (derS h d)).
Proof.
  intros Hok h1.
  assert (Hfacts :
    trackingDerivation (glob h1) = trackingDerivation (glob h) ∧
    g_runId (glob h1) = g_runId (glob h) ∧
    (∀ d, trackingDerivation (glob h) ≠ Some d → derS h1 d = derS h d) ∧
    (∀ d, runId (derS h1 d) = runId (derS h d)) ∧
    (∀ o', lastAccessedBy (obsS h1 o') = lastAccessedBy (obsS h o') ∨
           ∃ d, trackingDerivation (glob h) = Some d ∧
                lastAccessedBy (obsS h1 o') = runId (derS h d))).
  { subst h1. unfold reportObserved.
    destruct (trackingDerivation (glob h)) as [d|] eqn:Htr.
    - case_decide; [|by repeat split; intros; try left].
      cbn. rewrite !upd_eq. cbn.
      destruct (newObserving (derS h d)); cbn;
        (do 2 (split; [done|]); split; [|split]);
        try (intros d' Hd'; unfold upd; repeat case_decide; congruence);
        try (intros d'; unfold upd; repeat case_decide; by subst);
        (intros o'; unfold upd; case_decide; [right; by exists d|by left]).
    - case_decide; [|by repeat split; intros; try left]. cbn [snd].
      destruct (same_stamps_queue o h) as (Hl & Hg & Ht & Hr).
      destruct (queueForUnobservation_frame o h) as (Hder & _).
      split; [by rewrite Ht|]. split; [done|].
      split; [by intros d _; rewrite Hder|]. split; [done|].
      intros o'. left. apply Hl. }
  split; [|exact Hfacts].
  destruct Hfacts as (Htr & Hg & Hder & Hrun & Hlast).
  destruct (reportObserved_frame o h) as [Hobs Hobserving]. fold h1 in Hobs, Hobserving.
  destruct Hok as (Hgraph & Hbound & Hids).
  apply (graph_ok_ext h); [done|intros d; apply Hobserving| | |done].
  - intros o'. rewrite Hg. destruct (Hlast o') as [->|(d & _ & ->)];
      [apply Hbound|apply Hids].
  - intros d. rewrite Hg, Hrun. apply Hids.
Qed.

(** *** The run of a derived function, step by step *)

Lemma run_state_frame (ds : list derivId) (d : derivId) (rid n n' : nat)
    (h0 : Heap) (prev : list obsId) (h h1 : Heap) (reads : list obsId) :
  run_state ds d rid n h0 prev h reads →
  graph_ok h1 →
  tracking_within (Some d) h1 →
  rid ≤ n' →
  run_frame (d :: ds) n' h h1 →
  run_state ds d rid n h0 prev h1 reads.
Proof.
  intros (Hok & Htw & Hrid & Hn & Hprev & Hframe & arr & kept & Hnew & Hcount
          & Htake & Hfirst & Hlast) Hok1 Htw1 Hle Hstep.
  pose proof Hstep as (Hrun & Hg & Hl & Hi).
  destruct (Hrun d) as (Hobs1 & Hnew1 & Hcount1 & Hrid1); [by left|].
  split; [done|]. split; [done|]. split; [congruence|]. split; [done|].
  split; [congruence|]. split.
  { apply (run_frame_trans ds n n' h0 h h1); [lia|done|].
    apply (run_frame_weaken (d :: ds)); [by right|done]. }
  exists arr, kept. split; [congruence|]. split; [congruence|].
  do 2 (split; [done|]). intros o Ho. apply Hlast.
  destruct (Hl o) as [<-|Hfresh]; [done|lia].
Qed.

Lemma run_steps_state (ds : list derivId) (d : derivId) (rid n : nat)
    (h0 : Heap) (prev : list obsId) (body : list step) :
  d ∉ ds →
  Forall (step_safe (Some d) (d :: ds)) body →
  ∀ h reads,
    run_state ds d rid n h0 prev h reads →
    run_state ds d rid n h0 prev (run_steps body h).2
      (reads ++ reads_tracked d body h).
Proof.
  intros Hd Hbody. induction Hbody as [|s body Hs _ IH]; intros h reads Hst.
  - cbn. by rewrite app_nil_r.
  - destruct s as [o|m]; cbn [run_steps reads_tracked]; unfold mbind.
    + pose proof Hst as (Hok & Htw & Hrid & Hn & Hprev & Hframe & arr & kept
                         & Hnew & Hcount & Htake & Hfirst & Hlast).
      destruct (reportObserved_ok o h Hok)
        as (Hok1 & Htr1 & Hg1 & Hder1 & Hrun1 & Hlast1).
      pose proof Hok as (Hgraph & Hbound & Hids).
      destruct Htw as [Hnone|Hsome].
      * rewrite decide_False by congruence. cbn [app].
        assert (Hst1 : run_state ds d rid n h0 prev (reportObserved o h).2
                         reads).
        { apply (run_state_frame ds d rid n (g_runId (glob h)) h0 prev h);
            [done|done|left; congruence|specialize (Hids d); lia|].
          split; [|split; [lia|split]].
          - intros d' _. rewrite Hder1 by congruence. done.
          - intros o'. destruct (Hlast1 o') as [?|(d' & ? & _)];
              [by left|congruence].
          - intros d'. left. apply Hrun1. }
        assert (Hret : (reportObserved o h).1 = Ret tt).
        { unfold reportObserved. rewrite Hnone. by case_decide. }
        destruct (reportObserved o h) as [[[]|e] h1]; [|done].
        by apply IH.
      * rewrite decide_True by done.
        assert (Hinv : run_inv d rid prev h reads).
        { split; [done|]. split; [done|]. split; [specialize (Hids d); lia|].
          split; [done|]. split; [by apply graph_consistent_ready|].
          by exists arr, kept. }
        destruct (reportObserved_inv d rid prev h reads o Hinv)
          as (Hret & Htr' & Hrid' & _ & Hprev' & _ & Hkept').
        assert (Hst1 : run_state ds d rid n h0 prev (reportObserved o h).2
                         (reads ++ [o])).
        { split; [done|]. split; [by right|]. do 3 (split; [done|]).
          split; [|exact Hkept'].
          apply (run_frame_trans ds n n h0 h); [done|done|].
          split; [|split; [lia|split]].
          - intros d' Hd'. rewrite Hder1; [done|]. rewrite Hsome.
            intros [= ->]. done.
          - intros o'. destruct (Hlast1 o') as [?|(d' & Hd' & ->)];
              [by left|]. right. rewrite Hsome in Hd'.
            assert (d' = d) as -> by congruence. lia.
          - intros d'. left. apply Hrun1. }
        destruct (reportObserved o h) as [[[]|e] h1]; [|done].
        cbn [fst snd] in *.
        replace (reads ++ [o] ++ reads_tracked d body h1)
          with ((reads ++ [o]) ++ reads_tracked d body h1)
          by (by rewrite <- app_assoc).
        by apply IH.
    + pose proof Hst as (Hok & Htw & Hrid & _).
      destruct (Hs h Hok Htw) as (Hok1 & Htw1 & Hstep).
      assert (Hst1 : run_state ds d rid n h0 prev (m h).2 reads).
      { apply (run_state_frame ds d rid n (g_runId (glob h)) h0 prev h);
          try done.
        destruct Hok as (_ & _ & Hids). specialize (Hids d). lia. }
      destruct (m h) as [[[]|e] h1]; cbn [fst snd] in *.
      * by apply IH.
      * by rewrite app_nil_r.
Qed.

Lemma changeDependenciesStateTo0_derS (d d' : derivId) (h : Heap) :
  d' ≠ d → derS (changeDependenciesStateTo0 d h) d' = derS h d'.
Proof.
  intros Hne. unfold changeDependenciesStateTo0. case_decide; [done|].
  rewrite changeDependenciesStateTo0_fold_derS. cbn. by rewrite upd_ne.
Qed.

Lemma changeDependenciesStateTo0_runId (d d' : derivId) (h : Heap) :
  runId (derS (changeDependenciesStateTo0 d h) d') = runId (derS h d').
Proof.
  unfold changeDependenciesStateTo0. case_decide; [done|].
  rewrite changeDependenciesStateTo0_fold_derS. cbn. unfold upd.
  by case_decide; subst.
Qed.

Lemma tracking_started_state (ds : list derivId) (d : derivId) (h : Heap) :
  graph_ok h →
  d ∉ ds →
  run_state ds d (S (g_runId (glob h))) (g_runId (glob h)) h
    (observing (derS h d)) (tracking_started d h) [].
Proof.
  intros Hok Hd. pose proof Hok as (Hgraph & Hbound & Hids).
  pose proof (tracking_started_inv d h Hbound
                (graph_consistent_ready d h (Hgraph d)))
    as (Htr & Hrid & _ & Hprev & _ & Hkept).
  assert (Hg : g_runId (glob (tracking_started d h)) = S (g_runId (glob h))).
  { unfold tracking_started. cbn. by rewrite changeDependenciesStateTo0_glob. }
  assert (Hlast : ∀ o, lastAccessedBy (obsS (tracking_started d h) o) =
                       lastAccessedBy (obsS h o)).
  { intros o. unfold tracking_started. cbn.
    by destruct (changeDependenciesStateTo0_obsS d h o) as (_ & -> & _). }
  assert (Hder : ∀ d', d' ≠ d →
            derS (tracking_started d h) d' = derS h d').
  { intros d' Hne. unfold tracking_started. cbn. rewrite !upd_ne by done.
    by apply changeDependenciesStateTo0_derS. }
  split.
  { apply (graph_ok_ext h); [| | | |done].
    - intros o. unfold tracking_started. cbn.
      by destruct (changeDependenciesStateTo0_obsS d h o)
        as (-> & _ & -> & ->).
    - intros d'. destruct (decide (d' = d)) as [->|Hne];
        [done|by rewrite Hder].
    - intros o. rewrite Hg, Hlast. specialize (Hbound o). lia.
    - intros d'. rewrite Hg. destruct (decide (d' = d)) as [->|Hne].
      + rewrite Hrid. lia.
      + rewrite Hder by done. specialize (Hids d'). lia. }
  split; [by right|]. split; [done|]. split; [lia|]. split; [done|].
  split; [|exact Hkept].
  split; [|split; [lia|split]].
  - intros d' Hd'. rewrite Hder; [done|]. by intros ->.
  - intros o. left. apply Hlast.
  - intros d'. destruct (decide (d' = d)) as [->|Hne].
    + right. rewrite Hrid. lia.
    + left. by rewrite Hder.
Qed.

Lemma graph_ok_tracking (t : option derivId) (h : Heap) :
  graph_ok h → graph_ok (on_glob (with_trackingDerivation t) h).
Proof.
  intros Hok. pose proof Hok as (_ & Hbound & Hids).
  apply (graph_ok_ext h); [done|done|apply Hbound|apply Hids|done].
Qed.

Lemma run_frame_tracking (t : option derivId) (ds : list derivId) (n : nat)
    (h : Heap) :
  run_frame ds n h (on_glob (with_trackingDerivation t) h).
Proof. split; [done|]. split; [done|]. split; intros; by left. Qed.

(** [trackDerivedFunction] on a derived function given by its steps, with
    the runs of [ds] in progress around it. *)
Lemma trackDerivedFunction_nested (ds : list derivId) (d : derivId)
    (body : list step) (result : JsValue) (h : Heap) (t : list Event) :
  graph_ok h →
  d ∉ ds →
  Forall (step_safe (Some d) (d :: ds)) body →
  let started := tracking_started d h in
  let ran := derived_function body result started in
  ∃ h',
    trackDerivedFunction d (derived_function body result) (mkWorld h t) =
      (Ret (match ran.1 with
            | Ret v => Returned v
            | Raise e => CaughtException e
            end), mkWorld h' (t ++ [ECallDerivedFunction d])) ∧
    graph_ok h' ∧
    run_frame ds (g_runId (glob h)) h h' ∧
    trackingDerivation (glob h') = trackingDerivation (glob h) ∧
    observing (derS h' d) =
      first_occurrences (reads_tracked d body started) ∧
    newObserving (derS h' d) = None ∧
    (∀ o d', d' ≠ d →
       d' ∈ observers (obsS h' o) ↔ d' ∈ observers (obsS ran.2 o)) ∧
    bindDependencies d
      (on_glob (with_trackingDerivation (trackingDerivation (glob h))) ran.2)
      = (Ret tt, h').
Proof.
  intros Hok Hd Hbody started ran.
  pose proof (tracking_started_state ds d h Hok Hd) as Hst0.
  pose proof (run_steps_state ds d _ _ h _ body Hd Hbody _ [] Hst0) as Hst.
  fold started in Hst. cbn [app] in Hst.
  rewrite <- (derived_function_heap body result) in Hst. fold ran in Hst.
  destruct Hst as (Hok7 & Htw & Hrid & Hn & Hprev & Hframe & arr & kept & Hnew
                   & Hcount & Htake & Hfirst & Hlast).
  set (prev := trackingDerivation (glob h)).
  set (h8 := on_glob (with_trackingDerivation prev) ran.2).
  assert (Hok8 : graph_ok h8) by (by apply graph_ok_tracking).
  pose proof Hok8 as (Hgraph8 & Hbound8 & Hids8).
  destruct (bindDependencies_graph d h8 arr kept (Hgraph8 d) Hnew Hcount Htake)
    as (h9 & Hbind & Hg9 & Hobserving & Hothers & Hders & _).
  destruct (bindDependencies_returns d h8 arr kept
              (graph_consistent_ready d h8 (Hgraph8 d)) Hnew Hcount Htake)
    as (h9' & Hbind' & _ & Hnone & _).
  assert (h9' = h9) as -> by congruence.
  pose proof (same_stamps_bindDependencies d h8) as Hstamps.
  rewrite Hbind in Hstamps. cbn [snd] in Hstamps.
  pose proof Hstamps as (Hl9 & Hgr9 & Htr9 & Hrun9).
  exists h9. split; [|split; [|split; [|split; [|split; [|split; [|split]]]]]].
  - unfold trackDerivedFunction, call_ext. cbn [heap trace].
    change (on_glob (with_trackingDerivation (Some d)) _)
      with (tracking_started d h). fold started. fold ran.
    match goal with
    | |- context [with_trackingDerivation (trackingDerivation ?g)] =>
        replace (trackingDerivation g) with prev
          by (cbn; by rewrite changeDependenciesStateTo0_glob)
    end.
    destruct ran as [r h7]. cbn [fst snd heap trace] in *.
    fold h8. by rewrite Hbind.
  - split; [|split].
    + intros d'. destruct (decide (d' = d)) as [->|Hne]; [done|].
      apply (graph_consistent_other d d' h8 h9);
        [done|done|intros o; by apply Hothers|by apply Hders|done].
    + intros o. rewrite Hl9, Hgr9. apply Hbound8.
    + intros d'. rewrite Hrun9, Hgr9. apply Hids8.
  - apply (run_frame_trans ds _ (g_runId (glob h)) h ran.2 h9);
      [done|done|].
    split; [|split; [|split]].
    + intros d' Hd'. rewrite Hders; [done|]. by intros ->.
    + by rewrite Hgr9.
    + intros o. left. apply Hl9.
    + intros d'. left. apply Hrun9.
  - by rewrite Htr9.
  - by rewrite Hobserving, Hfirst.
  - done.
  - done.
  - done.
Qed.

(** *** Code that a derived function may run *)


Lemma untracked_start_safe (cur : option derivId) (ds : list derivId) :
  effect_safe cur ds untracked_start.
Proof.
  intros h Hok Htw. cbn. split; [by apply graph_ok_tracking|].
  split; [by left|]. apply run_frame_tracking.
Qed.

Lemma untracked_end_safe (cur : option derivId) (ds : list derivId) :
  effect_safe cur ds (untracked_end cur).
Proof.
  intros h Hok Htw. cbn. split; [by apply graph_ok_tracking|].
  split; [by right|]. apply run_frame_tracking.
Qed.

(** A nested run of another derivation. *)
Lemma tracked_run_safe (cur : option derivId) (ds : list derivId)
    (d : derivId) (body : list step) (result : JsValue) :
  d ∉ ds →
  Forall (step_safe (Some d) (d :: ds)) body →
  effect_safe cur ds (tracked_run d (derived_function body result)).
Proof.
  intros Hd Hbody h Hok Htw.
  destruct (trackDerivedFunction_nested ds d body result h [] Hok Hd Hbody)
    as (h' & Hrun & Hok' & Hframe & Htr & _).
  unfold tracked_run. rewrite Hrun. cbn [snd heap].
  split; [done|]. split; [|done].
  destruct Htw as [Hn|Hc]; [left|right]; congruence.
Qed.

(** Steps run while nothing is tracked. *)
Lemma run_steps_safe (ds : list derivId) (body : list step) :
  Forall (step_safe None ds) body →
  effect_safe None ds (run_steps body).
Proof.
  intros Hbody. induction Hbody as [|s body Hs _ IH]; intros h Hok Htw.
  - cbn. split; [done|]. split; [done|]. apply run_frame_refl.
  - assert (Hnone : trackingDerivation (glob h) = None) by (by destruct Htw).
    destruct s as [o|m]; cbn [run_steps]; unfold mbind.
    + destruct (reportObserved_ok o h Hok)
        as (Hok1 & Htr1 & Hg1 & Hder1 & Hrun1 & Hlast1).
      assert (Hstep : run_frame ds (g_runId (glob h)) h (reportObserved o h).2).
      { split; [|split; [lia|split]].
        - intros d' _. rewrite Hder1 by congruence. done.
        - intros o'. destruct (Hlast1 o') as [?|(d' & ? & _)];
            [by left|congruence].
        - intros d'. left. apply Hrun1. }
      assert (Htw1 : tracking_within None (reportObserved o h).2)
        by (left; congruence).
      destruct (reportObserved o h) as [[[]|e] h1]; cbn [fst snd] in *;
        [|done].
      destruct (IH h1 Hok1 Htw1) as (Hok2 & Htw2 & Hrest).
      split; [done|]. split; [done|].
      apply (run_frame_trans ds _ (g_runId (glob h1)) h h1); [lia|done|done].
    + destruct (Hs h Hok Htw) as (Hok1 & Htw1 & Hstep).
      destruct (m h) as [[[]|e] h1]; cbn [fst snd] in *; [|done].
      destruct (IH h1 Hok1 Htw1) as (Hok2 & Htw2 & Hrest).
      split; [done|]. split; [done|].
      pose proof Hstep as (_ & Hmono & _).
      apply (run_frame_trans ds _ (g_runId (glob h1)) h h1); [lia|done|done].
Qed.

(** [untracked] around code that is run while nothing is tracked. *)
Lemma untracked_safe (cur : option derivId) (ds : list derivId)
    (m : M unit) :
  effect_safe None ds m → effect_safe cur ds (untracked m).
Proof.
  intros Hm h Hok Htw.
  set (h1 := on_glob (with_trackingDerivation None) h).
  assert (Hok1 : graph_ok h1) by (by apply graph_ok_tracking).
  destruct (Hm h1 Hok1) as (Hok2 & Htw2 & Hframe); [by left|].
  assert (Hsame : run_frame ds (g_runId (glob h)) h h1)
    by apply run_frame_tracking.
  unfold untracked. cbn [untrackedStart]. fold h1.
  destruct (m h1) as [[[]|e] h2]; cbn [fst snd] in *.
  - split; [by apply graph_ok_tracking|]. split; [exact Htw|].
    apply (run_frame_trans ds _ (g_runId (glob h)) h h1); [done|done|].
    apply (run_frame_trans ds _ (g_runId (glob h)) h1 h2); [done|done|].
    apply run_frame_tracking.
  - split; [done|]. split.
    + destruct Htw2 as [?|?]; by left.
    + by apply (run_frame_trans ds _ (g_runId (glob h)) h h1).
Qed.

(** *** [trackDerivedFunction] *)

Lemma stale_derivation_ok : graph_ok (heap stale_derivation).
Proof.
  pose proof stale_derivation_graph as (Hdiff & _ & Hobs & Hwf).
  split; [|split; [apply stale_derivation_bounded|]].
  - intros d. destruct (decide (d = 5)) as [->|Hne];
      [apply stale_derivation_graph|].
    split; [done|]. split; [|split; [|done]].
    + cbn. rewrite upd_ne by done. constructor.
    + intros o.
      assert (observing (derS (heap stale_derivation) d) = []) as ->
        by (cbn; by rewrite upd_ne).
      split; [|by intros ?%elem_of_nil]. intros Hin. exfalso.
      destruct (decide (o = 3)) as [->|Ho].
      * vm_compute in Hin. apply list_elem_of_singleton in Hin. done.
      * cbn in Hin. rewrite upd_ne in Hin by done. by apply elem_of_nil in Hin.
  - intros d. destruct (decide (d = 5)) as [->|Hne]; [vm_compute; lia|].
    cbn. rewrite upd_ne by done. cbn. lia.
Qed.

Lemma untracked_read_body_safe :
  Forall (step_safe (Some 5) [5]) untracked_read_body.
Proof.
  unfold untracked_read_body.
  repeat first [apply Forall_nil | apply Forall_cons; split];
    try exact I.
  - apply untracked_start_safe.
  - apply untracked_end_safe.
Qed.

Lemma nested_body_safe : Forall (step_safe (Some 5) [5]) nested_body.
Proof.
  unfold nested_body.
  repeat first [apply Forall_nil | apply Forall_cons; split];
    try exact I.
  - apply tracked_run_safe.
    + intros Hin%list_elem_of_singleton. discriminate.
    + repeat first [apply Forall_nil | apply Forall_cons; split]; exact I.
  - apply untracked_safe, run_steps_safe.
    repeat first [apply Forall_nil | apply Forall_cons; split]; exact I.
Qed.


(** C1, as stated, fails for a read under [untracked].  The derived
    function of derivation 5 reports observable 1, and observable 2 between
    [untrackedStart] and [untrackedEnd]: both are reported during the run,
    and [d.observing] holds observable 1 only.  The same holds with the
    read wrapped in [untracked]. *)
Lemma trackDerivedFunction_untracked_read :
  let started := tracking_started 5 (heap stale_derivation) in
  let r := trackDerivedFunction 5
             (derived_function untracked_read_body (Val 1))
             stale_derivation in
  let r' := trackDerivedFunction 5
              (derived_function
                 [Read 1; Effect (untracked (run_steps [Read 2]))] (Val 1))
              stale_derivation in
  r.1 = Ret (Returned (Val 1)) ∧
  reads_done untracked_read_body started = [1; 2] ∧
  observing (derS (heap r.2) 5) = [1] ∧
  ¬ (∀ o, o ∈ reads_done untracked_read_body started →
          o ∈ observing (derS (heap r.2) 5)) ∧
  observing (derS (heap r.2) 5) ≠
    first_occurrences (reads_done untracked_read_body started) ∧
  r'.1 = Ret (Returned (Val 1)) ∧
  observing (derS (heap r'.2) 5) = [1].
Proof.
  do 3 (split; [reflexivity|]). split; [|split; [|split; reflexivity]].
  - intros Hall. specialize (Hall 2).
    change (2 ∈ [1; 2] → 2 ∈ [1]) in Hall.
    assert (2 ∈ [1]) as Hin by (apply Hall; right; left).
    apply list_elem_of_singleton in Hin. discriminate.
  - change ([1] ≠ [1; 2]). discriminate.
Qed.

(** C1, amended.  On a consistent dependency graph, for a derived function
    that reports observables and otherwise runs code that keeps the graph
    consistent, leaves the run of [d] alone and makes no other derivation
    the tracking one (nested runs of other derivations, untracked blocks
    and throws are such code): [trackDerivedFunction] returns, and
    afterwards [d.observing] holds the observables reported to [d] during
    the run, that is, those on which [reportObserved] was called while [d]
    was the tracking derivation, each once, in the order of their first
    report (the observables first reported in any initial part of the run
    come first, in that same order), and [d.newObserving] is [null]. *)
Theorem trackDerivedFunction_observing (d : derivId) (body : list step)
    (result : JsValue) (w : World) :
  graph_ok (heap w) →
  Forall (step_safe (Some d) [d]) body →
  let reads := reads_tracked d body (tracking_started d (heap w)) in
  ∃ r w',
    trackDerivedFunction d (derived_function body result) w = (Ret r, w') ∧
    observing (derS (heap w') d) = first_occurrences reads ∧
    NoDup (observing (derS (heap w') d)) ∧
    (∀ o, o ∈ observing (derS (heap w') d) ↔ o ∈ reads) ∧
    (∀ pre post, reads = pre ++ post →
       first_occurrences pre `prefix_of` observing (derS (heap w') d)) ∧
    newObserving (derS (heap w') d) = None.
Proof.
  intros Hok Hbody reads. destruct w as [h t]. cbn [heap] in *.
  assert (Hbody' : Forall (step_safe (Some d) (d :: [])) body) by done.
  destruct (trackDerivedFunction_nested [] d body result h t Hok
              (not_elem_of_nil d) Hbody')
    as (h' & Hrun & _ & _ & _ & Hobs & Hnone & _).
  eexists _, (mkWorld h' _). split; [exact Hrun|]. cbn [heap].
  fold reads in Hobs. rewrite Hobs.
  split; [done|]. split; [apply NoDup_first_occurrences|].
  split; [intros o; apply elem_of_first_occurrences|].
  split; [|done]. intros pre post ->. apply first_occurrences_prefix.
Qed.

(** Derivation 5 is reported 1, 0, 0, 1, 2: the nested run of derivation 6
    and the read of observable 4 under [untracked] report nothing to it,
    and [observing] is [1; 0; 2]. *)
Lemma trackDerivedFunction_observing_witness :
  reads_tracked 5 nested_body (tracking_started 5 (heap stale_derivation)) =
    [1; 0; 0; 1; 2] ∧
  observing
    (derS (heap (trackDerivedFunction 5 (derived_function nested_body (Val 1))
                   stale_derivation).2) 5) = [1; 0; 2] ∧
  newObserving
    (derS (heap (trackDerivedFunction 5 (derived_function nested_body (Val 1))
                   stale_derivation).2) 5) = None.
Proof.
  destruct (trackDerivedFunction_observing 5 nested_body (Val 1)
              stale_derivation stale_derivation_ok nested_body_safe)
    as (r & w' & Hrun & Hobs & _ & _ & _ & Hnone).
  rewrite Hrun. cbn [snd]. rewrite Hobs, Hnone.
  split; [reflexivity|]. split; reflexivity.
Defined.



(** X27.  A computed value that recomputes inside the run of another
    derivation.  On a consistent graph, while [d] or nothing is tracked,
    [trackDerivedFunction] on another derivation [d'], for a derived
    function that reports observables and otherwise runs code that keeps
    the graph consistent, leaves the runs of [d] and [d'] alone and makes
    no other derivation the tracking one: the call returns normally, also
    when the function throws; the tracking derivation is the one from before the call; the
    run of [d] is untouched ([observing], [newObserving],
    [unboundDepsCount] and [runId] are the same); every run identifier
    written meanwhile is above the counter as it was before the call; the
    graph is consistent again; and [d'.observing] holds the observables
    reported to [d'], each once, in the order of their first report. *)
Theorem trackDerivedFunction_inside_run (d d' : derivId) (body : list step)
    (result : JsValue) (h : Heap) :
  graph_ok h →
  d' ≠ d →
  Forall (step_safe (Some d') [d'; d]) body →
  let r := tracked_run d' (derived_function body result) h in
  r.1 = Ret tt ∧
  trackingDerivation (glob r.2) = trackingDerivation (glob h) ∧
  same_run (derS r.2 d) (derS h d) ∧
  (∀ o, lastAccessedBy (obsS r.2 o) = lastAccessedBy (obsS h o) ∨
        g_runId (glob h) < lastAccessedBy (obsS r.2 o)) ∧
  graph_ok r.2 ∧
  observing (derS r.2 d') =
    first_occurrences (reads_tracked d' body (tracking_started d' h)) ∧
  newObserving (derS r.2 d') = None.
Proof.
  intros Hok Hne Hbody r.
  assert (Hd : d' ∉ [d]) by (by intros ?%list_elem_of_singleton).
  destruct (trackDerivedFunction_nested [d] d' body result h [] Hok Hd Hbody)
    as (h' & Hrun & Hok' & (Hsame & _ & Hlast & _) & Htr & Hobs & Hnone & _).
  subst r. unfold tracked_run. rewrite Hrun. cbn [fst snd heap].
  split; [done|]. split; [done|]. split; [apply Hsame; by left|].
  by do 3 (split; [done|]).
Qed.

(** Derivation 6 recomputes inside the run of derivation 5, which has
    reported observables 1 and 0: it reads observables 0 and 2 and ends
    with these as its [observing]; the two entries of derivation 5 are as
    they were. *)
Lemma trackDerivedFunction_inside_run_witness :
  let h := (run_steps [Read 1; Read 0]
              (tracking_started 5 (heap stale_derivation))).2 in
  let r := tracked_run 6 (derived_function [Read 0; Read 2] (Val 0)) h in
  r.1 = Ret tt ∧
  trackingDerivation (glob r.2) = Some 5 ∧
  unboundDepsCount (derS r.2 5) = 2 ∧
  observing (derS r.2 6) = [0; 2] ∧
  newObserving (derS r.2 6) = None.
Proof.
  intros h r.
  assert (Hok : graph_ok h).
  { pose proof (tracking_started_state [] 5 (heap stale_derivation)
                  stale_derivation_ok (not_elem_of_nil 5)) as Hst.
    assert (Hbody : Forall (step_safe (Some 5) [5]) [Read 1; Read 0])
      by (repeat first [apply Forall_nil | apply Forall_cons; split];
          exact I).
    by destruct (run_steps_state [] 5 _ _ _ _ _ (not_elem_of_nil 5) Hbody
                   _ [] Hst) as (? & _). }
  destruct (trackDerivedFunction_inside_run 5 6 [Read 0; Read 2] (Val 0) h)
    as (Hret & Htr & (_ & _ & Hcount & _) & _ & _ & Hobs & Hnone).
  - exact Hok.
  - discriminate.
  - repeat first [apply Forall_nil | apply Forall_cons; split]; exact I.
  - subst r. split; [exact Hret|]. split; [rewrite Htr; reflexivity|].
    split; [rewrite Hcount; reflexivity|].
    split; [rewrite Hobs; reflexivity|exact Hnone].
Defined.

(** ** A batch closed during the drain *)

(** X28.  The drain walks the array it captured.  Observables 0 and 1 are
    queued, and the hook of observable 0 opens and closes a batch of its
    own: that inner [endBatch] walks the same array and puts a new, empty
    one in [pendingUnobservations].  The outer loop goes on over the array
    it captured: it still visits observable 1 and calls its hook, and the
    call ends with an empty queue; the array that was captured has kept its
    two entries. *)
Theorem endBatch_queue_replaced :
  let r := endBatch closing_a_batch 5 two_pending in
  pendingUnobservations (glob (heap two_pending)) = [0; 1] ∧
  inBatch (glob (heap two_pending)) = 1%Z ∧
  r.2 = true ∧
  trace r.1 =
    [ERunReactions; EOnBecomeUnobserved 0; EOnBecomeUnobserved 1] ∧
  pendingUnobservations (glob (heap r.1)) = [] ∧
  captured_queue (queueEpoch (heap two_pending)) (heap r.1) = [0; 1] ∧
  queueEpoch (heap r.1) = 2 + queueEpoch (heap two_pending) ∧
  isPendingUnobservation (obsS (heap r.1) 0) = false ∧
  isPendingUnobservation (obsS (heap r.1) 1) = false.
Proof. repeat split; reflexivity. Qed.
